(** * Annotation overlay engine of the PDF viewer

    A shallow embedding of the annotation composable ([usePdfAnnotations]),
    of the pointer handling, page navigation and zoom of the viewer
    composable ([usePdf]) and of the ray-casting helper of the viewer
    component, followed by the properties the specification states about
    them and by further properties of the code.

    Conventions of the embedding.
    - A JavaScript [number] is an IEEE 754 binary64 value: Rocq's primitive
      [float].  Reading an array past its end yields [undefined], which
      arithmetic and comparisons coerce to [NaN].
    - A JavaScript [string] is a sequence of code units; the model keeps the
      code units below 256 (Rocq's [ascii]).
    - A [Map] iterates in insertion order and [set] on a present key keeps
      the key's position: an association list with that discipline.
    - [console.warn] and [console.error] are recorded as events;
      [console.log] tracing is not modelled.
    - Canvas and DOM mutations made by the engine itself are events of a
      trace; what a provider's [render] does to the canvas is a change of an
      abstract world [W].
    - A provider's [canHandle] and [render] and the [htmlAnnotation]
      callback are user code: each returns or throws.  [querySelector] is
      the selector engine of the browser, a parameter of the model; it
      answers with an element or none, or rejects the selector. *)

From Stdlib Require Import PrimFloat Floats ZArith Ascii String List Bool Lia.
From stdpp Require Import base gmap strings list pretty.

(* ================================================================== *)
(** * Part I: the embedding                                            *)
(* ================================================================== *)

(** ** JavaScript [Map<string, V>] *)

Abbreviation JsMap V := (list (string * V)).

Fixpoint Map_get {V : Type} (k : string) (m : JsMap V) : option V :=
  match m with
  | [] => None
  | (k', v) :: m' => if String.eqb k' k then Some v else Map_get k m'
  end.

Definition Map_has {V : Type} (k : string) (m : JsMap V) : bool :=
  match Map_get k m with Some _ => true | None => false end.

(** [set] replaces the value in place when the key is present and appends
    the entry otherwise. *)
Fixpoint Map_set {V : Type} (k : string) (v : V) (m : JsMap V) : JsMap V :=
  match m with
  | [] => [(k, v)]
  | (k', v') :: m' =>
      if String.eqb k' k then (k, v) :: m' else (k', v') :: Map_set k v m'
  end.

(** [delete] removes what is stored under the key (one entry, in a list
    that [Map_set] built); its boolean result is [Map_has] on the map
    before. *)
Fixpoint Map_delete {V : Type} (k : string) (m : JsMap V) : JsMap V :=
  match m with
  | [] => []
  | (k', v') :: m' =>
      if String.eqb k' k then Map_delete k m' else (k', v') :: Map_delete k m'
  end.

Definition Map_keys {V : Type} (m : JsMap V) : list string := map fst m.

Definition Map_values {V : Type} (m : JsMap V) : list V := map snd m.

(** ** Strings *)

Definition code (c : ascii) : nat := nat_of_ascii c.

Definition in_range (lo hi : nat) (c : ascii) : bool :=
  (lo <=? code c)%nat && (code c <=? hi)%nat.

(** White space of [String.prototype.trim] among the code units below 256:
    TAB, LF, VT, FF, CR, SPACE and NO-BREAK SPACE. *)
Definition is_js_space (c : ascii) : bool :=
  in_range 9 13 c || (code c =? 32)%nat || (code c =? 160)%nat.

Fixpoint all_chars (f : ascii -> bool) (s : string) : bool :=
  match s with
  | EmptyString => true
  | String c s' => f c && all_chars f s'
  end.

(** [!s || !s.trim()]: the string is empty or white space only. *)
Definition blank (s : string) : bool := all_chars is_js_space s.

(** [toLowerCase] on one code unit below 256: A-Z and the Latin-1 capitals
    (U+00C0 to U+00DE, the multiplication sign U+00D7 apart) move up by 32. *)
Definition lower_char (c : ascii) : ascii :=
  if in_range 65 90 c || (in_range 192 222 c && negb (code c =? 215)%nat)
  then ascii_of_nat (code c + 32)
  else c.

Fixpoint map_chars (f : ascii -> ascii) (s : string) : string :=
  match s with
  | EmptyString => EmptyString
  | String c s' => String (f c) (map_chars f s')
  end.

Definition toLowerCase (s : string) : string := map_chars lower_char s.

Definition is_lower_alnum (c : ascii) : bool :=
  in_range 97 122 c || in_range 48 57 c.

(** [s.replace(/[^a-z0-9]/g, '-')] *)
Definition replace_non_alnum (s : string) : string :=
  map_chars (fun c => if is_lower_alnum c then c else "-"%char) s.

(** ** Numbers *)

Definition js_index (l : list float) (i : Z) : float :=
  if (i <? 0)%Z then nan else default nan (l !! Z.to_nat i).

(** [Math.min] and [Math.max] on two arguments: [NaN] is contagious and
    [-0] is below [+0]. *)
Definition Math_min2 (a b : float) : float :=
  if is_nan a || is_nan b then nan
  else if (a <? b)%float then a
  else if (b <? a)%float then b
  else if get_sign a then a else b.

Definition Math_max2 (a b : float) : float :=
  if is_nan a || is_nan b then nan
  else if (a <? b)%float then b
  else if (b <? a)%float then a
  else if get_sign a then b else a.

(** [Math.min(...xs)] and [Math.max(...xs)] *)
Definition Math_min (xs : list float) : float := fold_left Math_min2 xs infinity.

Definition Math_max (xs : list float) : float := fold_left Math_max2 xs neg_infinity.

(** ** Annotations ([types/annotations.ts]) *)

(** [obj] stands for the identity of the JavaScript object: [===] and [!==]
    on annotations compare it.  [line] is an integer, printed in decimal as
    JavaScript prints integers of magnitude below 10^21.  The optional
    metadata and JSON-LD fields are only handed through to providers and
    are left out. *)
Record OverlayAnnotation := {
  obj : nat;
  page : string;
  content : string;
  rect : list float;
  line : Z;
  type : option string
}.

Definition same_object (a b : OverlayAnnotation) : bool := (obj a =? obj b)%nat.

(** [previous !== current] on values that are an annotation or [null] *)
Definition differs (a b : option OverlayAnnotation) : bool :=
  match a, b with
  | None, None => false
  | Some x, Some y => negb (same_object x y)
  | _, _ => true
  end.

(** ** Document space to raster-pixel space *)

Definition Point : Type := float * float.

Fixpoint convertCoordinates_loop (fuel : nat) (rect : list float)
    (effectiveDpi : float) (i : nat) (points : list Point) : list Point :=
  match fuel with
  | O => points
  | S fuel' =>
      if (i <? length rect)%nat then
        let x := (js_index rect (Z.of_nat i) * effectiveDpi)%float in
        let y := (js_index rect (Z.of_nat i + 1) * effectiveDpi)%float in
        convertCoordinates_loop fuel' rect effectiveDpi (i + 2) (points ++ [(x, y)])
      else points
  end.

(** The loop advances by two, so [length rect] rounds suffice. *)
Definition convertCoordinates (rect : list float) (effectiveDpi : float) : list Point :=
  convertCoordinates_loop (length rect) rect effectiveDpi 0 [].

(** ** Paths *)

Inductive PathCmd :=
| MoveTo (x y : float)
| LineTo (x y : float)
| ClosePath.

Definition Path2D : Type := list PathCmd.

Fixpoint createAnnotationPath_loop (points : list Point) (i : nat) (path : Path2D) : Path2D :=
  match points with
  | [] => path
  | (x, y) :: points' =>
      createAnnotationPath_loop points' (S i)
        (path ++ [if (i =? 0)%nat then MoveTo x y else LineTo x y])
  end.

Definition createAnnotationPath (rect : list float) (effectiveDpi : float) : Path2D :=
  let points := convertCoordinates rect effectiveDpi in
  createAnnotationPath_loop points 0 [] ++ [ClosePath].

(** ** Events of the engine: console warnings and errors, canvas and DOM
    mutations, provider invocations *)

Inductive Event :=
| ConsoleWarn (msg : string)
| ConsoleError (msg : string)
| CanvasClearRect
| CanvasFill (p : Path2D)
| CanvasStroke (p : Path2D)
| RenderCall (providerId : string)
| OverlayAppended (annotationId : string)
| OverlaysCleared (n : nat)
| CursorSet (pointer : bool).

(** ** The hit-test index *)

Record HitTestEntry := {
  entry_path : Path2D;
  entry_annotation : OverlayAnnotation
}.

(** [`annotation-${annotation.page}-${annotation.line}`] *)
Definition annotationKey (a : OverlayAnnotation) : string :=
  "annotation-" +:+ page a +:+ "-" +:+ pretty (line a).

Definition getAnnotationsForPage (pageAnnotations : list OverlayAnnotation)
    (pageNumber : Z) : list OverlayAnnotation :=
  filter (fun a => page a = pretty (pageNumber + 1)%Z) pageAnnotations.

Fixpoint drawAnnotations_loop (annotations : list OverlayAnnotation)
    (effectiveDpi : float) (annotationPaths : JsMap HitTestEntry)
    (drawn : list Event) : JsMap HitTestEntry * list Event :=
  match annotations with
  | [] => (annotationPaths, drawn)
  | annotation :: rest =>
      let annotationId := annotationKey annotation in
      let path := createAnnotationPath (rect annotation) effectiveDpi in
      drawAnnotations_loop rest effectiveDpi
        (Map_set annotationId
           {| entry_path := path; entry_annotation := annotation |} annotationPaths)
        (drawn ++ [CanvasFill path; CanvasStroke path])
  end.

(** The index is cleared and rebuilt from the annotations of the page; the
    result is the new [annotationPaths] and what was drawn. *)
Definition drawAnnotations (pageAnnotations : list OverlayAnnotation)
    (pageNumber : Z) (effectiveDpi : float) : JsMap HitTestEntry * list Event :=
  drawAnnotations_loop (getAnnotationsForPage pageAnnotations pageNumber)
    effectiveDpi [] [].

Section HitTest.

(** [ctx.isPointInPath(path, x, y)] of the canvas API *)
Variable isPointInPath : Path2D -> float -> float -> bool.

Fixpoint getAnnotationAtPoint_loop (entries : list HitTestEntry) (x y : float)
    : option OverlayAnnotation :=
  match entries with
  | [] => None
  | e :: entries' =>
      if isPointInPath (entry_path e) x y then Some (entry_annotation e)
      else getAnnotationAtPoint_loop entries' x y
  end.

Definition getAnnotationAtPoint (annotationPaths : JsMap HitTestEntry)
    (x y : float) : option OverlayAnnotation :=
  getAnnotationAtPoint_loop (Map_values annotationPaths) x y.

Definition handleAnnotationHover (annotationPaths : JsMap HitTestEntry)
    (x y : float) : bool :=
  match getAnnotationAtPoint annotationPaths x y with
  | Some _ => true
  | None => false
  end.

End HitTest.

(** ** Ray casting over a flat polygon (viewer component) *)

Fixpoint isPointInPolygon_loop (fuel : nat) (px py : float) (polygon : list float)
    (i j : Z) (inside : bool) : bool :=
  match fuel with
  | O => inside
  | S fuel' =>
      if (i <? Z.of_nat (length polygon))%Z then
        let xi := js_index polygon i in
        let yi := js_index polygon (i + 1) in
        let xj := js_index polygon j in
        let yj := js_index polygon (j + 1) in
        let intersect :=
          negb (Bool.eqb (py <? yi)%float (py <? yj)%float)
          && (px <? (xj - xi) * (py - yi) / (yj - yi) + xi)%float in
        isPointInPolygon_loop fuel' px py polygon (i + 2) i
          (if intersect then negb inside else inside)
      else inside
  end.

Definition isPointInPolygon (px py : float) (polygon : list float) : bool :=
  isPointInPolygon_loop (length polygon) px py polygon 0
    (Z.of_nat (length polygon) - 2) false.

(** The vertices of a path as a flat polygon. *)
Fixpoint path_vertices (p : Path2D) : list float :=
  match p with
  | [] => []
  | MoveTo x y :: p' => x :: y :: path_vertices p'
  | LineTo x y :: p' => x :: y :: path_vertices p'
  | ClosePath :: p' => path_vertices p'
  end.

(** A containment test for closed polygon paths built from the repository's
    own ray casting; it stands in for the canvas API in the examples. *)
Definition rayCast_isPointInPath (p : Path2D) (x y : float) : bool :=
  isPointInPolygon x y (path_vertices p).

(** ** Providers, registry and render dispatch ([usePdfAnnotations]) *)

(** How a call of user-supplied code ends. *)
Inductive Completion :=
| Normal
| Throws (error : string).

Inductive result (A : Type) :=
| Ok (a : A)
| Thrown (error : string).

Arguments Ok {A} a.
Arguments Thrown {A} error.

Record BoundingBox := {
  minX : float;
  maxX : float;
  minY : float;
  maxY : float;
  width : float;
  height : float
}.

Record AnnotationRenderContext := {
  ctx_annotation : OverlayAnnotation;
  ctx_effectiveDpi : float;
  ctx_pageNumber : Z;
  ctx_rect : BoundingBox
}.

Record CanvasElement := {
  canvas_width : float;
  canvas_height : float;
  bounds_left : float;
  bounds_top : float;
  bounds_width : float;
  bounds_height : float
}.

Record ScreenCoords := {
  sc_x : float;
  sc_y : float;
  sc_width : float;
  sc_height : float
}.

(** An element of class [pdf-simple-html-overlay] in the overlay container. *)
Record OverlayElement := {
  data_annotation_id : string;
  innerHTML : string;
  style_left : float;
  style_top : float;
  style_width : float;
  style_height : float;
  style_fontSize : float
}.

Record MouseEvent := {
  clientX : float;
  clientY : float
}.

Record HoverState := {
  previousHoverState : bool;
  previousHoveredAnnotation : option OverlayAnnotation
}.

(** [`[data-annotation-id="${annotationId}"]`]: the id goes into the
    selector as it is, between two double quotes (code unit 34). *)
Definition double_quote : string := String (ascii_of_nat 34) EmptyString.

Definition attribute_selector (annotationId : string) : string :=
  "[data-annotation-id=" +:+ double_quote +:+ annotationId +:+ double_quote +:+ "]".

(** A selector engine for selectors of this shape whose value is plain (no
    double quote, backslash or line break, so that the selector means
    equality with the value); on any other selector it reports a syntax
    error.  It stands in for the browser's engine in the examples. *)
Definition plain_value (c : ascii) : bool :=
  negb (Nat.eqb (code c) 34 || Nat.eqb (code c) 92 || Nat.eqb (code c) 10
        || Nat.eqb (code c) 13 || Nat.eqb (code c) 12).

Definition plain_querySelector (selector : string) (os : list OverlayElement)
    : result (option OverlayElement) :=
  let before := ("[data-annotation-id=" +:+ double_quote)%string in
  let after := (double_quote +:+ "]")%string in
  let n := (String.length selector - String.length before - String.length after)%nat in
  let value := String.substring (String.length before) n selector in
  if String.eqb selector (before +:+ value +:+ after) && all_chars plain_value value
  then Ok (List.find (fun o => String.eqb (data_annotation_id o) value) os)
  else Thrown "SyntaxError".

(** What a suspended run of the pointer-move handler has left to do when it
    resumes: the hover state to write, if it writes one, and the cursor to
    set; [awaited] says that the run is inside [await drawHoverEffect(...)]. *)
Record Continuation := {
  awaited : bool;
  write_hover : option HoverState;
  set_cursor : option bool
}.

Section Engine.

(** The canvas as providers see and change it. *)
Context {W : Type}.

Record AnnotationProvider := {
  id : string;
  name : string;
  description : option string;
  canHandle : OverlayAnnotation -> result bool;
  render : AnnotationRenderContext -> W -> Completion * W
}.

Record AnnotationProviderOptions := {
  opt_id : option string;
  opt_name : string;
  opt_description : option string;
  opt_canHandle : OverlayAnnotation -> result bool;
  opt_render : AnnotationRenderContext -> W -> Completion * W
}.

(** The process-wide singletons [globalAnnotationProviders] and
    [globalActiveProviders]. *)
Record Registry := {
  annotationProviders : JsMap AnnotationProvider;
  activeProviders : gset string
}.

(** What the viewer instance was created with and what the browser reports:
    the two canvases (for the overlay canvas, whether [getContext('2d')]
    succeeds), the overlay container, the [htmlAnnotation] callback,
    [window.devicePixelRatio], and the container's [querySelector]: the
    browser's selector engine, which answers a selector over the overlays in
    the container with an element, with [null], or with a [SyntaxError]. *)
Record Env := {
  canvasRef : option CanvasElement;
  overlayCanvasRef : option bool;
  htmlOverlayContainer : bool;
  htmlAnnotation :
    option (AnnotationRenderContext -> OverlayAnnotation -> result string);
  devicePixelRatio : float;
  querySelector : string -> list OverlayElement -> result (option OverlayElement)
}.

(** The mutable surroundings of the engine. *)
Record St := {
  world : W;
  overlays : list OverlayElement;
  trace : list Event
}.

(** *** A state and exception monad *)

Definition M (A : Type) : Type := St -> result A * St.

Definition ret {A : Type} (a : A) : M A := fun st => (Ok a, st).

Definition bind {A B : Type} (c : M A) (k : A -> M B) : M B :=
  fun st =>
    match c st with
    | (Ok a, st') => k a st'
    | (Thrown e, st') => (Thrown e, st')
    end.

Definition throw {A : Type} (e : string) : M A := fun st => (Thrown e, st).

Definition try_catch {A : Type} (c : M A) (handler : string -> M A) : M A :=
  fun st =>
    match c st with
    | (Ok a, st') => (Ok a, st')
    | (Thrown e, st') => handler e st'
    end.

Definition emit (ev : Event) : M unit :=
  fun st =>
    (Ok tt, {| world := world st; overlays := overlays st;
               trace := trace st ++ [ev] |}).

Fixpoint emit_all (evs : list Event) : M unit :=
  match evs with
  | [] => ret tt
  | ev :: evs' => bind (emit ev) (fun _ => emit_all evs')
  end.

Definition get_overlays : M (list OverlayElement) :=
  fun st => (Ok (overlays st), st).

Definition set_overlays (os : list OverlayElement) : M unit :=
  fun st => (Ok tt, {| world := world st; overlays := os; trace := trace st |}).

Definition of_result {A : Type} (r : result A) : M A :=
  match r with
  | Ok a => ret a
  | Thrown e => throw e
  end.

(** [await provider.render(context)] *)
Definition call_render (provider : AnnotationProvider)
    (context : AnnotationRenderContext) : M unit :=
  fun st =>
    let '(c, w) := render provider context (world st) in
    let st' := {| world := w; overlays := overlays st;
                  trace := trace st ++ [RenderCall (id provider)] |} in
    match c with
    | Normal => (Ok tt, st')
    | Throws e => (Thrown e, st')
    end.

Notation "'let*' x ':=' c 'in' k" := (bind c (fun x => k))
  (at level 10, x name, c at level 100, k at level 200).

Notation "c ';;;' k" := (bind c (fun _ => k))
  (at level 100, k at level 200, right associativity).

(** *** The default provider *)

(** The text layout and painting of [drawDefaultAnnotationText] after its
    two guards (font sizing, wrapping by [measureText], background, border
    and text): it touches the canvas only. *)
Variable paintDefaultText : AnnotationRenderContext -> W -> Completion * W.

Definition drawDefaultAnnotationText (context : AnnotationRenderContext)
    (w : W) : Completion * W :=
  if blank (content (ctx_annotation context)) then (Normal, w)
  else if (width (ctx_rect context) <=? 0)%float
          || (height (ctx_rect context) <=? 0)%float then (Normal, w)
  else paintDefaultText context w.

(** [createDefaultProvider] followed by [setupDefaultProvider] *)
Definition defaultProvider : AnnotationProvider :=
  {| id := "default";
     name := "Default Text Renderer";
     description := Some "Built-in text rendering for annotations";
     canHandle := fun _ => Ok true;
     render := drawDefaultAnnotationText |}.

(** The module-level state before any viewer instance exists. *)
Definition globalRegistry : Registry :=
  {| annotationProviders := []; activeProviders := {["default"]} |}.

(** "Register the default provider only once globally" *)
Definition usePdfAnnotations (r : Registry) : Registry :=
  if Map_has "default" (annotationProviders r) then r
  else {| annotationProviders :=
            Map_set "default" defaultProvider (annotationProviders r);
          activeProviders := activeProviders r |}.

(** *** Provider management *)

(** [a || b] on an optional string: [undefined] and [''] are falsy. *)
Definition or_else (a : option string) (b : string) : string :=
  match a with
  | Some s => if String.eqb s "" then b else s
  | None => b
  end.

Definition registerAnnotationProvider (options : AnnotationProviderOptions)
    (r : Registry) : Registry :=
  let id' := or_else (opt_id options)
               (replace_non_alnum (toLowerCase (opt_name options))) in
  let provider :=
    {| id := id';
       name := opt_name options;
       description := opt_description options;
       canHandle := opt_canHandle options;
       render := opt_render options |} in
  {| annotationProviders :=
       Map_set (id provider) provider (annotationProviders r);
     activeProviders := {[id provider]} ∪ activeProviders r |}.

Definition unregisterAnnotationProvider (id' : string) (r : Registry)
    : Registry * list Event :=
  if String.eqb id' "default" then
    (r, [ConsoleWarn "Cannot unregister the default annotation provider"])
  else
    let removed := Map_has id' (annotationProviders r) in
    let r' := {| annotationProviders := Map_delete id' (annotationProviders r);
                 activeProviders := activeProviders r |} in
    if removed then (r', [])
    else (r', [ConsoleWarn ("Annotation provider not found: " +:+ id')]).

Definition getAnnotationProvider (id' : string) (r : Registry)
    : option AnnotationProvider :=
  Map_get id' (annotationProviders r).

Definition getAllProviders (r : Registry) : list AnnotationProvider :=
  Map_values (annotationProviders r).

Definition isProviderActive (providerId : string) (r : Registry) : bool :=
  bool_decide (providerId ∈ activeProviders r).

(** [provider.canHandle(annotation)] is user code and may throw; nothing
    catches it here, so resolution ends with that exception. *)
Fixpoint findProvider_loop (r : Registry) (annotation : OverlayAnnotation)
    (customProviders : list AnnotationProvider) : result AnnotationProvider :=
  match customProviders with
  | [] => Ok defaultProvider
  | provider :: rest =>
      if isProviderActive (id provider) r then
        match canHandle provider annotation with
        | Ok true => Ok provider
        | Ok false => findProvider_loop r annotation rest
        | Thrown e => Thrown e
        end
      else findProvider_loop r annotation rest
  end.

Definition findProviderForAnnotation (r : Registry)
    (annotation : OverlayAnnotation) : result AnnotationProvider :=
  let providers := getAllProviders r in
  let customProviders :=
    List.filter (fun p => negb (String.eqb (id p) "default")) providers in
  findProvider_loop r annotation customProviders.

(** A provider handed to [registerAnnotationProvider] as its options. *)
Definition as_options (p : AnnotationProvider) : AnnotationProviderOptions :=
  {| opt_id := Some (id p);
     opt_name := name p;
     opt_description := description p;
     opt_canHandle := canHandle p;
     opt_render := render p |}.

Definition toggleProvider (providerId : string) (r : Registry)
    : Registry * list Event :=
  if String.eqb providerId "default" then (r, [])
  else if isProviderActive providerId r then
    let '(r1, warned) := unregisterAnnotationProvider providerId r in
    ({| annotationProviders := annotationProviders r1;
        activeProviders := activeProviders r1 ∖ {[providerId]} |}, warned)
  else
    match Map_get providerId (annotationProviders r) with
    | Some provider =>
        let r1 := registerAnnotationProvider (as_options provider) r in
        ({| annotationProviders := annotationProviders r1;
            activeProviders := {[providerId]} ∪ activeProviders r1 |}, [])
    | None => (r, [])
    end.

Definition cleanupProviders (r : Registry) : Registry :=
  let customProviders :=
    List.filter (fun k => negb (String.eqb k "default"))
      (Map_keys (annotationProviders r)) in
  {| annotationProviders :=
       fold_left (fun m k => Map_delete k m) customProviders (annotationProviders r);
     activeProviders := {["default"]} |}.

(** *** Raster-pixel space to overlay space ([usePdfCoordinates]) *)

Definition convertCanvasToOverlayCoords (canvasRect : BoundingBox)
    (canvasElement : option CanvasElement) : M (option ScreenCoords) :=
  match canvasElement with
  | None => emit (ConsoleWarn "[PDF Coords] No canvas element provided") ;;; ret None
  | Some canvas =>
      let scaleX := (bounds_width canvas / canvas_width canvas)%float in
      let scaleY := (bounds_height canvas / canvas_height canvas)%float in
      ret (Some {| sc_x := (minX canvasRect * scaleX)%float;
                   sc_y := (minY canvasRect * scaleY)%float;
                   sc_width := (width canvasRect * scaleX)%float;
                   sc_height := (height canvasRect * scaleY)%float |})
  end.

Definition convertPdfCoordsToOverlayCoords (canvasElement : option CanvasElement)
    (canvasRenderedRect : option BoundingBox) : M (option ScreenCoords) :=
  match canvasElement, canvasRenderedRect with
  | Some _, Some canvasRect =>
      try_catch
        (let* coords := convertCanvasToOverlayCoords canvasRect canvasElement in
         match coords with
         | None =>
             emit (ConsoleWarn "[PDF Coord Conversion] Failed to convert coordinates") ;;;
             ret None
         | Some c => ret (Some c)
         end)
        (fun _ => emit (ConsoleError "[PDF Coord Conversion] Error:") ;;; ret None)
  | _, _ =>
      emit (ConsoleWarn "[PDF Coord Conversion] No canvas element or canvas rect provided") ;;;
      ret None
  end.

(** *** The render entry point *)

(** [offsetWidth] and [offsetHeight] of the HTML laid out off-screen at a
    font size: the browser's layout. *)
Variable measureHtml : string -> float -> float * float.

Definition boundingBox (points : list Point) : BoundingBox :=
  let minX' := Math_min (map fst points) in
  let maxX' := Math_max (map fst points) in
  let minY' := Math_min (map snd points) in
  let maxY' := Math_max (map snd points) in
  {| minX := minX'; maxX := maxX'; minY := minY'; maxY := maxY';
     width := (maxX' - minX')%float; height := (maxY' - minY')%float |}.

Definition renderContext (annotation : OverlayAnnotation) (effectiveDpi : float)
    (pageNumber : Z) : AnnotationRenderContext :=
  {| ctx_annotation := annotation;
     ctx_effectiveDpi := effectiveDpi;
     ctx_pageNumber := pageNumber;
     ctx_rect := boundingBox (convertCoordinates (rect annotation) effectiveDpi) |}.

(** The [htmlAnnotation] branch of [drawAnnotationText]: [true] when the
    function returns from inside it (an overlay exists or was created),
    [false] when provider-based rendering follows. *)
Definition simpleHtmlRender
    (query : string -> list OverlayElement -> result (option OverlayElement))
    (generate : AnnotationRenderContext -> OverlayAnnotation -> result string)
    (canvas : CanvasElement) (context : AnnotationRenderContext)
    (annotation : OverlayAnnotation) : M bool :=
  try_catch
    (let annotationId := page annotation +:+ "-" +:+ pretty (line annotation) in
     let* existing := get_overlays in
     let* existingOverlay :=
       of_result (query (attribute_selector annotationId) existing) in
     match existingOverlay with
     | Some _ => ret true
     | None =>
       let* htmlContent := of_result (generate context annotation) in
       let* screenCoords :=
         convertPdfCoordsToOverlayCoords (Some canvas) (Some (ctx_rect context)) in
       match screenCoords with
       | Some sc =>
           let scaleRatio := (bounds_width canvas / canvas_width canvas)%float in
           let scaledFontSize := Math_max [8; Math_min [16; 12 * scaleRatio]]%float in
           let '(naturalWidth, naturalHeight) := measureHtml htmlContent scaledFontSize in
           let centerX := (sc_x sc + sc_width sc / 2)%float in
           let centerY := (sc_y sc + sc_height sc / 2)%float in
           let overlay :=
             {| data_annotation_id := annotationId;
                innerHTML := htmlContent;
                style_left := (centerX - naturalWidth / 2)%float;
                style_top := (centerY - naturalHeight / 2)%float;
                style_width := naturalWidth;
                style_height := naturalHeight;
                style_fontSize := scaledFontSize |} in
           let* current := get_overlays in
           set_overlays (current ++ [overlay]) ;;;
           emit (OverlayAppended annotationId) ;;;
           ret true
       | None => ret false
       end
     end)
    (fun _ =>
       emit (ConsoleWarn "[Simple HTML Render] Error creating overlay:") ;;;
       ret false).

(** [if (htmlAnnotation && canvasRef?.value && htmlOverlayContainer?.value)] *)
Definition htmlAnnotationStage (env : Env) (context : AnnotationRenderContext)
    (annotation : OverlayAnnotation) : M bool :=
  match htmlAnnotation env, canvasRef env, htmlOverlayContainer env with
  | Some generate, Some canvas, true =>
      simpleHtmlRender (querySelector env) generate canvas context annotation
  | _, _, _ => ret false
  end.

Definition drawAnnotationText (env : Env) (r : Registry)
    (disableFallbackRendering : bool) (annotation : OverlayAnnotation)
    (effectiveDpi : float) (pageNumber : Z) : M unit :=
  if blank (content annotation) then ret tt
  else
    let points := convertCoordinates (rect annotation) effectiveDpi in
    if (length points <? 3)%nat then ret tt
    else
      let context := renderContext annotation effectiveDpi pageNumber in
      if (width (ctx_rect context) <=? 0)%float
         || (height (ctx_rect context) <=? 0)%float then ret tt
      else
        let* handled := htmlAnnotationStage env context annotation in
        if handled then ret tt
        else
          let* provider := of_result (findProviderForAnnotation r annotation) in
          try_catch (call_render provider context)
            (fun _ =>
               emit (ConsoleWarn ("Error rendering annotation with provider "
                                  +:+ id provider +:+ ":")) ;;;
               if negb (String.eqb (id provider) "default")
                  && negb disableFallbackRendering
               then
                 try_catch (call_render defaultProvider context)
                   (fun _ => emit (ConsoleError "Default provider also failed:"))
               else ret tt).

(** *** Hover ([usePdfAnnotations] and [usePdf]) *)

Variable isPointInPath : Path2D -> float -> float -> bool.

Definition drawHoverEffect (env : Env) (r : Registry)
    (disableFallbackRendering : bool) (annotationPaths : JsMap HitTestEntry)
    (x y : float) (effectiveDpi : float) : M unit :=
  match getAnnotationAtPoint isPointInPath annotationPaths x y with
  | Some annotation =>
      let annotationId := annotationKey annotation in
      match Map_get annotationId annotationPaths with
      | Some entry =>
          emit (CanvasFill (entry_path entry)) ;;;
          emit (CanvasStroke (entry_path entry)) ;;;
          try_catch
            (drawAnnotationText env r disableFallbackRendering annotation
               effectiveDpi 0)
            (fun _ => emit (ConsoleWarn "Error drawing annotation text:"))
      | None => ret tt
      end
  | None => ret tt
  end.

Definition clearHtmlOverlays (env : Env) : M unit :=
  if htmlOverlayContainer env then
    let* existing := get_overlays in
    set_overlays [] ;;;
    emit (OverlaysCleared (length existing))
  else ret tt.

Definition initialHoverState : HoverState :=
  {| previousHoverState := false; previousHoveredAnnotation := None |}.

Definition handleCanvasMouseMove (env : Env) (r : Registry)
    (disableFallbackRendering : bool) (annotationPaths : JsMap HitTestEntry)
    (hover : HoverState) (event : MouseEvent) : M HoverState :=
  match canvasRef env, overlayCanvasRef env with
  | Some canvas, Some true =>
      let scaleX := (canvas_width canvas / bounds_width canvas)%float in
      let scaleY := (canvas_height canvas / bounds_height canvas)%float in
      let x := ((clientX event - bounds_left canvas) * scaleX)%float in
      let y := ((clientY event - bounds_top canvas) * scaleY)%float in
      let isOverAnnotation := handleAnnotationHover isPointInPath annotationPaths x y in
      let currentAnnotation :=
        if isOverAnnotation
        then getAnnotationAtPoint isPointInPath annotationPaths x y
        else None in
      let annotationChanged :=
        differs (previousHoveredAnnotation hover) currentAnnotation in
      let hoverStateChanged :=
        negb (Bool.eqb (previousHoverState hover) isOverAnnotation) in
      let* hover' :=
        if hoverStateChanged || annotationChanged then
          emit CanvasClearRect ;;;
          (if negb isOverAnnotation then clearHtmlOverlays env
           else if annotationChanged then clearHtmlOverlays env
           else ret tt) ;;;
          (if isOverAnnotation then
             let baseScale := (devicePixelRatio env * 96 / 72)%float in
             let effectiveDpi := (baseScale * 72 * 1)%float in
             drawHoverEffect env r disableFallbackRendering annotationPaths
               x y effectiveDpi
           else ret tt) ;;;
          ret {| previousHoverState := isOverAnnotation;
                 previousHoveredAnnotation := currentAnnotation |}
        else ret hover in
      emit (CursorSet isOverAnnotation) ;;;
      ret hover'
  | _, _ => ret hover
  end.

(** A sequence of pointer moves, each handled to completion before the
    next one starts. *)
Fixpoint handleMoves (env : Env) (r : Registry)
    (disableFallbackRendering : bool) (annotationPaths : JsMap HitTestEntry)
    (hover : HoverState) (events : list MouseEvent) : M HoverState :=
  match events with
  | [] => ret hover
  | event :: rest =>
      let* hover' :=
        handleCanvasMouseMove env r disableFallbackRendering annotationPaths
          hover event in
      handleMoves env r disableFallbackRendering annotationPaths hover' rest
  end.

(** *** Runs that overlap

    [handleCanvasMouseMove] is asynchronous.  A run that redraws is
    suspended at [await drawHoverEffect(...)] for as long as the promise of
    the provider's [render] is pending, and the browser dispatches the next
    pointer event in between; the writes to [previousHoverState] and
    [previousHoveredAnnotation] and to the cursor come after the [await].
    [handleCanvasMouseMove_begin] is a run up to that point (with what
    [drawHoverEffect] does before its promise settles: all of its effects,
    for a [render] that draws at once and settles late), and
    [handleCanvasMouseMove_resume] is the rest, given the hover state as it
    is by then. *)

Definition get_world : M W := fun st => (Ok (world st), st).

Definition handleCanvasMouseMove_begin (env : Env) (r : Registry)
    (disableFallbackRendering : bool) (annotationPaths : JsMap HitTestEntry)
    (hover : HoverState) (event : MouseEvent) : M Continuation :=
  match canvasRef env, overlayCanvasRef env with
  | Some canvas, Some true =>
      let scaleX := (canvas_width canvas / bounds_width canvas)%float in
      let scaleY := (canvas_height canvas / bounds_height canvas)%float in
      let x := ((clientX event - bounds_left canvas) * scaleX)%float in
      let y := ((clientY event - bounds_top canvas) * scaleY)%float in
      let isOverAnnotation := handleAnnotationHover isPointInPath annotationPaths x y in
      let currentAnnotation :=
        if isOverAnnotation
        then getAnnotationAtPoint isPointInPath annotationPaths x y
        else None in
      let annotationChanged :=
        differs (previousHoveredAnnotation hover) currentAnnotation in
      let hoverStateChanged :=
        negb (Bool.eqb (previousHoverState hover) isOverAnnotation) in
      if hoverStateChanged || annotationChanged then
        emit CanvasClearRect ;;;
        (if negb isOverAnnotation then clearHtmlOverlays env
         else if annotationChanged then clearHtmlOverlays env
         else ret tt) ;;;
        (if isOverAnnotation then
           let baseScale := (devicePixelRatio env * 96 / 72)%float in
           let effectiveDpi := (baseScale * 72 * 1)%float in
           drawHoverEffect env r disableFallbackRendering annotationPaths
             x y effectiveDpi
         else ret tt) ;;;
        ret {| awaited := isOverAnnotation;
               write_hover := Some {| previousHoverState := isOverAnnotation;
                                      previousHoveredAnnotation := currentAnnotation |};
               set_cursor := Some isOverAnnotation |}
      else
        ret {| awaited := false; write_hover := None;
               set_cursor := Some isOverAnnotation |}
  | _, _ => ret {| awaited := false; write_hover := None; set_cursor := None |}
  end.

Definition handleCanvasMouseMove_resume (k : Continuation) (hover : HoverState)
    : M HoverState :=
  (match set_cursor k with
   | Some pointer => emit (CursorSet pointer)
   | None => ret tt
   end) ;;;
  ret (match write_hover k with
       | Some hover' => hover'
       | None => hover
       end).

(** Whether a promise that a provider's [render] has returned is still
    pending when the next pointer event is dispatched: the timing of the
    event loop, read off the world the providers act on. *)
Variable promisePending : W -> bool.

Fixpoint resumeAll (suspended : list Continuation) (hover : HoverState)
    : M HoverState :=
  match suspended with
  | [] => ret hover
  | k :: rest =>
      let* hover' := handleCanvasMouseMove_resume k hover in
      resumeAll rest hover'
  end.

(** A burst of pointer moves: a run that awaits a pending promise stays
    suspended while the later events of the burst are handled, and the
    suspended runs resume, in their order, when the burst is over; any other
    run completes before the next event. *)
Fixpoint handleMoves_burst (env : Env) (r : Registry)
    (disableFallbackRendering : bool) (annotationPaths : JsMap HitTestEntry)
    (hover : HoverState) (suspended : list Continuation)
    (events : list MouseEvent) : M HoverState :=
  match events with
  | [] => resumeAll suspended hover
  | event :: rest =>
      let* k :=
        handleCanvasMouseMove_begin env r disableFallbackRendering annotationPaths
          hover event in
      let* w := get_world in
      if awaited k && promisePending w then
        handleMoves_burst env r disableFallbackRendering annotationPaths hover
          (suspended ++ [k]) rest
      else
        let* hover' := handleCanvasMouseMove_resume k hover in
        handleMoves_burst env r disableFallbackRendering annotationPaths hover'
          suspended rest
  end.

End Engine.

(** ** The earlier revision of the composable
    ([composables/usePdfAnnotations.ts]): providers carry a priority, and
    there is no activation *)

Module Legacy.

Section Legacy.

Context {W : Type}.

Record AnnotationProvider := {
  id : string;
  name : string;
  description : option string;
  canHandle : OverlayAnnotation -> result bool;
  render : AnnotationRenderContext -> W -> Completion * W;
  priority : option Z
}.

Record AnnotationProviderOptions := {
  opt_id : string;
  opt_name : string;
  opt_description : option string;
  opt_canHandle : OverlayAnnotation -> result bool;
  opt_render : AnnotationRenderContext -> W -> Completion * W;
  opt_priority : option Z
}.

Variable paintDefaultText : AnnotationRenderContext -> W -> Completion * W.

Definition defaultProvider : AnnotationProvider :=
  {| id := "default";
     name := "Default Text Renderer";
     description := Some "Built-in text rendering for annotations";
     canHandle := fun _ => Ok true;
     priority := Some 0%Z;
     render := drawDefaultAnnotationText paintDefaultText |}.

(** [p.priority || 0] *)
Definition priority_or_0 (p : AnnotationProvider) : Z := default 0%Z (priority p).

Definition registerAnnotationProvider (options : AnnotationProviderOptions)
    (annotationProviders : JsMap AnnotationProvider) : JsMap AnnotationProvider :=
  let provider :=
    {| id := opt_id options;
       name := opt_name options;
       description := opt_description options;
       canHandle := opt_canHandle options;
       render := opt_render options;
       priority := Some (default 0%Z (opt_priority options)) |} in
  Map_set (id provider) provider annotationProviders.

Definition unregisterAnnotationProvider (id' : string)
    (annotationProviders : JsMap AnnotationProvider)
    : JsMap AnnotationProvider * list Event :=
  if String.eqb id' "default" then
    (annotationProviders,
     [ConsoleWarn "Cannot unregister the default annotation provider"])
  else
    let removed := Map_has id' annotationProviders in
    if removed then (Map_delete id' annotationProviders, [])
    else (Map_delete id' annotationProviders,
          [ConsoleWarn ("Annotation provider not found: " +:+ id')]).

(** [Array.prototype.sort] with the comparator
    [(a, b) => (b.priority || 0) - (a.priority || 0)]: the sort is stable, so
    the result is the list in descending priority with equal priorities in
    their original order.  Computed by insertion. *)
Fixpoint sort_insert (p : AnnotationProvider) (sorted : list AnnotationProvider)
    : list AnnotationProvider :=
  match sorted with
  | [] => [p]
  | q :: rest =>
      if (priority_or_0 q <? priority_or_0 p)%Z then p :: q :: rest
      else q :: sort_insert p rest
  end.

Definition Array_sort (providers : list AnnotationProvider) : list AnnotationProvider :=
  fold_left (fun sorted p => sort_insert p sorted) providers [].

Definition getAllProviders (annotationProviders : JsMap AnnotationProvider)
    : list AnnotationProvider :=
  Array_sort (Map_values annotationProviders).

Fixpoint findProvider_loop (annotation : OverlayAnnotation)
    (providers : list AnnotationProvider) : result AnnotationProvider :=
  match providers with
  | [] => Ok defaultProvider
  | provider :: rest =>
      match canHandle provider annotation with
      | Ok true => Ok provider
      | Ok false => findProvider_loop annotation rest
      | Thrown e => Thrown e
      end
  end.

Definition findProviderForAnnotation (annotationProviders : JsMap AnnotationProvider)
    (annotation : OverlayAnnotation) : result AnnotationProvider :=
  findProvider_loop annotation (getAllProviders annotationProviders).

End Legacy.

End Legacy.

(** ** Text wrapping of the default renderer ([wrapText]) *)

Definition nonempty (s : string) : bool :=
  match s with EmptyString => false | String _ _ => true end.

(** [text.split(' ')] *)
Fixpoint split_spaces (s : string) : list string :=
  match s with
  | EmptyString => [EmptyString]
  | String c s' =>
      if Ascii.eqb c " " then EmptyString :: split_spaces s'
      else match split_spaces s' with
           | w :: ws => String c w :: ws
           | [] => [String c EmptyString]
           end
  end.

Section WrapText.

(** [ctx.measureText(s).width] at the font the context holds *)
Variable measureText : string -> float.

Fixpoint wrapText_loop (words : list string) (maxWidth : float)
    (lines : list string) (currentLine : string) : list string * string :=
  match words with
  | [] => (lines, currentLine)
  | word :: rest =>
      let testLine :=
        if nonempty currentLine then currentLine +:+ " " +:+ word else word in
      if (maxWidth <? measureText testLine)%float && nonempty currentLine
      then wrapText_loop rest maxWidth (lines ++ [currentLine]) word
      else wrapText_loop rest maxWidth lines testLine
  end.

Definition wrapText (text : string) (maxWidth : float) : list string :=
  let '(lines, currentLine) := wrapText_loop (split_spaces text) maxWidth [] "" in
  if nonempty currentLine then lines ++ [currentLine] else lines.

End WrapText.

(** ** Pages and zoom of the viewer ([usePdf]) *)

(** 1.2 is the double 0x1.3333333333333p+0 *)
Definition one_point_two : float := 0x1.3333333333333p+0%float.

Record PdfState := {
  pdfDocument : bool;
  currentPage : float;
  totalPages : float;
  zoom : float
}.

(** Each function returns the new state and the pages handed to
    [displayPage], in order. *)
Definition goToPage (page' : float) (s : PdfState) : PdfState * list float :=
  if negb (pdfDocument s) then (s, [])
  else if (page' <? 0)%float || (totalPages s <=? page')%float then (s, [])
  else ({| pdfDocument := pdfDocument s; currentPage := page';
           totalPages := totalPages s; zoom := zoom s |}, [page']).

Definition nextPage (s : PdfState) : PdfState * list float :=
  goToPage (currentPage s + 1)%float s.

Definition prevPage (s : PdfState) : PdfState * list float :=
  goToPage (currentPage s - 1)%float s.

(** 0.3 is the double 0x1.3333333333333p-2 *)
Definition zero_point_three : float := 0x1.3333333333333p-2%float.

Definition zoomIn (s : PdfState) : PdfState * list float :=
  let s' := {| pdfDocument := pdfDocument s; currentPage := currentPage s;
               totalPages := totalPages s;
               zoom := Math_min2 (zoom s * one_point_two)%float 3 |} in
  (s', if pdfDocument s' then [currentPage s'] else []).

Definition zoomOut (s : PdfState) : PdfState * list float :=
  let s' := {| pdfDocument := pdfDocument s; currentPage := currentPage s;
               totalPages := totalPages s;
               zoom := Math_max2 (zoom s / one_point_two)%float zero_point_three |} in
  (s', if pdfDocument s' then [currentPage s'] else []).

(** ** Leaving the canvas ([usePdf]) *)

Section Pointer.

Context {W : Type}.



End Pointer.

(** ** Render dispatch of the earlier revision *)

Module LegacyDispatch.

Section LegacyDispatch.

Context {W : Type}.
Variable paintDefaultText : AnnotationRenderContext -> W -> Completion * W.

Definition call_render (provider : @Legacy.AnnotationProvider W)
    (context : AnnotationRenderContext) : @M W unit :=
  fun st =>
    let '(c, w) := Legacy.render provider context (world st) in
    let st' := {| world := w; overlays := overlays st;
                  trace := trace st ++ [RenderCall (Legacy.id provider)] |} in
    match c with
    | Normal => (Ok tt, st')
    | Throws e => (Thrown e, st')
    end.

Definition drawAnnotationText (annotationProviders : JsMap (@Legacy.AnnotationProvider W))
    (annotation : OverlayAnnotation) (effectiveDpi : float) (pageNumber : Z)
    : @M W unit :=
  if blank (content annotation) then ret tt
  else
    let points := convertCoordinates (rect annotation) effectiveDpi in
    if (length points <? 3)%nat then ret tt
    else
      let context := renderContext annotation effectiveDpi pageNumber in
      if (width (ctx_rect context) <=? 0)%float
         || (height (ctx_rect context) <=? 0)%float then ret tt
      else
        bind (of_result
                (Legacy.findProviderForAnnotation paintDefaultText annotationProviders
                   annotation))
          (fun provider =>
        try_catch (call_render provider context)
          (fun _ =>
             bind (emit (ConsoleWarn ("Error rendering annotation with provider "
                                      +:+ Legacy.id provider +:+ ":")))
               (fun _ =>
                  if negb (String.eqb (Legacy.id provider) "default") then
                    try_catch
                      (call_render (Legacy.defaultProvider paintDefaultText) context)
                      (fun _ => emit (ConsoleError "Default provider also failed:"))
                  else ret tt))).

End LegacyDispatch.

End LegacyDispatch.

(* ================================================================== *)
(** * Part II: the vocabulary of the properties                        *)
(* ================================================================== *)

(** ** Coordinates and the index *)

(** The pairs the loop still has to produce from index [i] on. *)
Fixpoint pairs_from (rect : list float) (d : float) (i n : nat) : list Point :=
  match n with
  | O => []
  | S n' =>
      ((js_index rect (Z.of_nat i) * d)%float,
       (js_index rect (Z.of_nat i + 1) * d)%float) :: pairs_from rect d (i + 2) n'
  end.

Definition entry_of (effectiveDpi : float) (a : OverlayAnnotation) : HitTestEntry :=
  {| entry_path := createAnnotationPath (rect a) effectiveDpi;
     entry_annotation := a |}.

(** What [drawAnnotations_loop] leaves under key [k]: the entry of the last
    annotation with that key, if any. *)
Definition stored_under (effectiveDpi : float) (k : string)
    (found : option HitTestEntry) (a : OverlayAnnotation) : option HitTestEntry :=
  if String.eqb (annotationKey a) k then Some (entry_of effectiveDpi a) else found.

(** Every entry of the index sits under the key of its own annotation, and
    no key occurs twice: what [drawAnnotations] builds. *)
Definition index_wf (annotationPaths : JsMap HitTestEntry) : Prop :=
  NoDup (Map_keys annotationPaths)
  /\ forall k e, In (k, e) annotationPaths -> k = annotationKey (entry_annotation e).

(** ** Strings *)

(** What lowercasing followed by the replacement does to one code unit. *)
Definition slug_char (c : ascii) : ascii :=
  if in_range 65 90 c then ascii_of_nat (code c + 32)
  else if is_lower_alnum c then c
  else "-"%char.

(** ** Hover *)

Definition is_hit (h : option OverlayAnnotation) : bool :=
  match h with Some _ => true | None => false end.

(** The hover state records [h] as the annotation under the pointer. *)
Definition tracks (hover : HoverState) (h : option OverlayAnnotation) : Prop :=
  previousHoverState hover = is_hit h
  /\ differs (previousHoveredAnnotation hover) h = false.

(** The two flags of the hover state agree, as they do initially and after
    every handled event. *)
Definition consistent (hover : HoverState) : Prop :=
  previousHoverState hover = is_hit (previousHoveredAnnotation hover).

(** Events a provider-based or HTML rendering of one annotation produces. *)
Definition dispatch_event (ev : Event) : Prop :=
  match ev with
  | RenderCall _ | ConsoleWarn _ | ConsoleError _ | OverlayAppended _ => True
  | _ => False
  end.

(** ** Computations, resolution policy, handler effects *)

(** The first element that a test accepts, going through the list for as
    long as the test answers; a test that throws ends the search. *)
Fixpoint first_accepting {A : Type} (test : A -> result bool) (l : list A)
    : result (option A) :=
  match l with
  | [] => Ok None
  | x :: l' =>
      match test x with
      | Ok true => Ok (Some x)
      | Ok false => first_accepting test l'
      | Thrown e => Thrown e
      end
  end.

(** The test answers, with [true]. *)
Definition says_yes {A : Type} (test : A -> result bool) (x : A) : bool :=
  match test x with Ok true => true | _ => false end.

Section Vocabulary.

Context {W : Type}.
Variable paintDefaultText : AnnotationRenderContext -> W -> Completion * W.
Variable isPointInPath : Path2D -> float -> float -> bool.

(** The id and the name of the provider a resolution ends with, if it ends
    with one. *)
Definition resolved_id (x : result (@AnnotationProvider W)) : option string :=
  match x with Ok p => Some (id p) | Thrown _ => None end.

Definition resolved_name (x : result (@AnnotationProvider W)) : option string :=
  match x with Ok p => Some (name p) | Thrown _ => None end.

Abbreviation M := (@M W).
Abbreviation St := (@St W).
Abbreviation Registry := (@Registry W).
Abbreviation AnnotationProvider := (@AnnotationProvider W).

(** The computation ends normally from every state. *)
Definition returns {A : Type} (c : M A) : Prop :=
  forall st, exists a st', c st = (Ok a, st').

(** Whatever the computation does, it only appends events, all of kind [P]. *)
Definition emits (P : Event -> Prop) {A : Type} (c : M A) : Prop :=
  forall st res st', c st = (res, st') ->
    exists evs, trace st' = trace st ++ evs /\ Forall P evs.

(** The id a registration is stored under. *)
Definition registered_id (options : @AnnotationProviderOptions W) : string :=
  or_else (opt_id options) (replace_non_alnum (toLowerCase (opt_name options))).

(** The providers resolution looks at: registered, not ['default'], active. *)
Definition eligible (r : Registry) (p : AnnotationProvider) : bool :=
  negb (String.eqb (id p) "default") && isProviderActive (id p) r.

(** The resolution policy in the specification's words: the active
    providers other than ['default'], in priority order (higher first) with
    ties in registration order; the first that can handle the annotation,
    else ['default']. *)
Fixpoint insert_by_priority (priority : AnnotationProvider -> Z)
    (p : AnnotationProvider) (sorted : list AnnotationProvider)
    : list AnnotationProvider :=
  match sorted with
  | [] => [p]
  | q :: rest =>
      if (priority q <? priority p)%Z then p :: q :: rest
      else q :: insert_by_priority priority p rest
  end.

Definition priority_order (priority : AnnotationProvider -> Z)
    (providers : list AnnotationProvider) : list AnnotationProvider :=
  fold_left (fun sorted p => insert_by_priority priority p sorted) providers [].

Definition resolve_spec (priority : AnnotationProvider -> Z) (r : Registry)
    (annotation : OverlayAnnotation) : result AnnotationProvider :=
  let candidates := List.filter (eligible r) (getAllProviders r) in
  match first_accepting (fun p => canHandle p annotation)
          (priority_order priority candidates) with
  | Ok (Some p) => Ok p
  | Ok None => Ok (defaultProvider paintDefaultText)
  | Thrown e => Thrown e
  end.

(** What the render entry point does with the provider it has resolved:
    the call, and the fallback when the call throws. *)
Definition render_with_fallback (disableFallbackRendering : bool)
    (provider : AnnotationProvider) (context : AnnotationRenderContext) : M unit :=
  try_catch (call_render provider context)
    (fun _ =>
       bind (emit (ConsoleWarn ("Error rendering annotation with provider "
                                +:+ id provider +:+ ":")))
         (fun _ =>
            if negb (String.eqb (id provider) "default")
               && negb disableFallbackRendering
            then
              try_catch (call_render (defaultProvider paintDefaultText) context)
                (fun _ => emit (ConsoleError "Default provider also failed:"))
            else ret tt)).

Definition add_events (st : St) (evs : list Event) : St :=
  {| world := world st; overlays := overlays st; trace := trace st ++ evs |}.

(** What that leaves behind, from a canvas [w]: the canvas and the events.
    The resolved provider is called once; the default provider is called
    once more when that call throws, the provider is not ['default'] and
    fallback is not disabled. *)
Definition render_outcome (disableFallbackRendering : bool)
    (provider : AnnotationProvider) (context : AnnotationRenderContext) (w : W)
    : W * list Event :=
  match render provider context w with
  | (Normal, w1) => (w1, [RenderCall (id provider)])
  | (Throws _, w1) =>
      let warned :=
        [RenderCall (id provider);
         ConsoleWarn ("Error rendering annotation with provider "
                      +:+ id provider +:+ ":")] in
      if negb (String.eqb (id provider) "default") && negb disableFallbackRendering
      then
        match render (defaultProvider paintDefaultText) context w1 with
        | (Normal, w2) => (w2, warned ++ [RenderCall "default"])
        | (Throws _, w2) =>
            (w2, warned ++ [RenderCall "default";
                            ConsoleError "Default provider also failed:"])
        end
      else (w1, warned)
  end.

(** Both canvases are there and the overlay canvas has a 2D context. *)
Definition ready (env : Env) : bool :=
  match canvasRef env, overlayCanvasRef env with
  | Some _, Some true => true
  | _, _ => false
  end.

(** The annotation under the pointer of an event. *)
Definition hit (env : Env) (annotationPaths : JsMap HitTestEntry)
    (event : MouseEvent) : option OverlayAnnotation :=
  match canvasRef env with
  | Some canvas =>
      let scaleX := (canvas_width canvas / bounds_width canvas)%float in
      let scaleY := (canvas_height canvas / bounds_height canvas)%float in
      let x := ((clientX event - bounds_left canvas) * scaleX)%float in
      let y := ((clientY event - bounds_top canvas) * scaleY)%float in
      getAnnotationAtPoint isPointInPath annotationPaths x y
  | None => None
  end.

Definition cursor_events (env : Env) (h : option OverlayAnnotation) (n : nat)
    : list Event :=
  if ready env then repeat (CursorSet (is_hit h)) n else [].

(** Clearing the highlight and the HTML overlays. *)
Definition teardown (env : Env) (st : St) : St :=
  {| world := world st;
     overlays := if htmlOverlayContainer env then [] else overlays st;
     trace := trace st
              ++ CanvasClearRect
                 :: (if htmlOverlayContainer env
                     then [OverlaysCleared (length (overlays st))] else []) |}.

(** The effective DPI the handler renders the hovered annotation at. *)
Definition hoverDpi (env : Env) : float :=
  (devicePixelRatio env * 96 / 72 * 72 * 1)%float.

(** The annotation passes the guards of the render entry point: content
    that is not blank, three points or more, and a bounding box whose width
    and height are not [<= 0]. *)
Definition renderable (a : OverlayAnnotation) (effectiveDpi : float) : bool :=
  negb (blank (content a))
  && (3 <=? length (convertCoordinates (rect a) effectiveDpi))%nat
  && negb (width (boundingBox (convertCoordinates (rect a) effectiveDpi)) <=? 0)%float
  && negb (height (boundingBox (convertCoordinates (rect a) effectiveDpi)) <=? 0)%float.

(** What the hover effect does after the highlight: it calls the render
    entry point for the annotation and logs what that throws. *)
Definition hover_render (measureHtml : string -> float -> float * float)
    (env : Env) (r : Registry) (disableFallbackRendering : bool)
    (a : OverlayAnnotation) : M unit :=
  try_catch
    (drawAnnotationText paintDefaultText measureHtml env r disableFallbackRendering
       a (hoverDpi env) 0)
    (fun _ => emit (ConsoleWarn "Error drawing annotation text:")).

End Vocabulary.

(** ** Concrete scenarios *)

Definition unit_square : list float := [0; 0; 1; 0; 1; 1; 0; 1]%float.

Definition square_annotation : OverlayAnnotation :=
  {| obj := 1; page := "1"; content := "cell"; rect := unit_square;
     line := 7; type := None |}.

Definition square_index : JsMap HitTestEntry :=
  fst (drawAnnotations [square_annotation] 0 96).


(** A world without content, a painter that succeeds, a fixed layout. *)
Definition paint0 (context : AnnotationRenderContext) (w : unit) : Completion * unit :=
  (Normal, w).

Definition measure0 (html : string) (fontSize : float) : float * float :=
  (40, 12)%float.

Definition canvas0 : CanvasElement :=
  {| canvas_width := 800; canvas_height := 600;
     bounds_left := 0; bounds_top := 0;
     bounds_width := 800; bounds_height := 600 |}.

Definition env0 : Env :=
  {| canvasRef := Some canvas0;
     overlayCanvasRef := Some true;
     htmlOverlayContainer := true;
     htmlAnnotation := None;
     devicePixelRatio := 1;
     querySelector := plain_querySelector |}.

Definition st0 : @St unit := {| world := tt; overlays := []; trace := [] |}.

(** The registry of a fresh viewer instance. *)
Definition registry0 : @Registry unit := usePdfAnnotations paint0 globalRegistry.

Definition accepting (name' : string) (outcome : Completion)
    : @AnnotationProviderOptions unit :=
  {| opt_id := None;
     opt_name := name';
     opt_description := None;
     opt_canHandle := fun _ => Ok true;
     opt_render := fun _ w => (outcome, w) |}.

Definition registry_highlight : @Registry unit :=
  registerAnnotationProvider (accepting "Highlight" Normal) registry0.

Definition registry_two : @Registry unit :=
  registerAnnotationProvider (accepting "second" Normal)
    (registerAnnotationProvider (accepting "first" Normal) registry0).

(** Priorities as a caller would give them: 5 to the provider registered
    first, 15 to the one registered second. *)
Definition priority_two (p : @AnnotationProvider unit) : Z :=
  if String.eqb (id p) "second" then 15
  else if String.eqb (id p) "first" then 5
  else 0.

Definition registry_throwing : @Registry unit :=
  registerAnnotationProvider (accepting "Throwing Provider" (Throws "boom")) registry0.

(** A provider whose [canHandle] throws. *)
Definition picky : @AnnotationProviderOptions unit :=
  {| opt_id := None;
     opt_name := "Picky";
     opt_description := None;
     opt_canHandle := fun _ => Thrown "cannot decide";
     opt_render := fun _ w => (Normal, w) |}.

Definition registry_picky : @Registry unit :=
  registerAnnotationProvider picky registry0.

(** A provider registered under the name [Default], whose [render] throws. *)
Definition registry_named_default : @Registry unit :=
  registerAnnotationProvider (accepting "Default" (Throws "boom")) registry0.

(** A world that records whether a promise of a provider is pending, and
    a provider whose [render] draws at once and returns a promise that
    settles late. *)
Definition paint1 (context : AnnotationRenderContext) (w : bool) : Completion * bool :=
  (Normal, w).

Definition slow : @AnnotationProviderOptions bool :=
  {| opt_id := None;
     opt_name := "Slow";
     opt_description := None;
     opt_canHandle := fun _ => Ok true;
     opt_render := fun _ _ => (Normal, true) |}.

Definition registry_slow : @Registry bool :=
  registerAnnotationProvider slow (usePdfAnnotations paint1 globalRegistry).

Definition st1 : @St bool := {| world := false; overlays := []; trace := [] |}.

Definition hover_on_square : HoverState :=
  {| previousHoverState := true; previousHoveredAnnotation := Some square_annotation |}.

Definition inside : MouseEvent := {| clientX := 48; clientY := 48 |}.

Definition outside : MouseEvent := {| clientX := 200; clientY := 200 |}.

Definition legacy_accepting (id' : string) (priority' : Z)
    : @Legacy.AnnotationProviderOptions unit :=
  {| Legacy.opt_id := id';
     Legacy.opt_name := id';
     Legacy.opt_description := None;
     Legacy.opt_canHandle := fun _ => Ok true;
     Legacy.opt_render := fun _ w => (Normal, w);
     Legacy.opt_priority := Some priority' |}.

Definition legacy_two : JsMap (@Legacy.AnnotationProvider unit) :=
  Legacy.registerAnnotationProvider (legacy_accepting "second" 15)
    (Legacy.registerAnnotationProvider (legacy_accepting "first" 5) []).

(** A viewer whose [htmlAnnotation] callback wraps the content in bold
    tags. *)
Definition bold_html (context : AnnotationRenderContext) (a : OverlayAnnotation)
    : result string :=
  Ok ("<b>" +:+ content a +:+ "</b>").

Definition env_html : Env :=
  {| canvasRef := Some canvas0;
     overlayCanvasRef := Some true;
     htmlOverlayContainer := true;
     htmlAnnotation := Some bold_html;
     devicePixelRatio := 1;
     querySelector := plain_querySelector |}.

(** A loaded document of three pages, showing the first. *)
Definition viewer3 : PdfState :=
  {| pdfDocument := true; currentPage := 0; totalPages := 3; zoom := 1 |}.

(** An annotation whose [rect] lost its last entry. *)
Definition truncated_annotation : OverlayAnnotation :=
  {| obj := 3; page := "1"; content := "cut"; rect := [0; 0; 1; 0; 1; 1; 0]%float;
     line := 11; type := None |}.

(** ** The polygon of a point list *)

(** A closed polygon through the points: move to the first, lines to the
    others. *)
Definition polygon_path (points : list Point) : Path2D :=
  match points with
  | [] => [ClosePath]
  | (x, y) :: rest => MoveTo x y :: map (fun p => LineTo (fst p) (snd p)) rest ++ [ClosePath]
  end.

Definition flatten_points (points : list Point) : list float :=
  flat_map (fun p => [fst p; snd p]) points.

(** ** Histories of the registry *)

Section RegistryVocabulary.

Context {W : Type}.
Variable paintDefaultText : AnnotationRenderContext -> W -> Completion * W.

(** The functions of the composable that write to the registry:
    creating a viewer instance, registering, unregistering, toggling and
    cleaning up. *)
Inductive RegistryOp :=
| OpInstance
| OpRegister (options : @AnnotationProviderOptions W)
| OpUnregister (id' : string)
| OpToggle (providerId : string)
| OpCleanup.

Definition apply_op (r : @Registry W) (op : RegistryOp) : @Registry W :=
  match op with
  | OpInstance => usePdfAnnotations paintDefaultText r
  | OpRegister options => registerAnnotationProvider options r
  | OpUnregister id' => fst (unregisterAnnotationProvider id' r)
  | OpToggle providerId => fst (toggleProvider providerId r)
  | OpCleanup => cleanupProviders r
  end.

(** The registry after a first viewer instance and a history of calls. *)
Definition run_ops (ops : list RegistryOp) : @Registry W :=
  fold_left apply_op ops (usePdfAnnotations paintDefaultText globalRegistry).

(** Every provider sits under its own id, no id is registered twice, every
    registered id is active, and ['default'] is registered and active. *)
Definition registry_inv (r : @Registry W) : Prop :=
  NoDup (Map_keys (annotationProviders r))
  /\ (forall k p, In (k, p) (annotationProviders r) -> id p = k)
  /\ (forall k, In k (Map_keys (annotationProviders r)) -> k ∈ activeProviders r)
  /\ Map_has "default" (annotationProviders r) = true
  /\ "default" ∈ activeProviders r.

End RegistryVocabulary.

(** ** HTML overlays *)

(** The [data-annotation-id] of the overlay of an annotation. *)
Definition overlayId (a : OverlayAnnotation) : string :=
  page a +:+ "-" +:+ pretty (line a).

Definition has_overlay (annotationId : string) (os : list OverlayElement) : bool :=
  existsb (fun o => String.eqb (data_annotation_id o) annotationId) os.

(** The viewer created without an [htmlAnnotation] callback. *)
Definition without_htmlAnnotation (env : Env) : Env :=
  {| canvasRef := canvasRef env;
     overlayCanvasRef := overlayCanvasRef env;
     htmlOverlayContainer := htmlOverlayContainer env;
     htmlAnnotation := None;
     devicePixelRatio := devicePixelRatio env;
     querySelector := querySelector env |}.

Section OverlayVocabulary.

Context {W : Type}.

(** The computation leaves the overlay container as it is. *)
Definition keeps_overlays {A : Type} (c : @M W A) : Prop :=
  forall st res st', c st = (res, st') -> overlays st' = overlays st.

(** The computation leaves the container as it is or appends one overlay,
    for annotation id [annotationId]. *)
Definition adds_overlay (annotationId : string) {A : Type} (c : @M W A) : Prop :=
  forall st res st', c st = (res, st') ->
    overlays st' = overlays st
    \/ exists o, overlays st' = overlays st ++ [o]
                 /\ data_annotation_id o = annotationId.

End OverlayVocabulary.

(** ** The order of binary64 values *)

(** A key whose lexicographic order is the order of the values that are
    not [NaN]: sign class, then exponent, then mantissa. *)
Definition sf_rank (f : spec_float) : Z * Z * Z :=
  match f with
  | S754_nan => (0, 0, 0)%Z
  | S754_infinity true => (-2, 0, 0)%Z
  | S754_infinity false => (2, 0, 0)%Z
  | S754_zero _ => (0, 0, 0)%Z
  | S754_finite true m e => (-1, - e, Z.neg m)%Z
  | S754_finite false m e => (1, e, Z.pos m)%Z
  end.

Definition lex_compare (a b : Z * Z * Z) : comparison :=
  match (fst (fst a) ?= fst (fst b))%Z with
  | Eq =>
      match (snd (fst a) ?= snd (fst b))%Z with
      | Eq => (snd a ?= snd b)%Z
      | c => c
      end
  | c => c
  end.

(** ** Composition of the transform *)

(** The transform on flat coordinate lists: [convertCoordinates], and the
    pairs written out again as a flat list. *)
Definition transform (P : list float) (z : float) : list float :=
  flatten_points (convertCoordinates P z).

(** A magnitude between [2^-300] and [2^300]. *)
Definition moderate (v : float) : bool :=
  (0x1p-300 <=? abs v)%float && (abs v <=? 0x1p300)%float.

Definition zero_or_moderate (v : float) : bool := (v =? 0)%float || moderate v.

(** The finite value [(-1)^s m 2^e] as a multiple of [2^e0]. *)
Definition aligned (s : bool) (m : positive) (e e0 : Z) : Z :=
  cond_Zopp s (Zpos m * 2 ^ (e - e0))%Z.

(** [a] is [b] up to a relative error of [2^-50]: both are zero, or both
    are finite and [|a - b| <= 2^-50 |b|], computed exactly on the
    mantissas aligned to the smaller exponent. *)
Definition within_tolerance (a b : float) : bool :=
  match Prim2SF a, Prim2SF b with
  | S754_zero _, S754_zero _ => true
  | S754_finite sa ma ea, S754_finite sb mb eb =>
      let e0 := Z.min ea eb in
      (2 ^ 50 * Z.abs (aligned sa ma ea e0 - aligned sb mb eb e0)
       <=? Z.abs (aligned sb mb eb e0))%Z
  | _, _ => false
  end.

Fixpoint all_within_tolerance (l1 l2 : list float) : bool :=
  match l1, l2 with
  | [], [] => true
  | a :: l1', b :: l2' => within_tolerance a b && all_within_tolerance l1' l2'
  | _, _ => false
  end.

(** A page value the range check of [goToPage] lets through when it is a
    number. *)
Definition page_in_range (s : PdfState) (page' : float) : bool :=
  (0 <=? page')%float && (page' <? totalPages s)%float.

Definition with_page (s : PdfState) (page' : float) : PdfState :=
  {| pdfDocument := pdfDocument s; currentPage := page';
     totalPages := totalPages s; zoom := zoom s |}.

(** ** Words *)

Fixpoint has_space (s : string) : bool :=
  match s with
  | EmptyString => false
  | String c s' => Ascii.eqb c " " || has_space s'
  end.

(** The words of a line: what lies between its spaces, without the empty
    strings that consecutive spaces produce. *)
Definition words_of (s : string) : list string :=
  List.filter nonempty (split_spaces s).

(** A line the wrapping may produce: not empty, and either it fits or it is
    a single word of the text. *)
Definition wrapped_line (measureText : string -> float) (text : string)
    (maxWidth : float) (line' : string) : Prop :=
  nonempty line' = true
  /\ ((maxWidth <? measureText line')%float = false \/ In line' (split_spaces text)).

(* ================================================================== *)
(** * Part III: properties                                             *)
(* ================================================================== *)

(** ** Coordinate conversion *)

Lemma div2_step (n i : nat) :
  (i < n)%nat -> Nat.div2 (S (n - i)) = S (Nat.div2 (S (n - (i + 2)))).
Proof.
  intros Hi.
  destruct (Nat.eq_dec (n - i) 1) as [E | E].
  - rewrite E. replace (n - (i + 2))%nat with 0%nat by lia. reflexivity.
  - replace (n - i)%nat with (S (S (n - (i + 2)))) by lia. reflexivity.
Qed.

Lemma convertCoordinates_loop_spec (rect : list float) (d : float) :
  forall fuel i acc,
    (length rect <= i + 2 * fuel)%nat ->
    convertCoordinates_loop fuel rect d i acc
    = acc ++ pairs_from rect d i (Nat.div2 (S (length rect - i))).
Proof.
  induction fuel as [| fuel IH]; intros i acc Hfuel; cbn [convertCoordinates_loop].
  - replace (length rect - i)%nat with 0%nat by lia. simpl. now rewrite app_nil_r.
  - destruct (Nat.ltb_spec i (length rect)) as [Hlt | Hge].
    + rewrite IH by lia. rewrite (div2_step _ _ Hlt).
      cbn [pairs_from]. now rewrite <- app_assoc.
    + replace (length rect - i)%nat with 0%nat by lia. simpl. now rewrite app_nil_r.
Qed.

Lemma pairs_from_length rect d i n : length (pairs_from rect d i n) = n.
Proof. revert i. induction n; intros i; simpl; [reflexivity | now rewrite IHn]. Qed.

Lemma pairs_from_lookup rect d : forall n i k,
  (k < n)%nat ->
  pairs_from rect d i n !! k
  = Some ((js_index rect (Z.of_nat (i + 2 * k)) * d)%float,
          (js_index rect (Z.of_nat (i + 2 * k) + 1) * d)%float).
Proof.
  induction n as [| n IH]; intros i k Hk; [lia |].
  destruct k as [| k]; cbn [pairs_from].
  - replace (i + 2 * 0)%nat with i by lia. reflexivity.
  - rewrite lookup_cons_ne_0 by lia. cbn [pred].
    rewrite IH by lia.
    replace (i + 2 + 2 * k)%nat with (i + 2 * S k)%nat by lia. reflexivity.
Qed.

Lemma convertCoordinates_pairs rect d :
  convertCoordinates rect d = pairs_from rect d 0 (Nat.div2 (S (length rect))).
Proof.
  unfold convertCoordinates. rewrite convertCoordinates_loop_spec by lia.
  now rewrite Nat.sub_0_r.
Qed.

Lemma convertCoordinates_length rect d :
  length (convertCoordinates rect d) = Nat.div2 (S (length rect)).
Proof. rewrite convertCoordinates_pairs. apply pairs_from_length. Qed.

Lemma div2_bound (n k : nat) : (2 * k < n)%nat -> (k < Nat.div2 (S n))%nat.
Proof.
  intros H. rewrite Nat.div2_div.
  apply (Nat.div_le_lower_bound (S n) 2 (S k)); lia.
Qed.

Lemma convertCoordinates_lookup rect d k :
  (2 * k < length rect)%nat ->
  convertCoordinates rect d !! k
  = Some ((js_index rect (Z.of_nat (2 * k)) * d)%float,
          (js_index rect (Z.of_nat (2 * k) + 1) * d)%float).
Proof.
  intros Hk. rewrite convertCoordinates_pairs.
  rewrite pairs_from_lookup by (apply div2_bound; assumption).
  reflexivity.
Qed.

Lemma js_index_Some (l : list float) (i : nat) (x : float) :
  l !! i = Some x -> js_index l (Z.of_nat i) = x.
Proof.
  intros H. unfold js_index.
  destruct (Z.ltb_spec (Z.of_nat i) 0); [lia |].
  now rewrite Nat2Z.id, H.
Qed.

Lemma js_index_None (l : list float) (i : nat) :
  l !! i = None -> js_index l (Z.of_nat i) = nan.
Proof.
  intros H. unfold js_index.
  destruct (Z.ltb_spec (Z.of_nat i) 0); [reflexivity |].
  now rewrite Nat2Z.id, H.
Qed.

(** C4. At a positive effective DPI [d], [convertCoordinates rect d] has one
    pair per two entries of [rect], and its k-th pair is the k-th x and the
    k-th y of [rect], each multiplied by [d] and by nothing else: no
    coordinate of another point, no offset.  (A trailing x without a y, which
    a list of pairs does not have, is paired with [NaN].) *)
Theorem convertCoordinates_uniform_scale (rect : list float) (d : float) :
  (0 <? d)%float = true ->
  length (convertCoordinates rect d) = Nat.div2 (S (length rect))
  /\ (forall k x y,
        rect !! (2 * k)%nat = Some x -> rect !! (2 * k + 1)%nat = Some y ->
        convertCoordinates rect d !! k = Some (x * d, y * d)%float)
  /\ (forall k x,
        rect !! (2 * k)%nat = Some x -> rect !! (2 * k + 1)%nat = None ->
        convertCoordinates rect d !! k = Some (x * d, nan * d)%float).
Proof.
  intros _. split; [apply convertCoordinates_length |].
  split.
  - intros k x y Hx Hy.
    rewrite convertCoordinates_lookup by (apply lookup_lt_Some in Hx; lia).
    rewrite (js_index_Some _ _ _ Hx).
    replace (Z.of_nat (2 * k) + 1)%Z with (Z.of_nat (2 * k + 1)) by lia.
    now rewrite (js_index_Some _ _ _ Hy).
  - intros k x Hx Hy.
    rewrite convertCoordinates_lookup by (apply lookup_lt_Some in Hx; lia).
    rewrite (js_index_Some _ _ _ Hx).
    replace (Z.of_nat (2 * k) + 1)%Z with (Z.of_nat (2 * k + 1)) by lia.
    now rewrite (js_index_None _ _ Hy).
Qed.

Lemma convertCoordinates_uniform_scale_witness :
  length (convertCoordinates unit_square 96) = 4%nat
  /\ convertCoordinates unit_square 96 !! 2%nat = Some (96, 96)%float.
Proof.
  destruct (convertCoordinates_uniform_scale unit_square 96 eq_refl) as (Hlen & Hxy & _).
  split; [exact Hlen | exact (Hxy 2%nat 1%float 1%float eq_refl eq_refl)].
Defined.

Example convertCoordinates_unit_square :
  convertCoordinates unit_square 96 = [(0, 0); (96, 0); (96, 96); (0, 96)]%float.
Proof. reflexivity. Qed.

(** ** Hit testing *)

Section HitTestFacts.

Variable isPointInPath : Path2D -> float -> float -> bool.

Lemma getAnnotationAtPoint_loop_first (entries : list HitTestEntry) (x y : float) :
  forall before e after,
    entries = before ++ e :: after ->
    isPointInPath (entry_path e) x y = true ->
    Forall (fun e' => isPointInPath (entry_path e') x y = false) before ->
    getAnnotationAtPoint_loop isPointInPath entries x y = Some (entry_annotation e).
Proof.
  intros before. revert entries.
  induction before as [| b before IH]; intros entries e after -> He Hbefore; simpl.
  - now rewrite He.
  - inversion Hbefore as [| ? ? Hb Hrest]; subst. rewrite Hb.
    now apply (IH _ e after).
Qed.

Lemma getAnnotationAtPoint_loop_none (entries : list HitTestEntry) (x y : float) :
  Forall (fun e => isPointInPath (entry_path e) x y = false) entries ->
  getAnnotationAtPoint_loop isPointInPath entries x y = None.
Proof.
  induction 1 as [| e entries He _ IH]; simpl; [reflexivity |].
  now rewrite He.
Qed.

(** Every list splits at its first element that satisfies a test. *)
Lemma first_containing (entries : list HitTestEntry) (x y : float) (e : HitTestEntry) :
  In e entries ->
  isPointInPath (entry_path e) x y = true ->
  exists before e1 after,
    entries = before ++ e1 :: after
    /\ isPointInPath (entry_path e1) x y = true
    /\ Forall (fun e' => isPointInPath (entry_path e') x y = false) before.
Proof.
  induction entries as [| a entries IH]; intros Hin He; [destruct Hin |].
  destruct (isPointInPath (entry_path a) x y) eqn:Ha.
  - exists [], a, entries. repeat split; [assumption | constructor].
  - destruct Hin as [-> | Hin]; [congruence |].
    destruct (IH Hin He) as (before & e1 & after & -> & He1 & Hbefore).
    exists (a :: before), e1, after. repeat split; [assumption |].
    now constructor.
Qed.

End HitTestFacts.

(** C6. The hit test scans the stored entries in insertion order: a point
    inside the polygon of a stored entry is answered with the annotation of
    the first entry whose polygon contains it, and a point inside no stored
    polygon with none.  For [rect = [0,0,1,0,1,1,0,1]] at effective DPI 96
    the stored polygon has the corners (0,0), (96,0), (96,96), (0,96); under
    ray casting the point (48,48) hits it and (200,200) misses. *)
Theorem getAnnotationAtPoint_first_containing :
  (forall isPointInPath (annotationPaths : JsMap HitTestEntry) (x y : float) e,
      In e (Map_values annotationPaths) ->
      isPointInPath (entry_path e) x y = true ->
      exists before e1 after,
        Map_values annotationPaths = before ++ e1 :: after
        /\ isPointInPath (entry_path e1) x y = true
        /\ Forall (fun e' => isPointInPath (entry_path e') x y = false) before
        /\ getAnnotationAtPoint isPointInPath annotationPaths x y
           = Some (entry_annotation e1))
  /\ (forall isPointInPath (annotationPaths : JsMap HitTestEntry) (x y : float),
        Forall (fun e => isPointInPath (entry_path e) x y = false)
          (Map_values annotationPaths) ->
        getAnnotationAtPoint isPointInPath annotationPaths x y = None)
  /\ square_index
     = [("annotation-1-7",
         {| entry_path := [MoveTo 0 0; LineTo 96 0; LineTo 96 96; LineTo 0 96;
                           ClosePath];
            entry_annotation := square_annotation |})]
  /\ getAnnotationAtPoint rayCast_isPointInPath square_index 48 48
     = Some square_annotation
  /\ getAnnotationAtPoint rayCast_isPointInPath square_index 200 200 = None.
Proof.
  split; [| split; [| split; [| split]]].
  - intros isPointInPath annotationPaths x y e Hin He.
    destruct (first_containing isPointInPath _ x y e Hin He)
      as (before & e1 & after & Hsplit & He1 & Hbefore).
    exists before, e1, after. repeat split; try assumption.
    unfold getAnnotationAtPoint.
    now apply (getAnnotationAtPoint_loop_first _ _ x y before e1 after).
  - intros isPointInPath annotationPaths x y Hnone.
    now apply getAnnotationAtPoint_loop_none.
  - vm_compute. reflexivity.
  - vm_compute. reflexivity.
  - vm_compute. reflexivity.
Qed.

Lemma getAnnotationAtPoint_first_containing_witness :
  exists e1,
    In e1 (Map_values square_index)
    /\ getAnnotationAtPoint rayCast_isPointInPath square_index 48 48
       = Some (entry_annotation e1).
Proof.
  destruct getAnnotationAtPoint_first_containing as (Hhit & _).
  destruct (Hhit rayCast_isPointInPath square_index 48%float 48%float
              {| entry_path := [MoveTo 0 0; LineTo 96 0; LineTo 96 96; LineTo 0 96;
                                ClosePath];
                 entry_annotation := square_annotation |}
              (or_introl eq_refl) eq_refl)
    as (before & e1 & after & Hsplit & _ & _ & Hres).
  exists e1. split; [| exact Hres].
  rewrite Hsplit. apply in_or_app. right. now left.
Defined.

(** ** Maps *)

Section MapFacts.

Context {V : Type}.

Lemma Map_has_get (k : string) (m : JsMap V) :
  Map_has k m = true <-> exists v, Map_get k m = Some v.
Proof.
  unfold Map_has. destruct (Map_get k m) as [v |].
  - split; [eauto | reflexivity].
  - split; [discriminate | intros [v Hv]; discriminate].
Qed.

Lemma Map_has_keys (k : string) (m : JsMap V) :
  Map_has k m = true <-> In k (Map_keys m).
Proof.
  unfold Map_has. induction m as [| [k' v'] m IH]; simpl.
  - split; [discriminate | tauto].
  - destruct (String.eqb_spec k' k) as [-> | Hne].
    + split; [now left | reflexivity].
    + rewrite IH. split; [now right | intros [E | H]; [contradiction | assumption]].
Qed.

Lemma Map_delete_absent (k : string) (m : JsMap V) :
  Map_has k m = false -> Map_delete k m = m.
Proof.
  unfold Map_has. induction m as [| [k' v'] m IH]; simpl; [reflexivity |].
  destruct (String.eqb k' k); [discriminate |].
  intros H. now rewrite IH.
Qed.

Lemma Map_get_delete (k : string) (m : JsMap V) : Map_get k (Map_delete k m) = None.
Proof.
  induction m as [| [k' v'] m IH]; simpl; [reflexivity |].
  destruct (String.eqb k' k) eqn:E; [assumption |].
  simpl. now rewrite E.
Qed.

Lemma Map_get_delete_other (k k0 : string) (m : JsMap V) :
  k0 <> k -> Map_get k0 (Map_delete k m) = Map_get k0 m.
Proof.
  intros Hne. induction m as [| [k' v'] m IH]; simpl; [reflexivity |].
  destruct (String.eqb_spec k' k) as [-> | Hk].
  - destruct (String.eqb_spec k k0) as [E | _]; [congruence | assumption].
  - simpl. now rewrite IH.
Qed.

Lemma Map_keys_delete (k : string) (m : JsMap V) :
  Map_keys (Map_delete k m) = List.filter (fun k' => negb (String.eqb k' k)) (Map_keys m).
Proof.
  induction m as [| [k' v'] m IH]; simpl; [reflexivity |].
  destruct (String.eqb k' k); simpl; [assumption | now rewrite IH].
Qed.

Lemma Map_get_set (k : string) (v : V) (m : JsMap V) :
  Map_get k (Map_set k v m) = Some v.
Proof.
  induction m as [| [k' v'] m IH]; simpl.
  - now rewrite String.eqb_refl.
  - destruct (String.eqb k' k) eqn:E; simpl.
    + now rewrite String.eqb_refl.
    + now rewrite E.
Qed.

Lemma Map_get_set_other (k k0 : string) (v : V) (m : JsMap V) :
  k0 <> k -> Map_get k0 (Map_set k v m) = Map_get k0 m.
Proof.
  intros Hne. induction m as [| [k' v'] m IH]; simpl.
  - destruct (String.eqb_spec k k0); [congruence | reflexivity].
  - destruct (String.eqb_spec k' k) as [-> | Hk]; simpl.
    + destruct (String.eqb_spec k k0); [congruence | reflexivity].
    + now rewrite IH.
Qed.

(** [set] on a present key keeps the keys and their order; on an absent key
    it appends the key. *)
Lemma Map_keys_set (k : string) (v : V) (m : JsMap V) :
  Map_keys (Map_set k v m)
  = if Map_has k m then Map_keys m else Map_keys m ++ [k].
Proof.
  unfold Map_has. induction m as [| [k' v'] m IH]; simpl; [reflexivity |].
  destruct (String.eqb_spec k' k) as [-> | Hk]; simpl; [reflexivity |].
  rewrite IH. now destruct (Map_get k m).
Qed.

Lemma Map_set_NoDup (k : string) (v : V) (m : JsMap V) :
  NoDup (Map_keys m) -> NoDup (Map_keys (Map_set k v m)).
Proof.
  intros Hm. rewrite Map_keys_set.
  destruct (Map_has k m) eqn:E; [assumption |].
  apply NoDup_app. repeat split.
  - assumption.
  - intros x Hx Hk. apply list_elem_of_In in Hx. apply list_elem_of_In in Hk.
    destruct Hk as [<- | []]. apply Map_has_keys in Hx. congruence.
  - apply NoDup_singleton.
Qed.

Lemma Map_get_In (k : string) (v : V) (m : JsMap V) :
  Map_get k m = Some v -> In (k, v) m.
Proof.
  induction m as [| [k' v'] m IH]; simpl; [discriminate |].
  destruct (String.eqb_spec k' k) as [-> | Hk].
  - intros [= ->]. now left.
  - intros H. right. now apply IH.
Qed.

Lemma Map_In_get (k : string) (v : V) (m : JsMap V) :
  NoDup (Map_keys m) -> In (k, v) m -> Map_get k m = Some v.
Proof.
  induction m as [| [k' v'] m IH]; simpl; [tauto |].
  intros Hnd [E | Hin].
  - injection E as -> ->. now rewrite String.eqb_refl.
  - apply NoDup_cons in Hnd as [Hk Hnd].
    destruct (String.eqb_spec k' k) as [-> | Hne].
    + exfalso. apply Hk. apply list_elem_of_In.
      change (In (fst (k, v)) (map fst m)). now apply in_map.
    + now apply IH.
Qed.

End MapFacts.

(** ** Strings *)

Lemma slug_char_spec (c : ascii) :
  (if is_lower_alnum (lower_char c) then lower_char c else "-"%char) = slug_char c.
Proof.
  destruct c as [[] [] [] [] [] [] [] []]; vm_compute; reflexivity.
Qed.

Lemma slug_char_range (c : ascii) :
  (is_lower_alnum (slug_char c) || Ascii.eqb (slug_char c) "-") = true.
Proof.
  destruct c as [[] [] [] [] [] [] [] []]; vm_compute; reflexivity.
Qed.

Lemma slug_spec (s : string) :
  replace_non_alnum (toLowerCase s) = map_chars slug_char s.
Proof.
  unfold replace_non_alnum, toLowerCase.
  induction s as [| c s IH]; simpl; [reflexivity |].
  now rewrite IH, slug_char_spec.
Qed.

Lemma map_chars_length (f : ascii -> ascii) (s : string) :
  String.length (map_chars f s) = String.length s.
Proof. induction s; simpl; [reflexivity | now rewrite IHs]. Qed.

Lemma map_chars_get (f : ascii -> ascii) (s : string) (i : nat) :
  String.get i (map_chars f s) = option_map f (String.get i s).
Proof.
  revert i. induction s as [| c s IH]; intros i; simpl; [reflexivity |].
  destruct i; [reflexivity | apply IH].
Qed.

(** ** The provider registry *)

Section RegistryFacts.

Context {W : Type}.
Variable paintDefaultText : AnnotationRenderContext -> W -> Completion * W.

Abbreviation Registry := (@Registry W).
Abbreviation AnnotationProvider := (@AnnotationProvider W).

Lemma Registry_eta (r : Registry) :
  {| annotationProviders := annotationProviders r;
     activeProviders := activeProviders r |} = r.
Proof. now destruct r. Qed.

(** C8. Unregistering ['default'] is rejected with a warning and the registry
    is returned as it was; unregistering an id that is not registered leaves
    the registry as it was too and produces one warning and nothing else. *)
Theorem unregisterAnnotationProvider_rejects (r : Registry) (id' : string) :
  unregisterAnnotationProvider "default" r
  = (r, [ConsoleWarn "Cannot unregister the default annotation provider"])
  /\ (Map_has id' (annotationProviders r) = false ->
      exists msg, unregisterAnnotationProvider id' r = (r, [ConsoleWarn msg])).
Proof.
  split; [reflexivity |].
  intros Hunknown. unfold unregisterAnnotationProvider.
  destruct (String.eqb id' "default"); [eauto |].
  rewrite Hunknown, (Map_delete_absent _ _ Hunknown), Registry_eta. eauto.
Qed.

Lemma findProvider_loop_first (r : Registry) (annotation : OverlayAnnotation)
    (providers : list AnnotationProvider) :
  findProvider_loop paintDefaultText r annotation
    (List.filter (fun p => negb (String.eqb (id p) "default")) providers)
  = match first_accepting (fun p => canHandle p annotation)
            (List.filter (eligible r) providers) with
    | Ok (Some p) => Ok p
    | Ok None => Ok (defaultProvider paintDefaultText)
    | Thrown e => Thrown e
    end.
Proof.
  induction providers as [| p providers IH]; cbn [List.filter]; [reflexivity |].
  unfold eligible at 1.
  destruct (String.eqb (id p) "default"); cbn [negb andb]; [assumption |].
  cbn [findProvider_loop].
  destruct (isProviderActive (id p) r); [| assumption].
  cbn [first_accepting].
  destruct (canHandle p annotation) as [[|] | e]; [reflexivity | assumption | reflexivity].
Qed.

Lemma first_accepting_skip {A : Type} (test : A -> result bool) (l1 l2 : list A) :
  Forall (fun x => test x = Ok false) l1 ->
  first_accepting test (l1 ++ l2) = first_accepting test l2.
Proof.
  induction 1 as [| x l1 Hx _ IH]; cbn [app first_accepting]; [reflexivity |].
  now rewrite Hx.
Qed.

(** C10, as the code has it. A registration stores the provider under its
    id, activates that id at once, and overwrites what the id held before
    without moving or duplicating the entry; other ids are left alone.
    Without [options.id] the id is [options.name] with every code unit
    lowercased when it is a capital A-Z, kept when it is in a-z or 0-9, and
    replaced by ['-'] otherwise.  When the id is not ['default'], the
    provider takes part in resolution straight away: it is among the
    providers resolution goes through, and it is the one resolved for every
    annotation it accepts that the eligible providers in front of it have
    declined. *)
Theorem registerAnnotationProvider_activates
    (options : @AnnotationProviderOptions W) (r : Registry) :
  let r' := registerAnnotationProvider options r in
  let id' := registered_id options in
  id' ∈ activeProviders r'
  /\ isProviderActive id' r' = true
  /\ Map_get id' (annotationProviders r')
     = Some {| id := id'; name := opt_name options;
               description := opt_description options;
               canHandle := opt_canHandle options;
               render := opt_render options |}
  /\ Map_keys (annotationProviders r')
     = (if Map_has id' (annotationProviders r)
        then Map_keys (annotationProviders r)
        else Map_keys (annotationProviders r) ++ [id'])
  /\ (forall k, k <> id' ->
        Map_get k (annotationProviders r') = Map_get k (annotationProviders r))
  /\ (opt_id options = None ->
        id' = replace_non_alnum (toLowerCase (opt_name options))
        /\ id' = map_chars slug_char (opt_name options)
        /\ String.length id' = String.length (opt_name options)
        /\ forall i c, String.get i id' = Some c ->
             (is_lower_alnum c || Ascii.eqb c "-") = true)
  /\ (id' <> "default" ->
      let provider :=
        {| id := id'; name := opt_name options;
           description := opt_description options;
           canHandle := opt_canHandle options;
           render := opt_render options |} in
      eligible r' provider = true
      /\ In provider (getAllProviders r')
      /\ forall annotation before after,
           getAllProviders r' = before ++ provider :: after ->
           (forall q, In q before -> eligible r' q = true ->
              canHandle q annotation = Ok false) ->
           opt_canHandle options annotation = Ok true ->
           findProviderForAnnotation paintDefaultText r' annotation = Ok provider).
Proof.
  cbv zeta.
  assert (Hactive : isProviderActive (registered_id options)
                      (registerAnnotationProvider options r) = true).
  { unfold registered_id, registerAnnotationProvider, isProviderActive.
    cbn [annotationProviders activeProviders id].
    apply bool_decide_eq_true. apply elem_of_union. left. now apply elem_of_singleton. }
  assert (Hget : Map_get (registered_id options)
                   (annotationProviders (registerAnnotationProvider options r))
                 = Some {| id := registered_id options; name := opt_name options;
                           description := opt_description options;
                           canHandle := opt_canHandle options;
                           render := opt_render options |})
    by (unfold registered_id, registerAnnotationProvider;
        cbn [annotationProviders id]; apply Map_get_set).
  split; [now apply bool_decide_eq_true in Hactive |].
  split; [exact Hactive |].
  split; [exact Hget |].
  split; [unfold registered_id, registerAnnotationProvider;
          cbn [annotationProviders id]; apply Map_keys_set |].
  split; [intros k Hk; unfold registered_id, registerAnnotationProvider in *;
          cbn [annotationProviders id]; now apply Map_get_set_other |].
  split.
  { intros Hnone. unfold registered_id. rewrite Hnone. cbn [or_else].
    split; [reflexivity |]. rewrite slug_spec.
    split; [reflexivity |].
    split; [apply map_chars_length |].
    intros i c. rewrite map_chars_get.
    destruct (String.get i (opt_name options)) as [c0 |]; [| discriminate].
    intros [= <-]. apply slug_char_range. }
  intros Hne.
  set (r' := registerAnnotationProvider options r) in *.
  set (provider := {| id := registered_id options; name := opt_name options;
                      description := opt_description options;
                      canHandle := opt_canHandle options;
                      render := opt_render options |}) in *.
  assert (Heligible : eligible r' provider = true).
  { unfold eligible. cbn [id provider]. rewrite Hactive.
    apply String.eqb_neq in Hne. now rewrite Hne. }
  split; [exact Heligible |].
  split.
  { apply Map_get_In in Hget. unfold getAllProviders, Map_values.
    change provider with (snd (registered_id options, provider)). now apply in_map. }
  intros annotation before after Hsplit Hbefore Haccepts.
  unfold findProviderForAnnotation.
  rewrite findProvider_loop_first, Hsplit, List.filter_app.
  rewrite first_accepting_skip.
  - cbn [List.filter]. rewrite Heligible. cbn [first_accepting canHandle provider].
    now rewrite Haccepts.
  - apply List.Forall_forall. intros q Hq. apply filter_In in Hq as [Hin Hq].
    now apply Hbefore.
Qed.

(** C3 (what the code does). Toggling a registered, active provider off
    unregisters it: afterwards the id is neither active nor registered, and a
    second toggle finds nothing to re-register and changes nothing. *)
Theorem toggleProvider_off_unregisters (r : Registry) (providerId : string) :
  providerId <> "default" ->
  providerId ∈ activeProviders r ->
  Map_has providerId (annotationProviders r) = true ->
  let r' := fst (toggleProvider providerId r) in
  Map_get providerId (annotationProviders r') = None
  /\ (providerId ∉ activeProviders r')
  /\ ~ In providerId (Map_keys (annotationProviders r'))
  /\ toggleProvider providerId r' = (r', []).
Proof.
  intros Hid Hactive Hreg. cbv zeta.
  assert (Hoff : fst (toggleProvider providerId r)
                 = {| annotationProviders := Map_delete providerId (annotationProviders r);
                      activeProviders := activeProviders r ∖ {[providerId]} |}).
  { unfold toggleProvider, unregisterAnnotationProvider, isProviderActive.
    destruct (String.eqb_spec providerId "default") as [E | _]; [contradiction |].
    rewrite bool_decide_eq_true_2 by assumption.
    now rewrite Hreg. }
  rewrite Hoff. cbn [annotationProviders activeProviders].
  assert (Hgone : providerId ∉ activeProviders r ∖ {[providerId]})
    by (apply not_elem_of_difference; right; now apply elem_of_singleton).
  split; [apply Map_get_delete |].
  split; [exact Hgone |].
  split.
  - intros Hin. apply Map_has_keys in Hin. unfold Map_has in Hin.
    now rewrite Map_get_delete in Hin.
  - unfold toggleProvider, isProviderActive.
    destruct (String.eqb_spec providerId "default") as [E | _]; [contradiction |].
    cbn [annotationProviders activeProviders].
    rewrite bool_decide_eq_false_2 by exact Hgone.
    now rewrite Map_get_delete.
Qed.

(** *** Resolution *)

Lemma insert_by_priority_tie (c : Z) (p : AnnotationProvider)
    (sorted : list AnnotationProvider) :
  insert_by_priority (fun _ => c) p sorted = sorted ++ [p].
Proof.
  induction sorted as [| q rest IH]; simpl; [reflexivity |].
  rewrite Z.ltb_irrefl. now rewrite IH.
Qed.

Lemma priority_order_tie (c : Z) (providers : list AnnotationProvider) :
  priority_order (fun _ => c) providers = providers.
Proof.
  unfold priority_order.
  enough (H : forall acc,
             fold_left (fun sorted p => insert_by_priority (fun _ => c) p sorted)
               providers acc = acc ++ providers) by apply (H []).
  induction providers as [| p providers IH]; intros acc; simpl.
  - now rewrite app_nil_r.
  - rewrite IH, insert_by_priority_tie. now rewrite <- app_assoc.
Qed.

Lemma first_accepting_find {A : Type} (test : A -> result bool) (l : list A) :
  (forall x, In x l -> exists b, test x = Ok b) ->
  first_accepting test l = Ok (List.find (says_yes test) l).
Proof.
  induction l as [| x l IH]; intros Hreturns; [reflexivity |].
  cbn [first_accepting List.find]. unfold says_yes at 1.
  destruct (Hreturns x (or_introl eq_refl)) as [[|] ->]; [reflexivity |].
  apply IH. intros y Hy. apply Hreturns. now right.
Qed.

Lemma find_filter {A : Type} (f g : A -> bool) (l : list A) :
  List.find g (List.filter f l) = List.find (fun x => f x && g x) l.
Proof.
  induction l as [| x l IH]; simpl; [reflexivity |].
  destruct (f x); simpl; [| assumption].
  destruct (g x); [reflexivity | assumption].
Qed.

(** C1, as the code has it. Resolution looks only at the registered
    providers that are active and not ['default'], goes through them in
    registration order (the order of the registry map: a priority is not
    stored and not consulted), returns the first whose [canHandle] accepts
    the annotation, and returns the default provider when there is none.
    This is the specification's policy with all priorities equal.  (A
    [canHandle] that throws before a provider has accepted ends resolution
    with its exception, in the code and in the policy alike.) *)
Theorem findProviderForAnnotation_registration_order (r : Registry)
    (annotation : OverlayAnnotation) :
  findProviderForAnnotation paintDefaultText r annotation
  = match first_accepting (fun p => canHandle p annotation)
            (List.filter (eligible r) (getAllProviders r)) with
    | Ok (Some p) => Ok p
    | Ok None => Ok (defaultProvider paintDefaultText)
    | Thrown e => Thrown e
    end
  /\ findProviderForAnnotation paintDefaultText r annotation
     = resolve_spec paintDefaultText (fun _ => 0%Z) r annotation
  /\ ((forall p, In p (getAllProviders r) -> eligible r p = true ->
         exists b, canHandle p annotation = Ok b) ->
      findProviderForAnnotation paintDefaultText r annotation
      = Ok match List.find
                   (fun p => eligible r p
                             && says_yes (fun p => canHandle p annotation) p)
                   (getAllProviders r) with
           | Some p => p
           | None => defaultProvider paintDefaultText
           end).
Proof.
  unfold findProviderForAnnotation.
  split; [apply findProvider_loop_first |].
  split.
  - rewrite findProvider_loop_first. unfold resolve_spec.
    now rewrite priority_order_tie.
  - intros Hreturns. rewrite findProvider_loop_first.
    rewrite first_accepting_find.
    + rewrite find_filter.
      now destruct (List.find _ (getAllProviders r)).
    + intros p Hp. apply filter_In in Hp as [Hin Hel]. now apply Hreturns.
Qed.

End RegistryFacts.

(** ** The monad *)

Section MonadFacts.

Context {W : Type}.

Abbreviation M := (@M W).

Lemma returns_ret {A : Type} (a : A) : returns (@ret W A a).
Proof. intros st. now exists a, st. Qed.

Lemma returns_bind {A B : Type} (c : M A) (k : A -> M B) :
  returns c -> (forall a, returns (k a)) -> returns (bind c k).
Proof.
  intros Hc Hk st. destruct (Hc st) as (a & st1 & E).
  unfold bind. rewrite E. apply Hk.
Qed.

Lemma returns_try_catch {A : Type} (c : M A) (handler : string -> M A) :
  (forall e, returns (handler e)) -> returns (try_catch c handler).
Proof.
  intros Hh st. unfold try_catch.
  destruct (c st) as [[a | e] st1]; [now exists a, st1 | apply Hh].
Qed.

Lemma returns_emit (ev : Event) : returns (@emit W ev).
Proof. intros st. unfold emit. eauto. Qed.

Lemma emits_ret (P : Event -> Prop) {A : Type} (a : A) : emits P (@ret W A a).
Proof.
  intros st res st' [= <- <-]. exists []. now rewrite app_nil_r.
Qed.

Lemma emits_throw (P : Event -> Prop) {A : Type} (e : string) :
  emits P (@throw W A e).
Proof.
  intros st res st' [= <- <-]. exists []. now rewrite app_nil_r.
Qed.

Lemma emits_bind (P : Event -> Prop) {A B : Type} (c : M A) (k : A -> M B) :
  emits P c -> (forall a, emits P (k a)) -> emits P (bind c k).
Proof.
  intros Hc Hk st res st'. unfold bind.
  destruct (c st) as [[a | e] st1] eqn:E.
  - intros Hrun. destruct (Hc _ _ _ E) as (evs1 & T1 & P1).
    destruct (Hk a _ _ _ Hrun) as (evs2 & T2 & P2).
    exists (evs1 ++ evs2). rewrite T2, T1, app_assoc.
    split; [reflexivity | now apply Forall_app].
  - intros [= <- <-]. apply (Hc _ _ _ E).
Qed.

Lemma emits_try_catch (P : Event -> Prop) {A : Type} (c : M A)
    (handler : string -> M A) :
  emits P c -> (forall e, emits P (handler e)) -> emits P (try_catch c handler).
Proof.
  intros Hc Hh st res st'. unfold try_catch.
  destruct (c st) as [[a | e] st1] eqn:E.
  - intros [= <- <-]. apply (Hc _ _ _ E).
  - intros Hrun. destruct (Hc _ _ _ E) as (evs1 & T1 & P1).
    destruct (Hh e _ _ _ Hrun) as (evs2 & T2 & P2).
    exists (evs1 ++ evs2). rewrite T2, T1, app_assoc.
    split; [reflexivity | now apply Forall_app].
Qed.

Lemma emits_emit (P : Event -> Prop) (ev : Event) : P ev -> emits P (@emit W ev).
Proof.
  intros Hev st res st' [= <- <-]. exists [ev]. split; [reflexivity |].
  now constructor.
Qed.

Lemma emits_get_overlays (P : Event -> Prop) : emits P (@get_overlays W).
Proof.
  intros st res st' [= <- <-]. exists []. now rewrite app_nil_r.
Qed.

Lemma emits_set_overlays (P : Event -> Prop) (os : list OverlayElement) :
  emits P (@set_overlays W os).
Proof.
  intros st res st' [= <- <-]. exists []. simpl. now rewrite app_nil_r.
Qed.

Lemma emits_of_result (P : Event -> Prop) {A : Type} (r : result A) :
  emits P (@of_result W A r).
Proof. destruct r; [apply emits_ret | apply emits_throw]. Qed.

Lemma emits_call_render (P : Event -> Prop) (p : @AnnotationProvider W)
    (context : AnnotationRenderContext) :
  P (RenderCall (id p)) -> emits P (call_render p context).
Proof.
  intros Hp st res st'. unfold call_render.
  destruct (render p context (world st)) as [[| e] w];
    intros [= <- <-]; exists [RenderCall (id p)]; (split; [reflexivity | now constructor]).
Qed.

Lemma emits_weaken (P Q : Event -> Prop) {A : Type} (c : M A) :
  (forall ev, P ev -> Q ev) -> emits P c -> emits Q c.
Proof.
  intros HPQ Hc st res st' Hrun.
  destruct (Hc _ _ _ Hrun) as (evs & T & HP).
  exists evs. split; [assumption |].
  eapply Forall_impl; eauto.
Qed.

End MonadFacts.

(** ** The hit-test index stores every annotation of the page *)

Lemma drawAnnotations_loop_get (effectiveDpi : float) (k : string) :
  forall annotations annotationPaths drawn,
    Map_get k (fst (drawAnnotations_loop annotations effectiveDpi annotationPaths drawn))
    = fold_left (stored_under effectiveDpi k) annotations (Map_get k annotationPaths).
Proof.
  induction annotations as [| a annotations IH]; intros annotationPaths drawn;
    [reflexivity |].
  cbn [drawAnnotations_loop fold_left]. rewrite IH. f_equal.
  unfold stored_under, entry_of.
  destruct (String.eqb_spec (annotationKey a) k) as [<- | Hne].
  - apply Map_get_set.
  - apply Map_get_set_other. congruence.
Qed.

Lemma stored_under_stays (effectiveDpi : float) (a : OverlayAnnotation) :
  forall annotations,
    (forall b, In b annotations -> annotationKey b = annotationKey a -> b = a) ->
    fold_left (stored_under effectiveDpi (annotationKey a)) annotations
      (Some (entry_of effectiveDpi a))
    = Some (entry_of effectiveDpi a).
Proof.
  induction annotations as [| b annotations IH]; intros Huniq; [reflexivity |].
  cbn [fold_left]. unfold stored_under at 2.
  destruct (String.eqb_spec (annotationKey b) (annotationKey a)) as [E | _].
  - rewrite (Huniq b (or_introl eq_refl) E). apply IH.
    intros c Hc. apply Huniq. now right.
  - apply IH. intros c Hc. apply Huniq. now right.
Qed.

Lemma stored_under_found (effectiveDpi : float) (a : OverlayAnnotation) :
  forall annotations found,
    In a annotations ->
    (forall b, In b annotations -> annotationKey b = annotationKey a -> b = a) ->
    fold_left (stored_under effectiveDpi (annotationKey a)) annotations found
    = Some (entry_of effectiveDpi a).
Proof.
  induction annotations as [| b annotations IH]; intros found Hin Huniq;
    [destruct Hin |].
  cbn [fold_left]. destruct Hin as [-> | Hin].
  - unfold stored_under at 2. rewrite String.eqb_refl.
    apply stored_under_stays. intros c Hc. apply Huniq. now right.
  - apply IH; [assumption |]. intros c Hc. apply Huniq. now right.
Qed.

Lemma drawAnnotations_stores (pageAnnotations : list OverlayAnnotation)
    (pageNumber : Z) (effectiveDpi : float) (a : OverlayAnnotation) :
  In a (getAnnotationsForPage pageAnnotations pageNumber) ->
  (forall b, In b (getAnnotationsForPage pageAnnotations pageNumber) ->
     annotationKey b = annotationKey a -> b = a) ->
  Map_get (annotationKey a) (fst (drawAnnotations pageAnnotations pageNumber effectiveDpi))
  = Some (entry_of effectiveDpi a).
Proof.
  intros Hin Huniq. unfold drawAnnotations.
  rewrite drawAnnotations_loop_get. now apply stored_under_found.
Qed.

(** ** Render dispatch *)

Section DispatchFacts.

Context {W : Type}.
Variable paintDefaultText : AnnotationRenderContext -> W -> Completion * W.
Variable measureHtml : string -> float -> float * float.

Abbreviation drawText := (drawAnnotationText paintDefaultText measureHtml).
Abbreviation resolve := (findProviderForAnnotation paintDefaultText).
Abbreviation default := (defaultProvider paintDefaultText).

Lemma htmlAnnotationStage_returns (env : Env) (context : AnnotationRenderContext)
    (annotation : OverlayAnnotation) :
  returns (htmlAnnotationStage (W:=W) measureHtml env context annotation).
Proof.
  unfold htmlAnnotationStage.
  destruct (htmlAnnotation env) as [generate |]; [| apply returns_ret].
  destruct (canvasRef env) as [canvas |]; [| apply returns_ret].
  destruct (htmlOverlayContainer env); [| apply returns_ret].
  unfold simpleHtmlRender. apply returns_try_catch. intros e.
  apply returns_bind; [apply returns_emit | intros _; apply returns_ret].
Qed.

Lemma render_with_fallback_returns (disabled : bool) (provider : @AnnotationProvider W)
    (context : AnnotationRenderContext) :
  returns (render_with_fallback paintDefaultText disabled provider context).
Proof.
  unfold render_with_fallback. apply returns_try_catch. intros e.
  apply returns_bind; [apply returns_emit | intros _].
  destruct (_ && _); [| apply returns_ret].
  apply returns_try_catch. intros e'. apply returns_emit.
Qed.

Lemma render_with_fallback_run (disabled : bool) (provider : @AnnotationProvider W)
    (context : AnnotationRenderContext) (st : St) :
  render_with_fallback paintDefaultText disabled provider context st
  = (Ok tt,
     {| world := fst (render_outcome paintDefaultText disabled provider context (world st));
        overlays := overlays st;
        trace := trace st
                 ++ snd (render_outcome paintDefaultText disabled provider context
                           (world st)) |}).
Proof.
  unfold render_with_fallback, render_outcome, try_catch at 1, call_render at 1.
  destruct (render provider context (world st)) as [[| e] w1]; [reflexivity |].
  unfold bind, emit. cbn [world overlays trace].
  destruct (negb (String.eqb (id provider) "default") && negb disabled).
  - unfold try_catch, call_render. cbn [world overlays trace id defaultProvider].
    destruct (render default context w1) as [[| e2] w2]; cbn [fst snd].
    + now rewrite <- !app_assoc.
    + unfold emit. cbn [world overlays trace]. now rewrite <- !app_assoc.
  - cbn [ret fst snd]. now rewrite <- !app_assoc.
Qed.

(** Without an [htmlAnnotation] callback, an annotation that passes the
    guards goes to resolution and to the provider resolved. *)
Lemma drawAnnotationText_provider (env : Env) (r : Registry) (disabled : bool)
    (annotation : OverlayAnnotation) (effectiveDpi : float) (pageNumber : Z)
    (st : St) :
  let context := renderContext annotation effectiveDpi pageNumber in
  htmlAnnotation env = None ->
  blank (content annotation) = false ->
  (3 <= length (convertCoordinates (rect annotation) effectiveDpi))%nat ->
  (width (ctx_rect context) <=? 0)%float = false ->
  (height (ctx_rect context) <=? 0)%float = false ->
  drawText env r disabled annotation effectiveDpi pageNumber st
  = match resolve r annotation with
    | Ok provider =>
        (Ok tt,
         {| world := fst (render_outcome paintDefaultText disabled provider context
                            (world st));
            overlays := overlays st;
            trace := trace st
                     ++ snd (render_outcome paintDefaultText disabled provider context
                               (world st)) |})
    | Thrown e => (Thrown e, st)
    end.
Proof.
  intros context Hnone Hcontent Hpoints Hwidth Hheight.
  unfold drawAnnotationText. rewrite Hcontent.
  apply Nat.ltb_ge in Hpoints. rewrite Hpoints.
  fold context. rewrite Hwidth, Hheight. cbn [orb].
  unfold htmlAnnotationStage. rewrite Hnone.
  unfold bind at 1. cbn [ret]. unfold bind at 1.
  destruct (resolve r annotation) as [provider | e]; cbn [of_result ret throw];
    [| reflexivity].
  apply render_with_fallback_run.
Qed.

(** The render entry point ends normally, or with the exception of a
    [canHandle] that threw during resolution: nothing catches that one
    here. *)
Lemma drawAnnotationText_outcome (env : Env) (r : Registry)
    (disableFallbackRendering : bool) (annotation : OverlayAnnotation)
    (effectiveDpi : float) (pageNumber : Z) (st : St) :
  (exists st',
      drawText env r disableFallbackRendering annotation effectiveDpi pageNumber st
      = (Ok tt, st'))
  \/ (exists e st',
        drawText env r disableFallbackRendering annotation effectiveDpi pageNumber st
        = (Thrown e, st')
        /\ resolve r annotation = Thrown e).
Proof.
  destruct (drawText env r disableFallbackRendering annotation effectiveDpi pageNumber st)
    as [[[] | e] st'] eqn:E; [left; now exists st' |].
  right. exists e, st'. split; [reflexivity |].
  revert E. unfold drawAnnotationText.
  destruct (blank (content annotation)); [discriminate |].
  destruct (_ <? 3)%nat; [discriminate |].
  destruct (_ || _); [discriminate |].
  unfold bind at 1.
  destruct (htmlAnnotationStage_returns env
              (renderContext annotation effectiveDpi pageNumber) annotation st)
    as (handled & st1 & ->).
  destruct handled; [discriminate |].
  unfold bind at 1.
  destruct (resolve r annotation) as [provider | e0]; cbn [of_result].
  - destruct (render_with_fallback_returns disableFallbackRendering provider
                (renderContext annotation effectiveDpi pageNumber) st1)
      as ([] & st2 & E).
    unfold render_with_fallback in E. cbn [ret]. rewrite E. discriminate.
  - unfold throw. now intros [= -> _].
Qed.

Lemma drawAnnotationText_returns (env : Env) (r : Registry)
    (disableFallbackRendering : bool) (annotation : OverlayAnnotation)
    (effectiveDpi : float) (pageNumber : Z) (provider : @AnnotationProvider W) :
  resolve r annotation = Ok provider ->
  returns (drawText env r disableFallbackRendering annotation effectiveDpi pageNumber).
Proof.
  intros Hresolved st.
  destruct (drawAnnotationText_outcome env r disableFallbackRendering annotation
              effectiveDpi pageNumber st) as [[st' E] | (e & st' & _ & E)].
  - now exists tt, st'.
  - congruence.
Qed.

(** C2, as the code has it. When the attempt reaches the resolved
    provider, that provider's [render] throws, the provider is not
    ['default'] and fallback is not disabled, then the default provider's
    [render] is invoked once, right after the warning; if it throws as well,
    that is logged as an error and nothing else happens.  The entry point
    ends normally whatever a [render] and the [htmlAnnotation] callback do;
    it ends with an exception only when a provider's [canHandle] throws
    during resolution, and then with that exception. *)
Theorem drawAnnotationText_fallback_once (env : Env) (r : Registry)
    (annotation : OverlayAnnotation) (effectiveDpi : float) (pageNumber : Z)
    (st st1 : St) (e : string) (w1 : W) (provider : @AnnotationProvider W) :
  let context := renderContext annotation effectiveDpi pageNumber in
  let fallback := render default context w1 in
  blank (content annotation) = false ->
  (3 <= length (convertCoordinates (rect annotation) effectiveDpi))%nat ->
  (width (ctx_rect context) <=? 0)%float = false ->
  (height (ctx_rect context) <=? 0)%float = false ->
  htmlAnnotationStage measureHtml env context annotation st = (Ok false, st1) ->
  resolve r annotation = Ok provider ->
  render provider context (world st1) = (Throws e, w1) ->
  id provider <> "default" ->
  drawText env r false annotation effectiveDpi pageNumber st
  = (Ok tt,
     {| world := snd fallback;
        overlays := overlays st1;
        trace := (trace st1
                  ++ [RenderCall (id provider);
                      ConsoleWarn ("Error rendering annotation with provider "
                                   +:+ id provider +:+ ":");
                      RenderCall "default"])
                 ++ match fst fallback with
                    | Normal => []
                    | Throws _ => [ConsoleError "Default provider also failed:"]
                    end |})
  /\ (forall env' r' disabled annotation' effectiveDpi' pageNumber' st0,
        (exists st',
            drawText env' r' disabled annotation' effectiveDpi' pageNumber' st0
            = (Ok tt, st'))
        \/ (exists e' st',
              drawText env' r' disabled annotation' effectiveDpi' pageNumber' st0
              = (Thrown e', st')
              /\ resolve r' annotation' = Thrown e')).
Proof.
  intros context fallback Hcontent Hpoints Hwidth Hheight Hstage Hresolved Hthrows Hid.
  split.
  - unfold drawAnnotationText. rewrite Hcontent.
    apply Nat.ltb_ge in Hpoints. rewrite Hpoints.
    fold context. rewrite Hwidth, Hheight. cbn [orb].
    unfold bind at 1. rewrite Hstage.
    unfold bind at 1. rewrite Hresolved. cbn [of_result ret].
    unfold try_catch at 1, call_render at 1.
    rewrite Hthrows.
    unfold bind at 1, emit at 1. cbn [world overlays trace].
    apply String.eqb_neq in Hid. rewrite Hid. cbn [negb andb].
    unfold try_catch, call_render. cbn [world overlays trace].
    subst fallback. cbn [id defaultProvider].
    destruct (render default context w1) as [[| e2] w2]; cbn [fst snd].
    + now rewrite app_nil_r, <- !app_assoc.
    + unfold emit. cbn [world overlays trace]. now rewrite <- !app_assoc.
  - intros env' r' disabled annotation' effectiveDpi' pageNumber' st0.
    apply drawAnnotationText_outcome.
Qed.


End DispatchFacts.

(** ** Pointer moves *)

Lemma Map_set_In {V : Type} (k : string) (v : V) (m : JsMap V) (k0 : string) (v0 : V) :
  In (k0, v0) (Map_set k v m) -> (k0, v0) = (k, v) \/ In (k0, v0) m.
Proof.
  induction m as [| [k' v'] m IH]; simpl.
  - intros [E | []]. now left.
  - destruct (String.eqb k' k); simpl.
    + intros [E | H]; [now left | right; now right].
    + intros [E | H]; [right; now left |].
      destruct (IH H) as [E | H']; [now left | right; now right].
Qed.

Lemma drawAnnotations_loop_wf (effectiveDpi : float) :
  forall annotations annotationPaths drawn,
    index_wf annotationPaths ->
    index_wf (fst (drawAnnotations_loop annotations effectiveDpi annotationPaths drawn)).
Proof.
  induction annotations as [| a annotations IH]; intros annotationPaths drawn Hwf;
    [exact Hwf |].
  cbn [drawAnnotations_loop]. apply IH. destruct Hwf as [Hnd Hkeys]. split.
  - now apply Map_set_NoDup.
  - intros k e Hin. apply Map_set_In in Hin as [[= -> ->] | Hin]; [reflexivity |].
    now apply Hkeys.
Qed.

Lemma drawAnnotations_wf (pageAnnotations : list OverlayAnnotation)
    (pageNumber : Z) (effectiveDpi : float) :
  index_wf (fst (drawAnnotations pageAnnotations pageNumber effectiveDpi)).
Proof.
  apply drawAnnotations_loop_wf. split; [constructor | intros k e []].
Qed.

Lemma index_wf_get (annotationPaths : JsMap HitTestEntry) (e : HitTestEntry) :
  index_wf annotationPaths ->
  In e (Map_values annotationPaths) ->
  Map_get (annotationKey (entry_annotation e)) annotationPaths = Some e.
Proof.
  intros [Hnd Hkeys] Hin. apply in_map_iff in Hin as ([k e'] & E & Hin).
  simpl in E. subst e'. rewrite <- (Hkeys k e Hin). now apply Map_In_get.
Qed.

Lemma getAnnotationAtPoint_entry (isPointInPath : Path2D -> float -> float -> bool)
    (annotationPaths : JsMap HitTestEntry) (x y : float) (a : OverlayAnnotation) :
  getAnnotationAtPoint isPointInPath annotationPaths x y = Some a ->
  exists e, In e (Map_values annotationPaths)
            /\ entry_annotation e = a
            /\ isPointInPath (entry_path e) x y = true.
Proof.
  unfold getAnnotationAtPoint.
  induction (Map_values annotationPaths) as [| e entries IH]; simpl; [discriminate |].
  destruct (isPointInPath (entry_path e) x y) eqn:He.
  - intros [= <-]. exists e. repeat split; [now left | assumption].
  - intros H. destruct (IH H) as (e' & Hin & Ha & Hc).
    exists e'. repeat split; [now right | assumption | assumption].
Qed.

Section HoverFacts.

Context {W : Type}.
Variable paintDefaultText : AnnotationRenderContext -> W -> Completion * W.
Variable measureHtml : string -> float -> float * float.
Variable isPointInPath : Path2D -> float -> float -> bool.

Abbreviation St := (@St W).
Abbreviation move := (handleCanvasMouseMove paintDefaultText measureHtml isPointInPath).
Abbreviation moves := (handleMoves paintDefaultText measureHtml isPointInPath).
Abbreviation drawText' := (drawAnnotationText paintDefaultText measureHtml).

Lemma add_events_nil (st : St) : add_events st [] = st.
Proof. destruct st. unfold add_events. simpl. now rewrite app_nil_r. Qed.

Lemma add_events_app (st : St) (evs1 evs2 : list Event) :
  add_events (add_events st evs1) evs2 = add_events st (evs1 ++ evs2).
Proof. unfold add_events. simpl. now rewrite app_assoc. Qed.

Lemma differs_trans (a b c : option OverlayAnnotation) :
  differs a b = false -> differs b c = false -> differs a c = false.
Proof.
  destruct a as [a |], b as [b |], c as [c |]; simpl; try congruence.
  unfold same_object. rewrite !negb_false_iff, !Nat.eqb_eq. congruence.
Qed.

Lemma differs_sym (a b : option OverlayAnnotation) : differs a b = differs b a.
Proof.
  destruct a as [a |], b as [b |]; simpl; try reflexivity.
  unfold same_object. now rewrite Nat.eqb_sym.
Qed.

Lemma differs_is_hit (a b : option OverlayAnnotation) :
  differs a b = false -> is_hit a = is_hit b.
Proof. destruct a, b; simpl; congruence. Qed.

Lemma tracks_same (hover : HoverState) (h h' : option OverlayAnnotation) :
  tracks hover h -> differs h' h = false -> tracks hover h'.
Proof.
  intros [Hs Ha] Hd. split.
  - rewrite Hs. symmetry. now apply differs_is_hit.
  - apply (differs_trans _ h); [assumption |]. now rewrite differs_sym.
Qed.

(** A move over the annotation the state already records redraws nothing:
    the state is kept and the only effect is the cursor style. *)
Lemma move_unchanged (env : Env) (r : Registry) (disabled : bool)
    (annotationPaths : JsMap HitTestEntry) (hover : HoverState)
    (event : MouseEvent) (st : St) :
  tracks hover (hit isPointInPath env annotationPaths event) ->
  move env r disabled annotationPaths hover event st
  = (Ok hover,
     add_events st (cursor_events env (hit isPointInPath env annotationPaths event) 1)).
Proof.
  unfold tracks, hit, cursor_events, ready, handleCanvasMouseMove, handleAnnotationHover.
  destruct (canvasRef env) as [canvas |];
    [| intros _; unfold ret; now rewrite add_events_nil].
  destruct (overlayCanvasRef env) as [[|] |];
    try (intros _; unfold ret; now rewrite add_events_nil).
  cbv zeta.
  set (g := getAnnotationAtPoint _ _ _ _).
  intros [Hs Ha]. destruct g as [a |]; cbn [is_hit] in *.
  - rewrite Ha, Hs. reflexivity.
  - rewrite Ha, Hs. reflexivity.
Qed.

Lemma bind_Ok_inv {A B : Type} (c : @M W A) (k : A -> @M W B) (st st' : St) (b : B) :
  bind c k st = (Ok b, st') ->
  exists a st1, c st = (Ok a, st1) /\ k a st1 = (Ok b, st').
Proof.
  unfold bind. destruct (c st) as [[a | e] st1]; [eauto | discriminate].
Qed.

Ltac emits_step :=
  first
    [ apply emits_ret | apply emits_throw | apply emits_get_overlays
    | apply emits_set_overlays | apply emits_of_result
    | (apply emits_emit; exact I) | (apply emits_call_render; exact I)
    | apply emits_bind | apply emits_try_catch
    | match goal with |- forall _, _ => intro end
    | match goal with |- emits _ (match ?x with _ => _ end) => destruct x end ].

Lemma convertPdfCoordsToOverlayCoords_emits (canvasElement : option CanvasElement)
    (canvasRenderedRect : option BoundingBox) :
  emits dispatch_event
    (convertPdfCoordsToOverlayCoords (W:=W) canvasElement canvasRenderedRect).
Proof.
  unfold convertPdfCoordsToOverlayCoords, convertCanvasToOverlayCoords.
  destruct canvasElement as [canvas |], canvasRenderedRect as [canvasRect |];
    repeat emits_step.
Qed.

Lemma htmlAnnotationStage_emits (env : Env) (context : AnnotationRenderContext)
    (annotation : OverlayAnnotation) :
  emits dispatch_event (htmlAnnotationStage (W:=W) measureHtml env context annotation).
Proof.
  unfold htmlAnnotationStage.
  destruct (htmlAnnotation env) as [generate |]; [| apply emits_ret].
  destruct (canvasRef env) as [canvas |]; [| apply emits_ret].
  destruct (htmlOverlayContainer env); [| apply emits_ret].
  unfold simpleHtmlRender. apply emits_try_catch; [| repeat emits_step].
  apply emits_bind; [apply emits_get_overlays | intros existing].
  apply emits_bind; [apply emits_of_result | intros [existingOverlay |]];
    [apply emits_ret |].
  apply emits_bind; [apply emits_of_result | intros htmlContent].
  apply emits_bind; [apply convertPdfCoordsToOverlayCoords_emits | intros [sc |]];
    [| apply emits_ret].
  destruct (measureHtml _ _) as [naturalWidth naturalHeight].
  repeat emits_step.
Qed.

(** Rendering one annotation appends dispatch events only: it neither
    clears nor highlights. *)
Lemma drawAnnotationText_emits (env : Env) (r : Registry) (disabled : bool)
    (annotation : OverlayAnnotation) (effectiveDpi : float) (pageNumber : Z) :
  emits dispatch_event (drawText' env r disabled annotation effectiveDpi pageNumber).
Proof.
  unfold drawAnnotationText.
  destruct (blank (content annotation)); [apply emits_ret |].
  destruct (_ <? 3)%nat; [apply emits_ret |].
  destruct (_ || _); [apply emits_ret |].
  apply emits_bind; [apply htmlAnnotationStage_emits | intros [|]];
    [apply emits_ret |].
  apply emits_bind; [apply emits_of_result | intros provider].
  apply emits_try_catch; [apply emits_call_render; exact I | intros e].
  apply emits_bind; [apply emits_emit; exact I | intros _].
  destruct (_ && _); repeat emits_step.
Qed.

Lemma drawHoverEffect_returns (env : Env) (r : Registry) (disabled : bool)
    (annotationPaths : JsMap HitTestEntry) (x y effectiveDpi : float) :
  returns (drawHoverEffect paintDefaultText measureHtml isPointInPath env r
             disabled annotationPaths x y effectiveDpi).
Proof.
  unfold drawHoverEffect.
  destruct (getAnnotationAtPoint _ _ _ _) as [a |]; [| apply returns_ret].
  destruct (Map_get _ _) as [entry |]; [| apply returns_ret].
  apply returns_bind; [apply returns_emit | intros _].
  apply returns_bind; [apply returns_emit | intros _].
  apply returns_try_catch. intros e. apply returns_emit.
Qed.

Lemma clearHtmlOverlays_returns (env : Env) : returns (clearHtmlOverlays (W:=W) env).
Proof.
  unfold clearHtmlOverlays. destruct (htmlOverlayContainer env); [| apply returns_ret].
  intros st. unfold bind, get_overlays, set_overlays, emit. eauto.
Qed.

(** The handler ends normally from every state. *)
Lemma move_returns (env : Env) (r : Registry) (disabled : bool)
    (annotationPaths : JsMap HitTestEntry) (hover : HoverState) (event : MouseEvent) :
  returns (move env r disabled annotationPaths hover event).
Proof.
  unfold handleCanvasMouseMove.
  destruct (canvasRef env) as [canvas |]; [| apply returns_ret].
  destruct (overlayCanvasRef env) as [[|] |]; try apply returns_ret.
  cbv zeta. apply returns_bind.
  - destruct (_ || _); [| apply returns_ret].
    apply returns_bind; [apply returns_emit | intros _].
    apply returns_bind.
    { destruct (negb _); [apply clearHtmlOverlays_returns |].
      destruct (differs _ _); [apply clearHtmlOverlays_returns | apply returns_ret]. }
    intros _. apply returns_bind; [| intros _; apply returns_ret].
    destruct (handleAnnotationHover _ _ _ _);
      [apply drawHoverEffect_returns | apply returns_ret].
  - intros hover'. apply returns_bind; [apply returns_emit | intros _; apply returns_ret].
Qed.

Lemma differs_refl (h : option OverlayAnnotation) : differs h h = false.
Proof.
  destruct h as [a |]; simpl; [| reflexivity].
  unfold same_object. now rewrite Nat.eqb_refl.
Qed.

(** After a handled move the state records the annotation under the
    pointer. *)
Lemma move_tracks (env : Env) (r : Registry) (disabled : bool)
    (annotationPaths : JsMap HitTestEntry) (hover hover' : HoverState)
    (event : MouseEvent) (st st' : St) :
  ready env = true ->
  move env r disabled annotationPaths hover event st = (Ok hover', st') ->
  tracks hover' (hit isPointInPath env annotationPaths event).
Proof.
  unfold ready, hit, handleCanvasMouseMove, handleAnnotationHover.
  destruct (canvasRef env) as [canvas |]; [| discriminate].
  destruct (overlayCanvasRef env) as [[|] |]; try discriminate.
  intros _. cbv zeta.
  set (g := getAnnotationAtPoint _ _ _ _).
  replace (if is_hit g then g else None) with g
    by (now destruct g).
  change (match g with Some _ => true | None => false end) with (is_hit g).
  replace (if is_hit g then g else None) with g by (now destruct g).
  intros Hrun. apply bind_Ok_inv in Hrun as (h1 & st1 & Hfirst & Hrest).
  apply bind_Ok_inv in Hrest as ([] & st2 & _ & [= <- _]).
  destruct (negb (Bool.eqb (previousHoverState hover) (is_hit g))
            || differs (previousHoveredAnnotation hover) g) eqn:Hchanged.
  - apply bind_Ok_inv in Hfirst as ([] & sa & _ & Hfirst).
    apply bind_Ok_inv in Hfirst as ([] & sb & _ & Hfirst).
    apply bind_Ok_inv in Hfirst as ([] & sc & _ & [= <- _]).
    split; [reflexivity | apply differs_refl].
  - injection Hfirst as <- _.
    apply orb_false_iff in Hchanged as [Hs Ha].
    apply negb_false_iff, Bool.eqb_prop in Hs. now split.
Qed.

Lemma moves_not_ready (env : Env) (r : Registry) (disabled : bool)
    (annotationPaths : JsMap HitTestEntry) (hover : HoverState) (st : St) :
  ready env = false ->
  forall events,
    moves env r disabled annotationPaths hover events st = (Ok hover, st).
Proof.
  intros Hready. induction events as [| event events IH]; [reflexivity |].
  cbn [handleMoves]. unfold bind.
  assert (E : move env r disabled annotationPaths hover event st = (Ok hover, st)).
  { unfold handleCanvasMouseMove. unfold ready in Hready.
    destruct (canvasRef env) as [canvas |]; [| reflexivity].
    destruct (overlayCanvasRef env) as [[|] |]; [discriminate | reflexivity | reflexivity]. }
  now rewrite E.
Qed.

Lemma tracks_consistent (hover : HoverState) (h : option OverlayAnnotation) :
  tracks hover h -> consistent hover.
Proof.
  intros [Hs Ha]. unfold consistent. rewrite Hs. symmetry.
  now apply differs_is_hit.
Qed.

(** The two flags of the hover state agree initially and after every
    handled move. *)
Lemma move_consistent (env : Env) (r : Registry) (disabled : bool)
    (annotationPaths : JsMap HitTestEntry) (hover hover' : HoverState)
    (event : MouseEvent) (st st' : St) :
  consistent initialHoverState
  /\ (consistent hover ->
      move env r disabled annotationPaths hover event st = (Ok hover', st') ->
      consistent hover').
Proof.
  split; [reflexivity |].
  intros Hcons Hrun. destruct (ready env) eqn:Hready.
  - apply (tracks_consistent _ (hit isPointInPath env annotationPaths event)).
    now apply (move_tracks env r disabled annotationPaths hover hover' event st st').
  - pose proof (moves_not_ready env r disabled annotationPaths hover st Hready [event])
      as Hsame.
    cbn [handleMoves] in Hsame. unfold bind in Hsame. rewrite Hrun in Hsame.
    unfold ret in Hsame. now injection Hsame as -> _.
Qed.

Lemma cursor_events_S (env : Env) (h h' : option OverlayAnnotation) (n : nat) :
  is_hit h' = is_hit h ->
  cursor_events env h' 1 ++ cursor_events env h n = cursor_events env h (S n).
Proof.
  intros E. unfold cursor_events. destruct (ready env); [| reflexivity].
  now rewrite E.
Qed.

(** Moves over the recorded annotation leave everything but the cursor
    style alone, however many there are. *)
Lemma moves_unchanged (env : Env) (r : Registry) (disabled : bool)
    (annotationPaths : JsMap HitTestEntry) (hover : HoverState)
    (h : option OverlayAnnotation) :
  tracks hover h ->
  forall events st,
    (forall e, In e events -> differs (hit isPointInPath env annotationPaths e) h = false) ->
    moves env r disabled annotationPaths hover events st
    = (Ok hover, add_events st (cursor_events env h (length events))).
Proof.
  intros Htracks. induction events as [| event events IH]; intros st Hsame.
  - cbn [handleMoves length]. unfold ret, cursor_events.
    destruct (ready env); cbn [repeat]; now rewrite add_events_nil.
  - cbn [handleMoves length]. unfold bind.
    assert (Hevent : differs (hit isPointInPath env annotationPaths event) h = false)
      by (apply Hsame; now left).
    rewrite move_unchanged by (now apply (tracks_same _ h)).
    rewrite IH by (intros e He; apply Hsame; now right).
    rewrite add_events_app, cursor_events_S; [reflexivity |].
    now apply differs_is_hit.
Qed.

Lemma bind_emit {B : Type} (ev : Event) (k : unit -> @M W B) (st : St) :
  bind (emit ev) k st = k tt (add_events st [ev]).
Proof. reflexivity. Qed.

Lemma bind_ret {A B : Type} (a : A) (k : A -> @M W B) (st : St) :
  bind (ret a) k st = k a st.
Proof. reflexivity. Qed.

Lemma bind_clearHtmlOverlays {B : Type} (env : Env) (k : unit -> @M W B) (st : St) :
  bind (clearHtmlOverlays env) k (add_events st [CanvasClearRect])
  = k tt (teardown env st).
Proof.
  unfold clearHtmlOverlays, teardown, add_events.
  destruct (htmlOverlayContainer env).
  - unfold bind, get_overlays, set_overlays, emit. cbn [world overlays trace].
    now rewrite <- app_assoc.
  - reflexivity.
Qed.

Lemma hover_render_returns (env : Env) (r : Registry) (disabled : bool)
    (a : OverlayAnnotation) :
  returns (hover_render paintDefaultText measureHtml env r disabled a).
Proof. apply returns_try_catch. intros e. apply returns_emit. Qed.

Lemma hover_render_emits (env : Env) (r : Registry) (disabled : bool)
    (a : OverlayAnnotation) :
  emits dispatch_event (hover_render paintDefaultText measureHtml env r disabled a).
Proof.
  apply emits_try_catch; [apply drawAnnotationText_emits | intros e].
  apply emits_emit. exact I.
Qed.

Lemma hover_render_provider (env : Env) (r : Registry) (disabled : bool)
    (a : OverlayAnnotation) (provider : @AnnotationProvider W) (st : St) :
  let context := renderContext a (hoverDpi env) 0 in
  htmlAnnotation env = None ->
  blank (content a) = false ->
  (3 <= length (convertCoordinates (rect a) (hoverDpi env)))%nat ->
  (width (ctx_rect context) <=? 0)%float = false ->
  (height (ctx_rect context) <=? 0)%float = false ->
  findProviderForAnnotation paintDefaultText r a = Ok provider ->
  hover_render paintDefaultText measureHtml env r disabled a st
  = (Ok tt,
     {| world := fst (render_outcome paintDefaultText disabled provider context
                        (world st));
        overlays := overlays st;
        trace := trace st
                 ++ snd (render_outcome paintDefaultText disabled provider context
                           (world st)) |}).
Proof.
  intros context Hnone Hcontent Hpoints Hwidth Hheight Hresolved.
  unfold hover_render, try_catch.
  rewrite (drawAnnotationText_provider paintDefaultText measureHtml env r disabled a
             (hoverDpi env) 0 st Hnone Hcontent Hpoints Hwidth Hheight).
  now rewrite Hresolved.
Qed.

Lemma hover_render_renderable (env : Env) (r : Registry) (disabled : bool)
    (a : OverlayAnnotation) (provider : @AnnotationProvider W) (st : St) :
  htmlAnnotation env = None ->
  renderable a (hoverDpi env) = true ->
  findProviderForAnnotation paintDefaultText r a = Ok provider ->
  hover_render paintDefaultText measureHtml env r disabled a st
  = (Ok tt,
     {| world := fst (render_outcome paintDefaultText disabled provider
                        (renderContext a (hoverDpi env) 0) (world st));
        overlays := overlays st;
        trace := trace st
                 ++ snd (render_outcome paintDefaultText disabled provider
                           (renderContext a (hoverDpi env) 0) (world st)) |}).
Proof.
  intros Hnone Hrenderable Hresolved. unfold renderable in Hrenderable.
  apply andb_prop in Hrenderable as [Hrenderable Hheight].
  apply andb_prop in Hrenderable as [Hrenderable Hwidth].
  apply andb_prop in Hrenderable as [Hcontent Hpoints].
  apply negb_true_iff in Hcontent, Hwidth, Hheight. apply Nat.leb_le in Hpoints.
  now apply hover_render_provider.
Qed.

(** A move onto another annotation, or off all annotations. *)
Lemma move_changed (env : Env) (r : Registry) (disabled : bool)
    (annotationPaths : JsMap HitTestEntry) (hover : HoverState)
    (event : MouseEvent) (st : St) :
  ready env = true ->
  index_wf annotationPaths ->
  consistent hover ->
  differs (previousHoveredAnnotation hover) (hit isPointInPath env annotationPaths event) = true ->
  match hit isPointInPath env annotationPaths event with
  | None =>
      move env r disabled annotationPaths hover event st
      = (Ok {| previousHoverState := false; previousHoveredAnnotation := None |},
         add_events (teardown env st) [CursorSet false])
  | Some a =>
      exists entry st2 evs,
        In entry (Map_values annotationPaths)
        /\ entry_annotation entry = a
        /\ hover_render paintDefaultText measureHtml env r disabled a
             (add_events (teardown env st)
                [CanvasFill (entry_path entry); CanvasStroke (entry_path entry)])
           = (Ok tt, st2)
        /\ trace st2
           = (trace (teardown env st)
              ++ [CanvasFill (entry_path entry); CanvasStroke (entry_path entry)])
             ++ evs
        /\ Forall dispatch_event evs
        /\ move env r disabled annotationPaths hover event st
           = (Ok {| previousHoverState := true; previousHoveredAnnotation := Some a |},
              add_events st2 [CursorSet true])
  end.
Proof.
  unfold ready, hit, consistent, handleCanvasMouseMove, handleAnnotationHover,
    drawHoverEffect.
  destruct (canvasRef env) as [canvas |]; [| discriminate].
  destruct (overlayCanvasRef env) as [[|] |]; try discriminate.
  intros _ Hwf Hcons. cbv zeta.
  destruct (getAnnotationAtPoint _ _ _ _) as [a |] eqn:Hg; intros Hchanged.
  - destruct (getAnnotationAtPoint_entry _ _ _ _ _ Hg) as (entry & Hin & Ha & _).
    pose proof (index_wf_get _ _ Hwf Hin) as Hget. rewrite Ha in Hget.
    rewrite Hget, Hchanged, orb_true_r. cbn [negb].
    set (st_h := add_events (teardown env st)
                   [CanvasFill (entry_path entry); CanvasStroke (entry_path entry)]).
    destruct (hover_render_returns env r disabled a st_h) as ([] & st2 & Hdraw).
    destruct (hover_render_emits env r disabled a _ _ _ Hdraw)
      as (evs & Htrace & Hevs).
    exists entry, st2, evs. repeat split; try assumption.
    unfold bind at 1. rewrite bind_emit, bind_clearHtmlOverlays.
    unfold bind at 1. rewrite bind_emit, bind_emit, add_events_app. cbn [app].
    change (devicePixelRatio env * 96 / 72 * 72 * 1)%float with (hoverDpi env).
    fold st_h.
    change (try_catch
              (drawAnnotationText paintDefaultText measureHtml env r disabled a
                 (hoverDpi env) 0)
              (fun _ => emit (ConsoleWarn "Error drawing annotation text:")) st_h)
      with (hover_render paintDefaultText measureHtml env r disabled a st_h).
    rewrite Hdraw. reflexivity.
  - destruct (previousHoveredAnnotation hover) as [p |]; [| discriminate].
    cbn [is_hit] in Hcons. rewrite Hcons. cbn [Bool.eqb negb orb].
    unfold bind at 1. rewrite bind_emit, bind_clearHtmlOverlays.
    reflexivity.
Qed.

(** A move onto another annotation that its provider renders: the whole
    run. *)
Lemma move_changed_provider (env : Env) (r : Registry) (disabled : bool)
    (annotationPaths : JsMap HitTestEntry) (hover : HoverState)
    (event : MouseEvent) (st : St) (a : OverlayAnnotation)
    (provider : @AnnotationProvider W) :
  ready env = true ->
  index_wf annotationPaths ->
  consistent hover ->
  hit isPointInPath env annotationPaths event = Some a ->
  differs (previousHoveredAnnotation hover) (Some a) = true ->
  htmlAnnotation env = None ->
  renderable a (hoverDpi env) = true ->
  findProviderForAnnotation paintDefaultText r a = Ok provider ->
  exists entry,
    In entry (Map_values annotationPaths)
    /\ entry_annotation entry = a
    /\ move env r disabled annotationPaths hover event st
       = (Ok {| previousHoverState := true; previousHoveredAnnotation := Some a |},
          {| world := fst (render_outcome paintDefaultText disabled provider
                             (renderContext a (hoverDpi env) 0) (world st));
             overlays := overlays (teardown env st);
             trace := trace (teardown env st)
                      ++ [CanvasFill (entry_path entry); CanvasStroke (entry_path entry)]
                      ++ snd (render_outcome paintDefaultText disabled provider
                                (renderContext a (hoverDpi env) 0) (world st))
                      ++ [CursorSet true] |}).
Proof.
  intros Hready Hwf Hcons Hhit Hchanged Hnone Hrenderable Hresolved.
  pose proof (move_changed env r disabled annotationPaths hover event st
                Hready Hwf Hcons) as Hmove.
  rewrite Hhit in Hmove.
  destruct (Hmove Hchanged) as (entry & st2 & evs & Hin & Ha & Hrender & _ & _ & Hrun).
  exists entry. split; [assumption |]. split; [assumption |].
  rewrite Hrun. f_equal.
  rewrite (hover_render_renderable env r disabled a provider _
             Hnone Hrenderable Hresolved) in Hrender.
  injection Hrender as <-. unfold add_events, teardown. cbn [world overlays trace].
  f_equal. now rewrite <- !app_assoc.
Qed.

(** *** Runs that overlap *)

Lemma bind_bind {A B C : Type} (c : @M W A) (k : A -> @M W B) (h : B -> @M W C)
    (st : St) :
  bind (bind c k) h st = bind c (fun a => bind (k a) h) st.
Proof. unfold bind. now destruct (c st) as [[a | e] st1]. Qed.

Lemma move_split (env : Env) (r : Registry) (disabled : bool)
    (annotationPaths : JsMap HitTestEntry) (hover : HoverState)
    (event : MouseEvent) (st : St) :
  move env r disabled annotationPaths hover event st
  = bind (handleCanvasMouseMove_begin paintDefaultText measureHtml isPointInPath
            env r disabled annotationPaths hover event)
      (fun k => handleCanvasMouseMove_resume k hover) st.
Proof.
  unfold handleCanvasMouseMove, handleCanvasMouseMove_begin,
    handleCanvasMouseMove_resume.
  destruct (canvasRef env) as [canvas |]; [| reflexivity].
  destruct (overlayCanvasRef env) as [[|] |]; [| reflexivity | reflexivity].
  cbv zeta.
  destruct (_ || _); [| reflexivity].
  rewrite !bind_bind, !bind_emit, !bind_bind.
  unfold bind at 1 5.
  match goal with
  | |- context [match ?c ?s with _ => _ end] => destruct (c s) as [[[] | e] st1]
  end; [| reflexivity].
  rewrite !bind_bind. unfold bind at 1 4.
  match goal with
  | |- context [match ?c ?s with _ => _ end] => destruct (c s) as [[[] | e] st2]
  end; reflexivity.
Qed.

Variable promisePending : W -> bool.

Abbreviation burst :=
  (handleMoves_burst paintDefaultText measureHtml isPointInPath promisePending).

(** Without a pending promise, a burst is the sequence of its runs, each
    completed before the next begins. *)
Lemma burst_sequential (env : Env) (r : Registry) (disabled : bool)
    (annotationPaths : JsMap HitTestEntry) :
  (forall w, promisePending w = false) ->
  forall events hover st,
    burst env r disabled annotationPaths hover [] events st
    = moves env r disabled annotationPaths hover events st.
Proof.
  intros Hsettled. induction events as [| event events IH]; intros hover st;
    [reflexivity |].
  assert (Hmoves :
            moves env r disabled annotationPaths hover (event :: events) st
            = match move env r disabled annotationPaths hover event st with
              | (Ok hover1, st1) => moves env r disabled annotationPaths hover1 events st1
              | (Thrown e, st1) => (Thrown e, st1)
              end) by reflexivity.
  rewrite Hmoves, move_split. clear Hmoves.
  cbn [handleMoves_burst]. unfold bind at 1 4.
  destruct (handleCanvasMouseMove_begin _ _ _ _ _ _ _ _ _ st) as [[k | e] st1];
    [| reflexivity].
  unfold bind at 1, get_world at 1. rewrite Hsettled, andb_false_r.
  unfold bind at 1.
  destruct (handleCanvasMouseMove_resume k hover st1) as [[hover1 | e] st2];
    [apply IH | reflexivity].
Qed.

(** C7, as the code has it. When every run of the handler is over before
    the next pointer event is dispatched:  while the annotation under the
    pointer stays the same (or stays none), every move after the first only
    sets the cursor style: no clearing, no highlight, no rendering, no
    overlay, and the hover state is kept.  When the annotation under the
    pointer becomes another annotation, the handler performs one teardown
    (clear the overlay canvas, clear the HTML overlays), then one setup
    (fill and stroke the polygon of the hit entry, call the render entry
    point for the annotation once) and records the new annotation.  When it
    becomes none, the handler performs the teardown alone.  A burst of
    events in which no promise is pending is such a sequence of completed
    runs. *)
Theorem pointer_moves_redraw_on_change (env : Env) (r : Registry) (disabled : bool)
    (annotationPaths : JsMap HitTestEntry) (hover : HoverState) (st : St) :
  (forall first rest,
      (forall e, In e rest ->
         differs (hit isPointInPath env annotationPaths e) (hit isPointInPath env annotationPaths first) = false) ->
      exists hover1 st1,
        move env r disabled annotationPaths hover first st = (Ok hover1, st1)
        /\ moves env r disabled annotationPaths hover (first :: rest) st
           = (Ok hover1,
              add_events st1
                (cursor_events env (hit isPointInPath env annotationPaths first) (length rest))))
  /\ (forall event,
        ready env = true ->
        index_wf annotationPaths ->
        consistent hover ->
        differs (previousHoveredAnnotation hover) (hit isPointInPath env annotationPaths event) = true ->
        match hit isPointInPath env annotationPaths event with
        | None =>
            move env r disabled annotationPaths hover event st
            = (Ok {| previousHoverState := false; previousHoveredAnnotation := None |},
               add_events (teardown env st) [CursorSet false])
        | Some a =>
            exists entry st2 evs,
              In entry (Map_values annotationPaths)
              /\ entry_annotation entry = a
              /\ hover_render paintDefaultText measureHtml env r disabled a
                   (add_events (teardown env st)
                      [CanvasFill (entry_path entry); CanvasStroke (entry_path entry)])
                 = (Ok tt, st2)
              /\ trace st2
                 = (trace (teardown env st)
                    ++ [CanvasFill (entry_path entry); CanvasStroke (entry_path entry)])
                   ++ evs
              /\ Forall dispatch_event evs
              /\ move env r disabled annotationPaths hover event st
                 = (Ok {| previousHoverState := true;
                          previousHoveredAnnotation := Some a |},
                    add_events st2 [CursorSet true])
        end)
  /\ ((forall w, promisePending w = false) ->
      forall events,
        burst env r disabled annotationPaths hover [] events st
        = moves env r disabled annotationPaths hover events st).
Proof.
  split; [| split].
  - intros first rest Hsame.
    destruct (move_returns env r disabled annotationPaths hover first st)
      as (hover1 & st1 & Hfirst).
    exists hover1, st1. split; [assumption |].
    cbn [handleMoves]. unfold bind at 1. rewrite Hfirst.
    destruct (ready env) eqn:Hready.
    + apply moves_unchanged; [| assumption].
      now apply (move_tracks env r disabled annotationPaths hover hover1 first st st1).
    + rewrite moves_not_ready by assumption.
      unfold cursor_events. rewrite Hready. now rewrite add_events_nil.
  - intros event. apply move_changed.
  - intros Hsettled events. now apply burst_sequential.
Qed.

End HoverFacts.

(** ** Evaluations on concrete inputs *)

Lemma unregisterAnnotationProvider_rejects_witness :
  exists msg,
    unregisterAnnotationProvider "highlight" registry0 = (registry0, [ConsoleWarn msg]).
Proof.
  exact (proj2 (unregisterAnnotationProvider_rejects registry0 "highlight") eq_refl).
Defined.

Lemma registerAnnotationProvider_activates_witness :
  isProviderActive "json-debug-provider"
    (registerAnnotationProvider (accepting "JSON Debug Provider" Normal) registry0)
  = true
  /\ Map_keys (annotationProviders
                 (registerAnnotationProvider (accepting "JSON Debug Provider" Normal)
                    registry0))
     = ["default"; "json-debug-provider"]
  /\ resolved_id
       (findProviderForAnnotation paint0
          (registerAnnotationProvider (accepting "JSON Debug Provider" Normal) registry0)
          square_annotation)
     = Some "json-debug-provider".
Proof.
  destruct (registerAnnotationProvider_activates paint0
              (accepting "JSON Debug Provider" Normal) registry0)
    as (_ & Hactive & _ & Hkeys & _ & _ & Hresolution).
  split; [exact Hactive |]. split; [exact Hkeys |].
  destruct Hresolution as (_ & _ & Hresolved); [vm_compute; discriminate |].
  rewrite (Hresolved square_annotation [defaultProvider paint0] [] eq_refl);
    [reflexivity | | reflexivity].
  intros q [<- | []] Heligible. vm_compute in Heligible. discriminate.
Defined.

(** C10, the claim as stated fails. A provider registered without an id
    under the name [Default] gets the id ['default']: it is stored and
    active, it accepts the annotation, and resolution never consults it.
    The annotation resolves to the built-in default provider, and the
    registered [render], which would throw, is not called. *)
Lemma registered_default_not_resolved :
  registered_id (accepting "Default" (Throws "boom")) = "default"
  /\ isProviderActive "default" registry_named_default = true
  /\ option_map name (getAnnotationProvider "default" registry_named_default)
     = Some "Default"
  /\ opt_canHandle (accepting "Default" (Throws "boom")) square_annotation = Ok true
  /\ resolved_name
       (findProviderForAnnotation paint0 registry_named_default square_annotation)
     = Some "Default Text Renderer"
  /\ drawAnnotationText paint0 measure0 env0 registry_named_default false
       square_annotation 96 0 st0
     = (Ok tt, {| world := tt; overlays := []; trace := [RenderCall "default"] |}).
Proof. repeat split; vm_compute; reflexivity. Qed.

(** *** Toggling a provider off *)

Lemma registry_highlight_active : "highlight" ∈ activeProviders registry_highlight.
Proof. apply (bool_decide_eq_true_1 _). vm_compute. reflexivity. Qed.

Lemma toggleProvider_off_unregisters_witness :
  Map_get "highlight"
    (annotationProviders (fst (toggleProvider "highlight" registry_highlight)))
  = None
  /\ toggleProvider "highlight" (fst (toggleProvider "highlight" registry_highlight))
     = (fst (toggleProvider "highlight" registry_highlight), []).
Proof.
  destruct (toggleProvider_off_unregisters registry_highlight "highlight"
              ltac:(discriminate) registry_highlight_active eq_refl)
    as (Hget & _ & _ & Hagain).
  split; [exact Hget | exact Hagain].
Defined.

(** The registered ids before the toggle, after it, and after toggling
    again. *)
Example toggleProvider_off_then_on :
  Map_keys (annotationProviders registry_highlight) = ["default"; "highlight"]
  /\ Map_keys (annotationProviders
                 (fst (toggleProvider "highlight" registry_highlight)))
     = ["default"]
  /\ Map_keys (annotationProviders
                 (fst (toggleProvider "highlight"
                         (fst (toggleProvider "highlight" registry_highlight)))))
     = ["default"].
Proof. repeat split; vm_compute; reflexivity. Qed.

(** *** Resolution and priorities *)

(** C1, the claim as stated fails. Two active providers accept the
    annotation; the one registered second has the higher priority.  The
    specification's policy picks it, the code picks the one registered
    first. *)
Lemma findProviderForAnnotation_ignores_priority :
  resolved_id (findProviderForAnnotation paint0 registry_two square_annotation)
  = Some "first"
  /\ resolved_id (resolve_spec paint0 priority_two registry_two square_annotation)
     = Some "second".
Proof. split; vm_compute; reflexivity. Qed.

(** *** Fallback rendering *)

Lemma drawAnnotationText_fallback_once_witness :
  drawAnnotationText paint0 measure0 env0 registry_throwing false
    square_annotation 96 0 st0
  = (Ok tt,
     {| world := tt;
        overlays := [];
        trace := [RenderCall "throwing-provider";
                  ConsoleWarn "Error rendering annotation with provider throwing-provider:";
                  RenderCall "default"] |}).
Proof.
  refine (proj1 (drawAnnotationText_fallback_once paint0 measure0 env0
                   registry_throwing square_annotation 96%float 0%Z st0 st0 "boom" tt
                   _ eq_refl _ eq_refl eq_refl eq_refl eq_refl eq_refl _));
    [vm_compute; lia | vm_compute; discriminate].
Defined.

(** C2, the claim as stated fails. A registered, active provider whose
    [canHandle] throws: resolution runs before the [try] of the render entry
    point, so the exception reaches the caller. *)
Lemma canHandle_exception_escapes :
  drawAnnotationText paint0 measure0 env0 registry_picky false square_annotation 96 0 st0
  = (Thrown "cannot decide", st0).
Proof. vm_compute. reflexivity. Qed.

(** *** Degenerate geometry *)




(** *** Hovering *)

Lemma pointer_moves_redraw_on_change_witness :
  (exists hover1 st1,
      handleCanvasMouseMove paint0 measure0 rayCast_isPointInPath env0 registry0 false
        square_index initialHoverState inside st0 = (Ok hover1, st1)
      /\ handleMoves paint0 measure0 rayCast_isPointInPath env0 registry0 false
           square_index initialHoverState [inside; inside; inside] st0
         = (Ok hover1, add_events st1 [CursorSet true; CursorSet true]))
  /\ handleCanvasMouseMove paint0 measure0 rayCast_isPointInPath env0 registry0 false
       square_index hover_on_square outside st0
     = (Ok initialHoverState,
        add_events (teardown env0 st0) [CursorSet false]).
Proof.
  destruct (pointer_moves_redraw_on_change paint0 measure0 rayCast_isPointInPath
              (fun _ => false)
              env0 registry0 false square_index initialHoverState st0) as [Hsame _].
  destruct (pointer_moves_redraw_on_change paint0 measure0 rayCast_isPointInPath
              (fun _ => false)
              env0 registry0 false square_index hover_on_square st0)
    as [_ [Hchange _]].
  split.
  - apply (Hsame inside [inside; inside]).
    intros e [<- | [<- | []]]; reflexivity.
  - exact (Hchange outside eq_refl (drawAnnotations_wf [square_annotation] 0 96)
             eq_refl eq_refl).
Defined.

(** C7, the claim as stated fails, twice.

    The pointer leaves the hovered annotation for a place with no
    annotation: the hit-tested annotation changes, the handler clears the
    canvas and the overlays, and performs no setup: nothing is filled,
    stroked or rendered.

    Two moves over the same annotation, the second one dispatched while the
    first run of the handler is suspended on the promise of the provider:
    the hover state is written only after the promise settles, so the second
    run sees the old state, and clears, highlights and renders again.  The
    same two moves, each run to its end before the next, render once. *)
Lemma redraw_not_suppressed :
  (differs (previousHoveredAnnotation hover_on_square)
     (hit rayCast_isPointInPath env0 square_index outside) = true
   /\ handleCanvasMouseMove paint0 measure0 rayCast_isPointInPath env0 registry0 false
        square_index hover_on_square outside st0
      = (Ok initialHoverState,
         {| world := tt; overlays := [];
            trace := [CanvasClearRect; OverlaysCleared 0; CursorSet false] |}))
  /\ (hit rayCast_isPointInPath env0 square_index inside = Some square_annotation
      /\ handleMoves_burst paint1 measure0 rayCast_isPointInPath (fun pending => pending)
           env0 registry_slow false square_index initialHoverState [] [inside; inside] st1
         = (Ok hover_on_square,
            {| world := true; overlays := [];
               trace := [CanvasClearRect; OverlaysCleared 0;
                         CanvasFill [MoveTo 0 0; LineTo 96 0; LineTo 96 96; LineTo 0 96; ClosePath];
                         CanvasStroke [MoveTo 0 0; LineTo 96 0; LineTo 96 96; LineTo 0 96; ClosePath];
                         RenderCall "slow";
                         CanvasClearRect; OverlaysCleared 0;
                         CanvasFill [MoveTo 0 0; LineTo 96 0; LineTo 96 96; LineTo 0 96; ClosePath];
                         CanvasStroke [MoveTo 0 0; LineTo 96 0; LineTo 96 96; LineTo 0 96; ClosePath];
                         RenderCall "slow";
                         CursorSet true; CursorSet true] |})
      /\ handleMoves paint1 measure0 rayCast_isPointInPath
           env0 registry_slow false square_index initialHoverState [inside; inside] st1
         = (Ok hover_on_square,
            {| world := true; overlays := [];
               trace := [CanvasClearRect; OverlaysCleared 0;
                         CanvasFill [MoveTo 0 0; LineTo 96 0; LineTo 96 96; LineTo 0 96; ClosePath];
                         CanvasStroke [MoveTo 0 0; LineTo 96 0; LineTo 96 96; LineTo 0 96; ClosePath];
                         RenderCall "slow";
                         CursorSet true; CursorSet true] |})).
Proof. repeat split; vm_compute; reflexivity. Qed.

(** Entering the annotation from the idle state: one teardown, one setup. *)
Example entering_annotation :
  handleCanvasMouseMove paint0 measure0 rayCast_isPointInPath env0 registry0 false
    square_index initialHoverState inside st0
  = (Ok hover_on_square,
     {| world := tt; overlays := [];
        trace := [CanvasClearRect; OverlaysCleared 0;
                  CanvasFill [MoveTo 0 0; LineTo 96 0; LineTo 96 96; LineTo 0 96; ClosePath];
                  CanvasStroke [MoveTo 0 0; LineTo 96 0; LineTo 96 96; LineTo 0 96; ClosePath];
                  RenderCall "default";
                  CursorSet true] |}).
Proof. vm_compute. reflexivity. Qed.

(** ** The earlier revision: resolution by priority *)

Section LegacyFacts.

Context {W : Type}.
Variable paintDefaultText : AnnotationRenderContext -> W -> Completion * W.

Abbreviation Provider := (@Legacy.AnnotationProvider W).
Abbreviation prio := (@Legacy.priority_or_0 W).

Lemma sort_insert_In (p x : Provider) (sorted : list Provider) :
  In x (Legacy.sort_insert p sorted) <-> x = p \/ In x sorted.
Proof.
  induction sorted as [| q rest IH]; simpl.
  - split; [intros [E | []]; now left | intros [E | []]; now left].
  - destruct (prio q <? prio p)%Z; simpl.
    + split; [intros [E | H]; [now left | now right] | intros [E | H]; [now left | now right]].
    + rewrite IH. tauto.
Qed.

(** Inserting [x] puts it behind the providers of at least its priority. *)
Lemma sort_insert_keeps_split (x p : Provider) (lo : list Provider) :
  forall hi,
    Forall (fun q => (prio p <= prio q)%Z) hi ->
    exists hi' lo',
      Legacy.sort_insert x (hi ++ p :: lo) = hi' ++ p :: lo'
      /\ (forall q, In q hi' -> In q hi \/ (q = x /\ (prio p < prio x)%Z)).
Proof.
  induction hi as [| q hi IH]; intros Hhi; cbn [app Legacy.sort_insert].
  - destruct (Z.ltb_spec (prio p) (prio x)) as [Hlt | Hge].
    + exists [x], lo. split; [reflexivity |].
      intros q [<- | []]. right. now split.
    + exists [], (Legacy.sort_insert x lo). split; [reflexivity |]. intros q [].
  - apply List.Forall_cons_iff in Hhi as [Hq Hhi].
    destruct (Z.ltb_spec (prio q) (prio x)) as [Hlt | Hge].
    + exists (x :: q :: hi), lo. split; [reflexivity |].
      intros y [<- | Hy]; [right; split; [reflexivity | lia] | now left].
    + destruct (IH Hhi) as (hi' & lo' & -> & Hin).
      exists (q :: hi'), lo'. split; [reflexivity |].
      intros y [<- | Hy]; [left; now left |].
      destruct (Hin y Hy) as [H | H]; [left; now right | now right].
Qed.

Lemma sort_insert_split (p : Provider) (sorted : list Provider) :
  exists hi lo,
    Legacy.sort_insert p sorted = hi ++ p :: lo
    /\ Forall (fun q => In q sorted /\ (prio p <= prio q)%Z) hi.
Proof.
  induction sorted as [| q rest IH]; cbn [Legacy.sort_insert].
  - exists [], []. split; [reflexivity | constructor].
  - destruct (Z.ltb_spec (prio q) (prio p)) as [Hlt | Hge].
    + exists [], (q :: rest). split; [reflexivity | constructor].
    + destruct IH as (hi & lo & -> & Hhi).
      exists (q :: hi), lo. split; [reflexivity |].
      constructor; [split; [now left | assumption] |].
      eapply List.Forall_impl; [| exact Hhi]. cbn. intros y [Hy Hle].
      split; [now right | assumption].
Qed.

Lemma Array_sort_In (x : Provider) (providers : list Provider) :
  forall sorted,
    In x (fold_left (fun sorted p => Legacy.sort_insert p sorted) providers sorted)
    <-> In x providers \/ In x sorted.
Proof.
  induction providers as [| p providers IH]; intros sorted; cbn [fold_left].
  - cbn [In]. tauto.
  - rewrite IH, sort_insert_In. cbn [In]. split.
    + intros [H | [-> | H]]; [left; now right | left; now left | now right].
    + intros [[<- | H] | H]; [right; now left | now left | right; now right].
Qed.

(** The providers sorted in front of [p]: those registered before it with
    at least its priority, and those registered after it with a higher
    one. *)
Lemma Array_sort_split (rejects : Provider -> Prop) (p : Provider)
    (before after : list Provider) :
  (forall q, In q before -> (prio p <= prio q)%Z -> rejects q) ->
  (forall q, In q after -> (prio p < prio q)%Z -> rejects q) ->
  exists hi lo,
    Legacy.Array_sort (before ++ p :: after) = hi ++ p :: lo
    /\ Forall rejects hi.
Proof.
  intros Hbefore Hafter. unfold Legacy.Array_sort.
  rewrite fold_left_app. cbn [fold_left].
  destruct (sort_insert_split p
              (fold_left (fun sorted p => Legacy.sort_insert p sorted) before []))
    as (hi & lo & -> & Hhi).
  assert (Hinv : Forall (fun q => (prio p <= prio q)%Z /\ rejects q) hi).
  { eapply List.Forall_impl; [| exact Hhi]. cbn. intros q [Hq Hle].
    split; [assumption |]. apply Hbefore; [| assumption].
    apply Array_sort_In in Hq as [Hq | []]. assumption. }
  clear Hhi Hbefore. revert hi lo Hinv.
  induction after as [| x after IH]; intros hi lo Hinv; cbn [fold_left].
  - exists hi, lo. split; [reflexivity |].
    eapply List.Forall_impl; [| exact Hinv]. cbn. tauto.
  - destruct (sort_insert_keeps_split x p lo hi) as (hi' & lo' & -> & Hin).
    { eapply List.Forall_impl; [| exact Hinv]. cbn. tauto. }
    apply IH.
    + intros q Hq. apply Hafter. now right.
    + apply List.Forall_forall. intros q Hq.
      rewrite List.Forall_forall in Hinv.
      destruct (Hin q Hq) as [H | [-> Hlt]]; [now apply Hinv |].
      split; [lia |]. apply Hafter; [now left | assumption].
Qed.

Lemma legacy_findProvider_loop_split (annotation : OverlayAnnotation)
    (p : Provider) (lo : list Provider) :
  Legacy.canHandle p annotation = Ok true ->
  forall hi,
    Forall (fun q => Legacy.canHandle q annotation = Ok false) hi ->
    Legacy.findProvider_loop paintDefaultText annotation (hi ++ p :: lo) = Ok p.
Proof.
  intros Hp. induction 1 as [| q hi Hq _ IH]; cbn [app Legacy.findProvider_loop].
  - now rewrite Hp.
  - now rewrite Hq.
Qed.

Lemma legacy_findProvider_loop_none (annotation : OverlayAnnotation)
    (providers : list Provider) :
  Forall (fun q => Legacy.canHandle q annotation = Ok false) providers ->
  Legacy.findProvider_loop paintDefaultText annotation providers
  = Ok (Legacy.defaultProvider paintDefaultText).
Proof.
  induction 1 as [| q providers Hq _ IH]; cbn [Legacy.findProvider_loop];
    [reflexivity | now rewrite Hq].
Qed.

(** The earlier revision resolves by priority: of the registered providers
    that accept the annotation it returns the one with the highest priority,
    the one registered first among equals, and the default provider when
    none accepts.  A provider is asked only when no provider sorted in front
    of it has accepted: the providers registered before [p] with at least
    its priority and those registered after it with a higher one must have
    answered no; what the others answer, or whether they answer at all,
    does not matter. *)
Theorem legacy_findProviderForAnnotation_priority_order
    (annotationProviders : JsMap Provider) (annotation : OverlayAnnotation) :
  (Forall (fun q => Legacy.canHandle q annotation = Ok false)
     (Map_values annotationProviders) ->
   Legacy.findProviderForAnnotation paintDefaultText annotationProviders annotation
   = Ok (Legacy.defaultProvider paintDefaultText))
  /\ (forall before p after,
        Map_values annotationProviders = before ++ p :: after ->
        Legacy.canHandle p annotation = Ok true ->
        (forall q, In q before -> (prio p <= prio q)%Z ->
           Legacy.canHandle q annotation = Ok false) ->
        (forall q, In q after -> (prio p < prio q)%Z ->
           Legacy.canHandle q annotation = Ok false) ->
        Legacy.findProviderForAnnotation paintDefaultText annotationProviders annotation
        = Ok p).
Proof.
  unfold Legacy.findProviderForAnnotation, Legacy.getAllProviders. split.
  - intros Hnone. apply legacy_findProvider_loop_none.
    apply List.Forall_forall. intros q Hq. rewrite List.Forall_forall in Hnone.
    apply Hnone. unfold Legacy.Array_sort in Hq.
    apply Array_sort_In in Hq as [Hq | []]. assumption.
  - intros before p after -> Hp Hbefore Hafter.
    destruct (Array_sort_split
                (fun q => Legacy.canHandle q annotation = Ok false)
                p before after Hbefore Hafter) as (hi & lo & -> & Hhi).
    now apply legacy_findProvider_loop_split.
Qed.

(** Unregistering in the earlier revision rejects ['default'] and ignores
    unknown ids in the same way. *)
Lemma legacy_unregisterAnnotationProvider_rejects
    (annotationProviders : JsMap Provider) (id' : string) :
  Legacy.unregisterAnnotationProvider "default" annotationProviders
  = (annotationProviders,
     [ConsoleWarn "Cannot unregister the default annotation provider"])
  /\ (Map_has id' annotationProviders = false ->
      exists msg,
        Legacy.unregisterAnnotationProvider id' annotationProviders
        = (annotationProviders, [ConsoleWarn msg])).
Proof.
  split; [reflexivity |].
  intros Hunknown. unfold Legacy.unregisterAnnotationProvider.
  destruct (String.eqb id' "default"); [eauto |].
  rewrite Hunknown, (Map_delete_absent _ _ Hunknown). eauto.
Qed.

End LegacyFacts.

(** Two accepting providers, priority 5 registered first and priority 15
    registered second, in the earlier revision: the second is resolved. *)
Example legacy_resolves_by_priority :
  match Legacy.findProviderForAnnotation paint0 legacy_two square_annotation with
  | Ok p => Some (Legacy.id p)
  | Thrown _ => None
  end = Some "second".
Proof. vm_compute. reflexivity. Qed.

(** ** The polygon path *)

Lemma createAnnotationPath_loop_lines (points : list Point) :
  forall i path,
    createAnnotationPath_loop points (S i) path
    = path ++ map (fun p => LineTo (fst p) (snd p)) points.
Proof.
  induction points as [| [x y] points IH]; intros i path;
    cbn [createAnnotationPath_loop map].
  - now rewrite app_nil_r.
  - rewrite IH. cbn [Nat.eqb fst snd]. now rewrite <- app_assoc.
Qed.

Lemma path_vertices_app (p q : Path2D) :
  path_vertices (p ++ q) = path_vertices p ++ path_vertices q.
Proof.
  induction p as [| [x y | x y |] p IH]; cbn [path_vertices app];
    [reflexivity | | | assumption]; now rewrite IH.
Qed.

Lemma path_vertices_lines (points : list Point) :
  path_vertices (map (fun p => LineTo (fst p) (snd p)) points) = flatten_points points.
Proof.
  unfold flatten_points.
  induction points as [| [x y] points IH]; cbn [map path_vertices flat_map fst snd app];
    [reflexivity | now rewrite IH].
Qed.

Lemma flatten_pairs_from (d : float) :
  forall n pre l,
    length l = (2 * n)%nat ->
    flatten_points (pairs_from (pre ++ l) d (length pre) n)
    = map (fun v => (v * d)%float) l.
Proof.
  induction n as [| n IH]; intros pre l Hlen.
  - destruct l; [reflexivity | discriminate].
  - destruct l as [| x [| y l]]; [discriminate | simpl in Hlen; lia |].
    cbn [pairs_from]. unfold flatten_points. cbn [flat_map fst snd app map].
    fold (flatten_points (pairs_from (pre ++ x :: y :: l) d (length pre + 2) n)).
    rewrite (js_index_Some (pre ++ x :: y :: l) (length pre) x)
      by (now apply list_lookup_middle).
    replace (Z.of_nat (length pre) + 1)%Z with (Z.of_nat (length (pre ++ [x])))
      by (rewrite length_app; simpl; lia).
    rewrite (js_index_Some (pre ++ x :: y :: l) (length (pre ++ [x])) y)
      by (change (pre ++ x :: y :: l) with (pre ++ [x] ++ y :: l);
          rewrite app_assoc; now apply list_lookup_middle).
    do 2 f_equal.
    change (pre ++ x :: y :: l) with (pre ++ [x; y] ++ l). rewrite app_assoc.
    replace (length pre + 2)%nat with (length (pre ++ [x; y]))
      by (rewrite length_app; reflexivity).
    apply IH. simpl in Hlen. lia.
Qed.

(** X3. The path of an annotation is the closed polygon through its
    transformed points: a move to the first point, a line to each of the
    others in order, and a close (just the close, when there is no point).
    For a [rect] of x-y pairs the vertices of the path are the entries of
    [rect], each times the effective DPI, in order. *)
Theorem createAnnotationPath_polygon (rect : list float) (effectiveDpi : float) :
  createAnnotationPath rect effectiveDpi
  = polygon_path (convertCoordinates rect effectiveDpi)
  /\ (Nat.even (length rect) = true ->
      path_vertices (createAnnotationPath rect effectiveDpi)
      = map (fun v => (v * effectiveDpi)%float) rect).
Proof.
  assert (Hshape : createAnnotationPath rect effectiveDpi
                   = polygon_path (convertCoordinates rect effectiveDpi)).
  { unfold createAnnotationPath, polygon_path.
    destruct (convertCoordinates rect effectiveDpi) as [| [x y] points];
      [reflexivity |].
    cbn [createAnnotationPath_loop Nat.eqb app].
    now rewrite createAnnotationPath_loop_lines. }
  split; [exact Hshape |].
  intros Heven. rewrite Hshape, convertCoordinates_pairs.
  apply Nat.even_spec in Heven as [n Hn].
  rewrite Hn, Nat.div2_succ_double.
  transitivity (flatten_points (pairs_from rect effectiveDpi 0 n)).
  - unfold polygon_path.
    destruct (pairs_from rect effectiveDpi 0 n) as [| [x y] points]; [reflexivity |].
    cbn [path_vertices]. rewrite path_vertices_app, path_vertices_lines.
    cbn [path_vertices]. now rewrite app_nil_r.
  - apply (flatten_pairs_from effectiveDpi n [] rect Hn).
Qed.

Example createAnnotationPath_unit_square :
  createAnnotationPath unit_square 96
  = [MoveTo 0 0; LineTo 96 0; LineTo 96 96; LineTo 0 96; ClosePath]%float.
Proof. reflexivity. Qed.

(** ** Rounding of binary64 products, and the transform applied twice *)

Section ProductRounding.

Local Open Scope Z_scope.

Lemma digits2_pos_bounds (p : positive) :
  2 ^ (Zpos (digits2_pos p) - 1) <= Zpos p < 2 ^ Zpos (digits2_pos p).
Proof.
  induction p as [p IH | p IH |]; cbn [digits2_pos].
  - rewrite Pos2Z.inj_succ.
    replace (Z.succ (Z.pos (digits2_pos p)) - 1) with (Z.succ (Z.pos (digits2_pos p) - 1))
      by lia.
    rewrite !Z.pow_succ_r by lia. lia.
  - rewrite Pos2Z.inj_succ.
    replace (Z.succ (Z.pos (digits2_pos p)) - 1) with (Z.succ (Z.pos (digits2_pos p) - 1))
      by lia.
    rewrite !Z.pow_succ_r by lia. lia.
  - cbn. lia.
Qed.

Lemma digits2_pos_unique (p : positive) (d : Z) :
  2 ^ (d - 1) <= Zpos p < 2 ^ d -> Zpos (digits2_pos p) = d.
Proof.
  intros [Hlo Hhi]. pose proof (digits2_pos_bounds p) as [Hlo' Hhi'].
  assert (0 < d).
  { destruct (Z.ltb_spec 0 d) as [| Hd]; [assumption |].
    destruct (Z.eq_dec d 0) as [-> | Hd0]; [cbn in Hhi; lia |].
    rewrite Z.pow_neg_r in Hhi by lia. lia. }
  assert (Zpos (digits2_pos p) - 1 < d)
    by (apply (Z.pow_lt_mono_r_iff 2); lia).
  assert (d - 1 < Zpos (digits2_pos p))
    by (apply (Z.pow_lt_mono_r_iff 2); lia).
  lia.
Qed.

(** What [n] one-bit shifts of [m] leave: the quotient, the last bit
    shifted out, and whether anything below it was set. *)
Definition shr_inv (m n : Z) (mrs : shr_record) : Prop :=
  exists t,
    0 <= t < 2 ^ (n - 1)
    /\ m = shr_m mrs * 2 ^ n + (if shr_r mrs then 2 ^ (n - 1) else 0) + t
    /\ (shr_s mrs = true <-> 0 < t)
    /\ 0 <= shr_m mrs.

Lemma shr_1_spec (mrs : shr_record) :
  0 <= shr_m mrs ->
  shr_1 mrs
  = {| shr_m := Z.div2 (shr_m mrs); shr_r := Z.odd (shr_m mrs);
       shr_s := shr_r mrs || shr_s mrs |}.
Proof.
  destruct mrs as [[| [p | p |] | p] r s]; cbn; intros H; try reflexivity; lia.
Qed.

Lemma shr_inv_first (m : Z) :
  0 <= m -> shr_inv m 1 (shr_1 {| shr_m := m; shr_r := false; shr_s := false |}).
Proof.
  intros Hm. rewrite shr_1_spec by assumption. cbn [shr_m shr_r shr_s orb].
  exists 0. cbn [shr_m shr_r shr_s orb]. pose proof (Zdiv2_odd_eqn m) as Hodd. pose proof (Z.div2_nonneg m).
  change (2 ^ (1 - 1)) with 1. change (2 ^ 1) with 2.
  split; [lia |]. split; [revert Hodd; destruct (Z.odd m); lia |].
  split; [split; [discriminate | lia] | lia].
Qed.

Lemma shr_inv_step (m n : Z) (mrs : shr_record) :
  1 <= n -> shr_inv m n mrs -> shr_inv m (n + 1) (shr_1 mrs).
Proof.
  intros Hn (t & Ht & Hm & Hs & Hq). rewrite shr_1_spec by assumption.
  cbn [shr_m shr_r shr_s].
  exists ((if shr_r mrs then 2 ^ (n - 1) else 0) + t).
  cbn [shr_m shr_r shr_s].
  replace (n + 1 - 1) with n by lia.
  assert (Hpow : 2 ^ n = 2 * 2 ^ (n - 1)).
  { replace n with (Z.succ (n - 1)) at 1 by lia. apply Z.pow_succ_r. lia. }
  assert (Hpow' : 2 ^ (n + 1) = 2 * 2 ^ n) by (apply Z.pow_succ_r; lia).
  assert (0 < 2 ^ (n - 1)) by (apply Z.pow_pos_nonneg; lia).
  pose proof (Zdiv2_odd_eqn (shr_m mrs)) as Hodd.
  pose proof (Z.div2_nonneg (shr_m mrs)) as Hdiv.
  split; [destruct (shr_r mrs); lia |].
  split.
  { rewrite Hpow'. set (h := 2 ^ n) in *. set (q := Z.div2 (shr_m mrs)) in *.
    revert Hodd Hm. destruct (Z.odd (shr_m mrs)), (shr_r mrs); nia. }
  split; [| lia].
  rewrite orb_true_iff. destruct (shr_r mrs); [split; [lia | now left] |].
  rewrite Hs. split; [intros [? | ?]; [discriminate | lia] | intros ?; right; lia].
Qed.

Lemma shr_inv_iter (m : Z) (p : positive) :
  forall n mrs, 1 <= n -> shr_inv m n mrs -> shr_inv m (n + Zpos p) (SpecFloat.iter_pos shr_1 p mrs).
Proof.
  induction p as [p IH | p IH |]; intros n mrs Hn Hinv; cbn [SpecFloat.iter_pos].
  - replace (n + Z.pos p~1) with (((n + 1) + Zpos p) + Zpos p) by lia.
    apply IH; [lia |]. apply IH; [lia |]. now apply shr_inv_step.
  - replace (n + Z.pos p~0) with ((n + Zpos p) + Zpos p) by lia.
    apply IH; [lia |]. now apply IH.
  - now apply shr_inv_step.
Qed.

Lemma shr_inv_shift (m : Z) (p : positive) :
  0 <= m ->
  shr_inv m (Zpos p) (SpecFloat.iter_pos shr_1 p {| shr_m := m; shr_r := false; shr_s := false |}).
Proof.
  intros Hm. destruct p as [p | p |]; cbn [SpecFloat.iter_pos].
  - replace (Z.pos p~1) with ((1 + Zpos p) + Zpos p) by lia.
    apply shr_inv_iter; [lia |]. apply shr_inv_iter; [lia |]. now apply shr_inv_first.
  - replace (Z.pos p~0) with (Zpos p + Zpos p) by lia.
    apply shr_inv_iter; [lia |].
    clear -Hm. induction p as [p IH | p IH |]; cbn [SpecFloat.iter_pos].
    + replace (Z.pos p~1) with ((1 + Zpos p) + Zpos p) by lia.
      apply shr_inv_iter; [lia |]. apply shr_inv_iter; [lia |]. now apply shr_inv_first.
    + replace (Z.pos p~0) with (Zpos p + Zpos p) by lia.
      apply shr_inv_iter; [lia |]. exact IH.
    + now apply shr_inv_first.
  - now apply shr_inv_first.
Qed.

Lemma round_nearest_even_inv (m n : Z) (mrs : shr_record) :
  1 <= n -> shr_inv m n mrs ->
  let m2 := round_nearest_even (shr_m mrs) (loc_of_shr_record mrs) in
  shr_m mrs <= m2 <= shr_m mrs + 1
  /\ 2 * Z.abs (m2 * 2 ^ n - m) <= 2 ^ n
  /\ shr_m mrs * 2 ^ n <= m < (shr_m mrs + 1) * 2 ^ n.
Proof.
  intros Hn (t & Ht & Hm & Hs & Hq).
  assert (Hpow : 2 ^ n = 2 * 2 ^ (n - 1)).
  { replace n with (Z.succ (n - 1)) at 1 by lia. apply Z.pow_succ_r. lia. }
  assert (0 < 2 ^ (n - 1)) by (apply Z.pow_pos_nonneg; lia).
  destruct mrs as [q r s]. cbn [shr_m shr_r shr_s] in *.
  rewrite Hpow in *. set (h := 2 ^ (n - 1)) in *.
  destruct r, s; cbn [loc_of_shr_record round_nearest_even].
  - assert (0 < t) by now apply Hs. nia.
  - assert (t = 0) by (destruct (Z.ltb_spec 0 t) as [Hp | ?]; [apply Hs in Hp; discriminate | lia]).
    destruct (Z.even q); nia.
  - assert (0 < t) by now apply Hs. nia.
  - assert (t = 0) by (destruct (Z.ltb_spec 0 t) as [Hp | ?]; [apply Hs in Hp; discriminate | lia]).
    nia.
Qed.

(** The product of two normal binary64 values whose exponents keep it in
    the normal range: the result is normal, its exponent is the sum of the
    exponents plus the bits dropped, and it is off the exact product by at
    most half a unit in the last place. *)
Lemma SF64mul_finite (sx sy : bool) (mx my : positive) (ex ey : Z) :
  Zpos (digits2_pos mx) = 53 ->
  Zpos (digits2_pos my) = 53 ->
  -1126 <= ex + ey <= 917 ->
  exists m' n,
    SF64mul (S754_finite sx mx ex) (S754_finite sy my ey)
    = S754_finite (xorb sx sy) m' (ex + ey + n)
    /\ Zpos (digits2_pos m') = 53
    /\ 52 <= n <= 54
    /\ 2 ^ 53 * Z.abs (Zpos m' * 2 ^ n - Zpos mx * Zpos my) <= Zpos mx * Zpos my.
Proof.
  intros Hdx Hdy He.
  pose proof (digits2_pos_bounds mx) as Hmx. rewrite Hdx in Hmx.
  pose proof (digits2_pos_bounds my) as Hmy. rewrite Hdy in Hmy.
  change (2 ^ (53 - 1)) with 4503599627370496 in *.
  change (2 ^ 53) with 9007199254740992 in *.
  set (m := Zpos (mx * my)).
  assert (Hm : m = Zpos mx * Zpos my) by reflexivity.
  pose proof (digits2_pos_bounds (mx * my)) as Hd. fold m in Hd.
  set (d := Zpos (digits2_pos (mx * my))) in *.
  assert (Hmlo : 2 ^ 104 <= m)
    by (change (2 ^ 104) with (4503599627370496 * 4503599627370496); nia).
  assert (Hmhi : m < 2 ^ 106)
    by (change (2 ^ 106) with (9007199254740992 * 9007199254740992); nia).
  assert (Hd105 : 104 < d) by (apply (Z.pow_lt_mono_r_iff 2); lia).
  assert (Hd106 : d - 1 < 106) by (apply (Z.pow_lt_mono_r_iff 2); lia).
  set (n := d - 53).
  assert (Hn : 52 <= n <= 53) by lia.
  pose proof (shr_inv_shift m (Z.to_pos n) ltac:(lia)) as Hinv.
  set (mrs := SpecFloat.iter_pos shr_1 (Z.to_pos n) _) in *.
  replace (Zpos (Z.to_pos n)) with n in Hinv by lia.
  destruct (round_nearest_even_inv m n mrs ltac:(lia) Hinv) as (Hm2 & Herr & Hq).
  set (m2 := round_nearest_even (shr_m mrs) (loc_of_shr_record mrs)) in *.
  assert (Hmul : SF64mul (S754_finite sx mx ex) (S754_finite sy my ey)
                 = let '(mrs'', e'') := shr_fexp prec emax m2 (ex + ey + n) loc_Exact in
                   match shr_m mrs'' with
                   | Z0 => S754_zero (xorb sx sy)
                   | Zpos m0 =>
                       if e'' <=? emax - prec
                       then S754_finite (xorb sx sy) m0 e''
                       else S754_infinity (xorb sx sy)
                   | Zneg _ => S754_nan
                   end).
  { unfold SF64mul, SFmul, binary_round_aux. fold m.
    unfold shr_fexp at 1. cbn [shr_record_of_loc]. change (Zdigits2 m) with d.
    replace (fexp prec emax (d + (ex + ey)) - (ex + ey)) with (Zpos (Z.to_pos n))
      by (unfold fexp, SpecFloat.emin, prec, emax; lia).
    cbn [shr]. fold mrs. fold m2.
    replace (ex + ey + Zpos (Z.to_pos n)) with (ex + ey + n) by lia.
    reflexivity. }
  assert (Hpow_lo : 2 ^ (d - 1) = 4503599627370496 * 2 ^ n).
  { replace (d - 1) with (52 + n) by lia. rewrite Z.pow_add_r by lia. reflexivity. }
  assert (Hpow_hi : 2 ^ d = 9007199254740992 * 2 ^ n).
  { replace d with (53 + n) at 1 by lia. rewrite Z.pow_add_r by lia. reflexivity. }
  assert (Hc : 0 < 2 ^ n) by (apply Z.pow_pos_nonneg; lia).
  assert (Hq52 : 4503599627370496 <= shr_m mrs < 9007199254740992) by nia.
  assert (Hbound : 9007199254740992 * Z.abs (m2 * 2 ^ n - m) <= m) by nia.
  destruct (Z.eq_dec m2 9007199254740992) as [Hcarry | Hnocarry].
  - rewrite Hcarry in *.
    exists 4503599627370496%positive, (n + 1).
    split.
    { rewrite Hmul. unfold shr_fexp.
      change (Zdigits2 9007199254740992) with 54. cbn [shr_record_of_loc].
      replace (fexp prec emax (54 + (ex + ey + n)) - (ex + ey + n)) with 1
        by (unfold fexp, SpecFloat.emin, prec, emax; lia).
      cbn [shr SpecFloat.iter_pos shr_1 shr_m].
      replace (ex + ey + n + 1 <=? emax - prec) with true
        by (symmetry; apply Z.leb_le; unfold emax, prec; lia).
      f_equal. lia. }
    split; [reflexivity |]. split; [lia |].
    rewrite <- Hm. replace (2 ^ (n + 1)) with (2 * 2 ^ n)
      by (symmetry; apply Z.pow_succ_r; lia).
    nia.
  - destruct m2 as [| p2 | p2] eqn:Ep2; try lia.
    exists p2, n.
    assert (Hdigits : Zpos (digits2_pos p2) = 53)
      by (apply digits2_pos_unique;
          change (2 ^ (53 - 1)) with 4503599627370496;
          change (2 ^ 53) with 9007199254740992; lia).
    split.
    { rewrite Hmul. unfold shr_fexp. cbn [Zdigits2 shr_record_of_loc]. rewrite Hdigits.
      replace (fexp prec emax (53 + (ex + ey + n)) - (ex + ey + n)) with 0
        by (unfold fexp, SpecFloat.emin, prec, emax; lia).
      cbn [shr shr_m].
      replace (ex + ey + n <=? emax - prec) with true
        by (symmetry; apply Z.leb_le; unfold emax, prec; lia).
      reflexivity. }
    split; [assumption |]. split; [lia |].
    rewrite <- Hm. exact Hbound.
Qed.

Lemma moderate_finite (v : float) :
  moderate v = true ->
  exists s m e,
    Prim2SF v = S754_finite s m e
    /\ Zpos (digits2_pos m) = 53
    /\ -352 <= e <= 248.
Proof.
  unfold moderate. intros H. apply andb_prop in H as [Hlo Hhi].
  rewrite FloatAxioms.leb_spec, abs_spec in Hlo, Hhi.
  change (Prim2SF 0x1p-300) with (S754_finite false 4503599627370496 (-352)) in Hlo.
  change (Prim2SF 0x1p300) with (S754_finite false 4503599627370496 248) in Hhi.
  pose proof (Prim2SF_valid v) as Hvalid.
  destruct (Prim2SF v) as [s | s | | s m e]; try discriminate.
  exists s, m, e. split; [reflexivity |].
  unfold SFleb in Hlo, Hhi. cbn [SFabs SFcompare] in Hlo, Hhi.
  assert (-352 <= e) by (destruct (Z.compare_spec (-352) e); [lia | lia | discriminate]).
  assert (e <= 248) by (destruct (Z.compare_spec e 248); [lia | lia | discriminate]).
  split; [| lia].
  cbn [SpecFloat.valid_binary] in Hvalid. unfold bounded, canonical_mantissa in Hvalid.
  apply andb_prop in Hvalid as [Hcanonical _]. apply Z.eqb_eq in Hcanonical.
  unfold fexp, SpecFloat.emin, prec, emax in Hcanonical. lia.
Qed.

Lemma eqb_zero (v : float) :
  (v =? 0)%float = true -> exists s, Prim2SF v = S754_zero s.
Proof.
  rewrite FloatAxioms.eqb_spec.
  change (Prim2SF 0) with (S754_zero false). unfold SFeqb.
  destruct (Prim2SF v) as [s | s | | s m e]; cbn [SFcompare];
    try discriminate; [now exists s | destruct s; discriminate | destruct s; discriminate].
Qed.

(** Two roundings on each side of [(p z1) z2] and [p (z1 z2)], each off by
    at most [2^-53] of what it rounds. *)
Lemma compose_error (P Z1 Z2 T S X Y : Z) :
  0 < P -> 0 < Z1 -> 0 < Z2 ->
  2 ^ 53 * Z.abs (T - P * Z1) <= P * Z1 ->
  2 ^ 53 * Z.abs (X - T * Z2) <= T * Z2 ->
  2 ^ 53 * Z.abs (S - Z1 * Z2) <= Z1 * Z2 ->
  2 ^ 53 * Z.abs (Y - P * S) <= P * S ->
  0 <= Y /\ 2 ^ 50 * Z.abs (X - Y) <= Y.
Proof.
  change (2 ^ 53) with 9007199254740992. change (2 ^ 50) with 1125899906842624.
  intros HP HZ1 HZ2 HT HX HS HY.
  set (K := 9007199254740992) in *.
  set (V := P * Z1 * Z2).
  assert (HPZ : 0 < P * Z1) by nia.
  assert (HZZ : 0 < Z1 * Z2) by nia.
  assert (HV : 0 < V) by (subst V; nia).
  assert (HT1 : (K - 1) * (P * Z1) <= K * T <= (K + 1) * (P * Z1)) by lia.
  assert (HS1 : (K - 1) * (Z1 * Z2) <= K * S <= (K + 1) * (Z1 * Z2)) by lia.
  assert (HT0 : 0 < T) by (subst K; nia).
  assert (HS0 : 0 < S) by (subst K; nia).
  assert (HX1 : (K - 1) * (T * Z2) <= K * X <= (K + 1) * (T * Z2)) by lia.
  assert (HY1 : (K - 1) * (P * S) <= K * Y <= (K + 1) * (P * S)) by lia.
  assert (HTV : (K - 1) * V <= K * (T * Z2) <= (K + 1) * V).
  { subst V. split.
    - replace ((K - 1) * (P * Z1 * Z2)) with (((K - 1) * (P * Z1)) * Z2) by ring.
      replace (K * (T * Z2)) with ((K * T) * Z2) by ring.
      apply Z.mul_le_mono_nonneg_r; lia.
    - replace ((K + 1) * (P * Z1 * Z2)) with (((K + 1) * (P * Z1)) * Z2) by ring.
      replace (K * (T * Z2)) with ((K * T) * Z2) by ring.
      apply Z.mul_le_mono_nonneg_r; lia. }
  assert (HSV : (K - 1) * V <= K * (P * S) <= (K + 1) * V).
  { subst V. split.
    - replace ((K - 1) * (P * Z1 * Z2)) with (P * ((K - 1) * (Z1 * Z2))) by ring.
      replace (K * (P * S)) with (P * (K * S)) by ring.
      apply Z.mul_le_mono_nonneg_l; lia.
    - replace ((K + 1) * (P * Z1 * Z2)) with (P * ((K + 1) * (Z1 * Z2))) by ring.
      replace (K * (P * S)) with (P * (K * S)) by ring.
      apply Z.mul_le_mono_nonneg_l; lia. }
  set (A := T * Z2) in *. set (B := P * S) in *.
  assert (HXV : (K - 1) * (K - 1) * V <= K * K * X <= (K + 1) * (K + 1) * V)
    by (subst K; lia).
  assert (HYV : (K - 1) * (K - 1) * V <= K * K * Y <= (K + 1) * (K + 1) * V)
    by (subst K; lia).
  subst K. split; lia.
Qed.

Lemma cond_Zopp_sub (s : bool) (x y : Z) :
  Z.abs (cond_Zopp s x - cond_Zopp s y) = Z.abs (x - y).
Proof. destruct s; cbn [cond_Zopp]; lia. Qed.

Lemma Zabs_cond_Zopp (s : bool) (x : Z) : Z.abs (cond_Zopp s x) = Z.abs x.
Proof. destruct s; cbn [cond_Zopp]; lia. Qed.

Lemma mul_compose_within_tolerance (p z1 z2 : float) :
  zero_or_moderate p = true -> moderate z1 = true -> moderate z2 = true ->
  within_tolerance (p * z1 * z2) (p * (z1 * z2)) = true.
Proof.
  intros Hp Hz1 Hz2.
  destruct (moderate_finite z1 Hz1) as (s1 & m1 & e1 & E1 & Hd1 & He1).
  destruct (moderate_finite z2 Hz2) as (s2 & m2 & e2 & E2 & Hd2 & He2).
  destruct (SF64mul_finite s1 s2 m1 m2 e1 e2 Hd1 Hd2 ltac:(lia))
    as (ms & n3 & Es & Hds & Hn3 & Herr3).
  unfold within_tolerance. rewrite !mul_spec, E1, E2, Es.
  unfold zero_or_moderate in Hp. apply orb_prop in Hp as [Hzero | Hp].
  { destruct (eqb_zero p Hzero) as [s ->]. reflexivity. }
  destruct (moderate_finite p Hp) as (sp & mp & ep & -> & Hdp & Hep).
  destruct (SF64mul_finite sp s1 mp m1 ep e1 Hdp Hd1 ltac:(lia))
    as (mt & n1 & -> & Hdt & Hn1 & Herr1).
  destruct (SF64mul_finite (xorb sp s1) s2 mt m2 (ep + e1 + n1) e2 Hdt Hd2 ltac:(lia))
    as (ma & n2 & -> & Hda & Hn2 & Herr2).
  destruct (SF64mul_finite sp (xorb s1 s2) mp ms ep (e1 + e2 + n3) Hdp Hds ltac:(lia))
    as (mb & n4 & -> & Hdb & Hn4 & Herr4).
  rewrite xorb_assoc. apply Z.leb_le. unfold aligned.
  rewrite cond_Zopp_sub, Zabs_cond_Zopp.
  set (ea := ep + e1 + n1 + e2 + n2). set (eb := ep + (e1 + e2 + n3) + n4).
  set (e0 := Z.min ea eb). set (E0 := ep + e1 + e2).
  assert (Hc : 0 <= e0 - E0) by (subst e0 ea eb E0; lia).
  assert (Hcpos : 0 < 2 ^ (e0 - E0)) by (apply Z.pow_pos_nonneg; lia).
  assert (Hapos : 0 < 2 ^ (ea - e0)) by (apply Z.pow_pos_nonneg; subst e0; lia).
  assert (Hbpos : 0 < 2 ^ (eb - e0)) by (apply Z.pow_pos_nonneg; subst e0; lia).
  assert (HX : Zpos ma * 2 ^ (ea - e0) * 2 ^ (e0 - E0) = Zpos ma * 2 ^ n2 * 2 ^ n1).
  { rewrite <- !Z.mul_assoc, <- !Z.pow_add_r by (subst e0; lia).
    do 2 f_equal. subst ea E0. lia. }
  assert (HY : Zpos mb * 2 ^ (eb - e0) * 2 ^ (e0 - E0) = Zpos mb * 2 ^ n4 * 2 ^ n3).
  { rewrite <- !Z.mul_assoc, <- !Z.pow_add_r by (subst e0; lia).
    do 2 f_equal. subst eb E0. lia. }
  assert (H1pos : 0 < 2 ^ n1) by (apply Z.pow_pos_nonneg; lia).
  assert (H3pos : 0 < 2 ^ n3) by (apply Z.pow_pos_nonneg; lia).
  destruct (compose_error (Zpos mp) (Zpos m1) (Zpos m2)
              (Zpos mt * 2 ^ n1) (Zpos ms * 2 ^ n3)
              (Zpos ma * 2 ^ n2 * 2 ^ n1) (Zpos mb * 2 ^ n4 * 2 ^ n3))
    as [HY0 Hclose]; try lia.
  - replace (Zpos ma * 2 ^ n2 * 2 ^ n1 - Zpos mt * 2 ^ n1 * Zpos m2)
      with ((Zpos ma * 2 ^ n2 - Zpos mt * Zpos m2) * 2 ^ n1) by ring.
    rewrite Z.abs_mul, (Z.abs_eq (2 ^ n1)) by lia.
    replace (Zpos mt * 2 ^ n1 * Zpos m2) with (Zpos mt * Zpos m2 * 2 ^ n1) by ring.
    rewrite Z.mul_assoc. apply Z.mul_le_mono_nonneg_r; lia.
  - replace (Zpos mb * 2 ^ n4 * 2 ^ n3 - Zpos mp * (Zpos ms * 2 ^ n3))
      with ((Zpos mb * 2 ^ n4 - Zpos mp * Zpos ms) * 2 ^ n3) by ring.
    rewrite Z.abs_mul, (Z.abs_eq (2 ^ n3)) by lia.
    replace (Zpos mp * (Zpos ms * 2 ^ n3)) with (Zpos mp * Zpos ms * 2 ^ n3) by ring.
    rewrite Z.mul_assoc. apply Z.mul_le_mono_nonneg_r; lia.
  - rewrite <- HX, <- HY in Hclose.
    replace (Zpos ma * 2 ^ (ea - e0) * 2 ^ (e0 - E0)
             - Zpos mb * 2 ^ (eb - e0) * 2 ^ (e0 - E0))
      with ((Zpos ma * 2 ^ (ea - e0) - Zpos mb * 2 ^ (eb - e0)) * 2 ^ (e0 - E0))
      in Hclose by ring.
    rewrite Z.abs_mul, (Z.abs_eq (2 ^ (e0 - E0))), Z.mul_assoc in Hclose by lia.
    apply Z.mul_le_mono_pos_r in Hclose; [| assumption].
    rewrite (Z.abs_eq (Zpos mb * 2 ^ (eb - e0))) by nia. exact Hclose.
Qed.

End ProductRounding.


Lemma transform_scales (P : list float) (z : float) :
  Nat.even (length P) = true ->
  transform P z = map (fun v => (v * z)%float) P.
Proof.
  intros Heven. unfold transform. rewrite convertCoordinates_pairs.
  apply Nat.even_spec in Heven as [n Hn].
  rewrite Hn, Nat.div2_succ_double.
  apply (flatten_pairs_from z n [] P Hn).
Qed.

(** C5, as the code has it. For a polygon given as a flat list of x-y
    pairs whose coordinates are zero or of magnitude between [2^-300] and
    [2^300], and two factors of magnitude between [2^-300] and [2^300]: the
    transform applied with the first factor and then with the second
    agrees, coordinate by coordinate, with the transform applied once with
    the product of the factors, up to a relative error of [2^-50].  Both
    are the list of the coordinates times the factors, [(v z1) z2] on one
    side and [v (z1 z2)] on the other, each product rounded to binary64. *)
Theorem transform_composes_within_tolerance (P : list float) (z1 z2 : float) :
  Nat.even (length P) = true ->
  forallb zero_or_moderate P = true ->
  moderate z1 = true ->
  moderate z2 = true ->
  transform (transform P z1) z2 = map (fun v => (v * z1 * z2)%float) P
  /\ transform P (z1 * z2) = map (fun v => (v * (z1 * z2))%float) P
  /\ all_within_tolerance (transform (transform P z1) z2) (transform P (z1 * z2))
     = true.
Proof.
  intros Heven Hcoordinates Hz1 Hz2.
  assert (Htwice : transform (transform P z1) z2
                   = map (fun v => (v * z1 * z2)%float) P).
  { rewrite (transform_scales P z1 Heven), transform_scales
      by now rewrite length_map.
    now rewrite map_map. }
  split; [exact Htwice |].
  split; [now apply transform_scales |].
  rewrite Htwice, (transform_scales P (z1 * z2) Heven).
  clear Heven Htwice.
  induction P as [| v P IH]; [reflexivity |].
  cbn [forallb] in Hcoordinates. apply andb_prop in Hcoordinates as [Hv Hrest].
  cbn [map all_within_tolerance].
  rewrite (mul_compose_within_tolerance v z1 z2 Hv Hz1 Hz2).
  now apply IH.
Qed.

Lemma transform_composes_within_tolerance_witness :
  all_within_tolerance (transform (transform unit_square 1.5) 1.25)
    (transform unit_square (1.5 * 1.25)) = true.
Proof.
  exact (proj2 (proj2 (transform_composes_within_tolerance unit_square 1.5 1.25
                         eq_refl eq_refl eq_refl eq_refl))).
Defined.

(** C5, the claim as stated fails at both ends of the range. A coordinate
    of [2^1023] and the factors 4 and 0.25: the first step overflows to
    infinity and the second keeps it there, while the transform with the
    product of the factors, which is 1, returns the coordinate.  A
    coordinate of [2^-1074] and the factors 0.5 and 2: the first step
    underflows to zero, while the single step returns the coordinate.  No
    tolerance relates infinity to a finite value, and none below the value
    itself relates zero to it. *)
Lemma transform_composition_out_of_range :
  (transform (transform [0x1p1023; 1]%float 4) 0.25 = [infinity; 1]%float
   /\ transform [0x1p1023; 1]%float (4 * 0.25) = [0x1p1023; 1]%float
   /\ all_within_tolerance (transform (transform [0x1p1023; 1]%float 4) 0.25)
        (transform [0x1p1023; 1]%float (4 * 0.25)) = false)
  /\ (transform (transform [0x1p-1074; 1]%float 0.5) 2 = [0; 1]%float
      /\ transform [0x1p-1074; 1]%float (0.5 * 2) = [0x1p-1074; 1]%float
      /\ all_within_tolerance (transform (transform [0x1p-1074; 1]%float 0.5) 2)
           (transform [0x1p-1074; 1]%float (0.5 * 2)) = false).
Proof. repeat split; vm_compute; reflexivity. Qed.

(** ** What the rebuilt index holds *)

Lemma stored_under_fold_inv (effectiveDpi : float) (k : string) :
  forall annotations found e,
    fold_left (stored_under effectiveDpi k) annotations found = Some e ->
    found = Some e
    \/ exists a, In a annotations /\ annotationKey a = k /\ e = entry_of effectiveDpi a.
Proof.
  induction annotations as [| b annotations IH]; intros found e Hfold;
    [now left |].
  cbn [fold_left] in Hfold. apply IH in Hfold as [Hb | (a & Hin & Hk & He)].
  - unfold stored_under in Hb.
    destruct (String.eqb_spec (annotationKey b) k) as [Hk | _].
    + right. exists b. injection Hb as <-. repeat split; [now left | assumption].
    + now left.
  - right. exists a. repeat split; [now right | assumption | assumption].
Qed.

Lemma stored_under_fold_keeps (effectiveDpi : float) (k : string) :
  forall annotations e,
    exists e', fold_left (stored_under effectiveDpi k) annotations (Some e) = Some e'.
Proof.
  induction annotations as [| b annotations IH]; intros e; [eauto |].
  cbn [fold_left]. unfold stored_under at 2.
  destruct (String.eqb (annotationKey b) k); apply IH.
Qed.

Lemma stored_under_fold_some (effectiveDpi : float) (k : string) :
  forall annotations found,
    (exists a, In a annotations /\ annotationKey a = k) ->
    exists e, fold_left (stored_under effectiveDpi k) annotations found = Some e.
Proof.
  induction annotations as [| b annotations IH]; intros found (a & Hin & Hk);
    [destruct Hin |].
  cbn [fold_left]. destruct Hin as [-> | Hin]; [| apply IH; eauto].
  unfold stored_under at 2. rewrite <- Hk, String.eqb_refl.
  apply stored_under_fold_keeps.
Qed.

Lemma drawAnnotations_loop_drawn (effectiveDpi : float) :
  forall annotations annotationPaths drawn,
    snd (drawAnnotations_loop annotations effectiveDpi annotationPaths drawn)
    = drawn ++ flat_map (fun a => [CanvasFill (createAnnotationPath (rect a) effectiveDpi);
                                   CanvasStroke (createAnnotationPath (rect a) effectiveDpi)])
                 annotations.
Proof.
  induction annotations as [| a annotations IH]; intros annotationPaths drawn;
    cbn [drawAnnotations_loop flat_map].
  - now rewrite app_nil_r.
  - rewrite IH. now rewrite <- app_assoc.
Qed.

Lemma getAnnotationsForPage_In (pageAnnotations : list OverlayAnnotation)
    (pageNumber : Z) (a : OverlayAnnotation) :
  In a (getAnnotationsForPage pageAnnotations pageNumber)
  <-> In a pageAnnotations /\ page a = pretty (pageNumber + 1)%Z.
Proof.
  unfold getAnnotationsForPage.
  rewrite <- !list_elem_of_In, list_elem_of_filter. tauto.
Qed.

Lemma drawAnnotations_get_inv (pageAnnotations : list OverlayAnnotation)
    (pageNumber : Z) (effectiveDpi : float) (k : string) (e : HitTestEntry) :
  Map_get k (fst (drawAnnotations pageAnnotations pageNumber effectiveDpi)) = Some e ->
  exists a, In a pageAnnotations /\ page a = pretty (pageNumber + 1)%Z
            /\ annotationKey a = k /\ e = entry_of effectiveDpi a.
Proof.
  unfold drawAnnotations. rewrite drawAnnotations_loop_get. cbn [Map_get].
  intros H. apply stored_under_fold_inv in H as [H | (a & Hin & Hk & He)];
    [discriminate |].
  apply getAnnotationsForPage_In in Hin as [Hin Hpage]. eauto.
Qed.

(** X4. Redrawing a page fills and strokes the polygon of each annotation
    of that page, in order, and rebuilds the index from nothing: its keys
    are the keys of the annotations of the page, each once, and what is
    stored under a key is an annotation of the page with that key, together
    with its own polygon at the effective DPI of the redraw.  Annotations of
    other pages leave no trace in it. *)
Theorem drawAnnotations_index (pageAnnotations : list OverlayAnnotation)
    (pageNumber : Z) (effectiveDpi : float) :
  snd (drawAnnotations pageAnnotations pageNumber effectiveDpi)
  = flat_map (fun a => [CanvasFill (createAnnotationPath (rect a) effectiveDpi);
                        CanvasStroke (createAnnotationPath (rect a) effectiveDpi)])
      (getAnnotationsForPage pageAnnotations pageNumber)
  /\ NoDup (Map_keys (fst (drawAnnotations pageAnnotations pageNumber effectiveDpi)))
  /\ (forall k,
        In k (Map_keys (fst (drawAnnotations pageAnnotations pageNumber effectiveDpi)))
        <-> exists a, In a pageAnnotations /\ page a = pretty (pageNumber + 1)%Z
                      /\ annotationKey a = k)
  /\ (forall k e,
        Map_get k (fst (drawAnnotations pageAnnotations pageNumber effectiveDpi)) = Some e ->
        exists a, In a pageAnnotations /\ page a = pretty (pageNumber + 1)%Z
                  /\ annotationKey a = k
                  /\ entry_annotation e = a
                  /\ entry_path e = createAnnotationPath (rect a) effectiveDpi).
Proof.
  split; [| split; [| split]].
  - unfold drawAnnotations. now rewrite drawAnnotations_loop_drawn.
  - apply drawAnnotations_wf.
  - intros k. rewrite <- Map_has_keys, Map_has_get. split.
    + intros [e He]. apply drawAnnotations_get_inv in He as (a & Hin & Hpage & Hk & _).
      eauto.
    + intros (a & Hin & Hpage & Hk). unfold drawAnnotations.
      rewrite drawAnnotations_loop_get. apply stored_under_fold_some.
      exists a. split; [| assumption]. apply getAnnotationsForPage_In. now split.
  - intros k e He. apply drawAnnotations_get_inv in He as (a & Hin & Hpage & Hk & ->).
    exists a. repeat split; assumption.
Qed.

Section IndexHitFacts.

Variable isPointInPath : Path2D -> float -> float -> bool.

(** X5. A hit test on the index of the displayed page answers only with an
    annotation of that page, and the point is inside that annotation's own
    polygon; conversely a point inside the polygon of an annotation of the
    page that shares its key (page and line) with no other is answered with
    some annotation. *)
Theorem getAnnotationAtPoint_displayed_page (pageAnnotations : list OverlayAnnotation)
    (pageNumber : Z) (effectiveDpi : float) (x y : float) :
  (forall a,
      getAnnotationAtPoint isPointInPath
        (fst (drawAnnotations pageAnnotations pageNumber effectiveDpi)) x y = Some a ->
      In a pageAnnotations /\ page a = pretty (pageNumber + 1)%Z
      /\ isPointInPath (createAnnotationPath (rect a) effectiveDpi) x y = true)
  /\ (forall a,
        In a pageAnnotations -> page a = pretty (pageNumber + 1)%Z ->
        (forall b, In b pageAnnotations -> page b = page a -> line b = line a -> b = a) ->
        isPointInPath (createAnnotationPath (rect a) effectiveDpi) x y = true ->
        exists b,
          getAnnotationAtPoint isPointInPath
            (fst (drawAnnotations pageAnnotations pageNumber effectiveDpi)) x y = Some b).
Proof.
  split.
  - intros a Hhit.
    apply getAnnotationAtPoint_entry in Hhit as (e & Hin & Ha & Hinside).
    apply (index_wf_get _ _ (drawAnnotations_wf _ _ _)) in Hin.
    apply drawAnnotations_get_inv in Hin as (a' & Hin' & Hpage & _ & ->).
    cbn [entry_of entry_annotation entry_path] in Ha, Hinside. subst a'.
    repeat split; assumption.
  - intros a Hin Hpage Huniq Hinside.
    assert (Hstored :
              Map_get (annotationKey a)
                (fst (drawAnnotations pageAnnotations pageNumber effectiveDpi))
              = Some (entry_of effectiveDpi a)).
    { apply drawAnnotations_stores.
      - apply getAnnotationsForPage_In. now split.
      - intros b Hb Hkey. apply getAnnotationsForPage_In in Hb as [Hb Hbpage].
        apply Huniq; [assumption | congruence |].
        unfold annotationKey in Hkey. rewrite Hbpage, Hpage in Hkey.
        apply (inj (String.append _)) in Hkey.
        apply (inj (String.append _)) in Hkey.
        apply (inj (String.append _)) in Hkey.
        now apply (inj pretty) in Hkey. }
    apply Map_get_In in Hstored.
    assert (Hvalue : In (entry_of effectiveDpi a)
                       (Map_values
                          (fst (drawAnnotations pageAnnotations pageNumber effectiveDpi))))
      by (apply in_map_iff; exists (annotationKey a, entry_of effectiveDpi a);
          split; [reflexivity | assumption]).
    destruct (first_containing isPointInPath _ x y _ Hvalue Hinside)
      as (before & e1 & after & Hsplit & He1 & Hbefore).
    exists (entry_annotation e1). unfold getAnnotationAtPoint.
    now apply (getAnnotationAtPoint_loop_first _ _ x y before e1 after).
Qed.

End IndexHitFacts.

(** ** Histories of the registry *)

Section MapDeleteFacts.

Context {V : Type}.

Lemma Map_delete_In (k k0 : string) (v0 : V) (m : JsMap V) :
  In (k0, v0) (Map_delete k m) <-> k0 <> k /\ In (k0, v0) m.
Proof.
  induction m as [| [k' v'] m IH]; simpl; [tauto |].
  destruct (String.eqb_spec k' k) as [-> | Hne]; simpl; rewrite IH.
  - split; [tauto |]. intros [Hk [E | H]]; [congruence | tauto].
  - split; [| tauto]. intros [E | H]; [| tauto].
    split; [congruence | now left].
Qed.

Lemma Map_keys_delete_In (k k0 : string) (m : JsMap V) :
  In k0 (Map_keys (Map_delete k m)) <-> k0 <> k /\ In k0 (Map_keys m).
Proof.
  rewrite Map_keys_delete, filter_In.
  destruct (String.eqb_spec k0 k); simpl; split; intros [? ?];
    try tauto; try discriminate; try congruence.
Qed.

Lemma Map_delete_NoDup (k : string) (m : JsMap V) :
  NoDup (Map_keys m) -> NoDup (Map_keys (Map_delete k m)).
Proof.
  intros H. rewrite Map_keys_delete.
  apply NoDup_ListNoDup. apply List.NoDup_filter. now apply NoDup_ListNoDup.
Qed.

Lemma Map_has_delete_other (k k0 : string) (m : JsMap V) :
  k0 <> k -> Map_has k0 (Map_delete k m) = Map_has k0 m.
Proof. intros H. unfold Map_has. now rewrite Map_get_delete_other. Qed.

Lemma Map_delete_set (k : string) (v : V) (m : JsMap V) :
  Map_delete k (Map_set k v m) = Map_delete k m.
Proof.
  induction m as [| [k' v'] m IH]; simpl.
  - now rewrite String.eqb_refl.
  - destruct (String.eqb k' k) eqn:E; simpl.
    + now rewrite String.eqb_refl.
    + now rewrite E, IH.
Qed.

(** Deleting a list of keys one after the other. *)
Lemma Map_delete_all (ks : list string) :
  forall m : JsMap V,
    fold_left (fun m k => Map_delete k m) ks m
    = List.filter (fun kv => negb (existsb (String.eqb (fst kv)) ks)) m.
Proof.
  induction ks as [| k ks IH]; intros m; cbn [fold_left existsb].
  - induction m as [| kv m IHm]; simpl; [reflexivity | now f_equal].
  - rewrite IH. clear IH.
    induction m as [| [k' v'] m IHm]; simpl; [reflexivity |].
    destruct (String.eqb k' k) eqn:E; simpl; [assumption |].
    now rewrite IHm.
Qed.

End MapDeleteFacts.

Section RegistryHistory.

Context {W : Type}.
Variable paintDefaultText : AnnotationRenderContext -> W -> Completion * W.

Abbreviation Registry := (@Registry W).

Lemma registry_inv_start :
  registry_inv (usePdfAnnotations paintDefaultText globalRegistry).
Proof.
  unfold registry_inv, usePdfAnnotations, globalRegistry.
  cbn [Map_has Map_get annotationProviders activeProviders Map_set Map_keys map fst].
  split; [apply NoDup_singleton |].
  split; [intros k p [[= <- <-] | []]; reflexivity |].
  split; [intros k [<- | []]; now apply elem_of_singleton |].
  split; [reflexivity | now apply elem_of_singleton].
Qed.

Lemma registry_inv_instance (r : Registry) :
  registry_inv r -> usePdfAnnotations paintDefaultText r = r.
Proof.
  intros (_ & _ & _ & Hdefault & _). unfold usePdfAnnotations. now rewrite Hdefault.
Qed.

Lemma registry_inv_register (options : @AnnotationProviderOptions W) (r : Registry) :
  registry_inv r -> registry_inv (registerAnnotationProvider options r).
Proof.
  intros (Hnd & Hid & Hact & Hdefault & Hdact).
  unfold registry_inv, registerAnnotationProvider.
  cbn [annotationProviders activeProviders id].
  set (id' := or_else _ _). set (provider := Build_AnnotationProvider _ _ _ _ _).
  split; [now apply Map_set_NoDup |].
  split.
  { intros k p Hin. apply Map_set_In in Hin as [[= -> ->] | Hin]; [reflexivity |].
    now apply Hid. }
  split.
  { intros k Hin. apply elem_of_union. rewrite Map_keys_set in Hin.
    destruct (Map_has id' (annotationProviders r)); [right; now apply Hact |].
    apply in_app_or in Hin as [Hin | [<- | []]]; [right; now apply Hact |].
    left. now apply elem_of_singleton. }
  split.
  { unfold Map_has. destruct (String.eqb_spec "default" id') as [<- | Hne].
    - now rewrite Map_get_set.
    - rewrite Map_get_set_other by assumption. exact Hdefault. }
  apply elem_of_union. now right.
Qed.

Lemma registry_inv_delete (id' : string) (r : Registry) (active : gset string) :
  id' <> "default" ->
  registry_inv r ->
  (forall k, k <> id' -> k ∈ activeProviders r -> k ∈ active) ->
  registry_inv {| annotationProviders := Map_delete id' (annotationProviders r);
                  activeProviders := active |}.
Proof.
  intros Hne (Hnd & Hid & Hact & Hdefault & Hdact) Hactive.
  unfold registry_inv. cbn [annotationProviders activeProviders].
  split; [now apply Map_delete_NoDup |].
  split; [intros k p Hin; apply Map_delete_In in Hin as [_ Hin]; now apply Hid |].
  split.
  { intros k Hin. apply Map_keys_delete_In in Hin as [Hk Hin].
    apply Hactive; [assumption | now apply Hact]. }
  split; [rewrite Map_has_delete_other by congruence; exact Hdefault |].
  apply Hactive; [congruence | assumption].
Qed.

Lemma registry_inv_unregister (id' : string) (r : Registry) :
  registry_inv r -> registry_inv (fst (unregisterAnnotationProvider id' r)).
Proof.
  intros Hinv. unfold unregisterAnnotationProvider.
  destruct (String.eqb_spec id' "default") as [_ | Hne]; [exact Hinv |].
  assert (Hdel : registry_inv
                   {| annotationProviders := Map_delete id' (annotationProviders r);
                      activeProviders := activeProviders r |})
    by (apply registry_inv_delete; [assumption | assumption | auto]).
  now destruct (Map_has id' (annotationProviders r)).
Qed.

Lemma registry_inv_unregistered (providerId : string) (r : Registry) :
  registry_inv r ->
  (providerId ∉ activeProviders r) ->
  Map_get providerId (annotationProviders r) = None.
Proof.
  intros (_ & _ & Hact & _) Hinactive.
  destruct (Map_get providerId (annotationProviders r)) as [p |] eqn:E;
    [| reflexivity].
  exfalso. apply Hinactive, Hact, Map_has_keys, Map_has_get. eauto.
Qed.

Lemma toggleProvider_inactive (providerId : string) (r : Registry) :
  registry_inv r ->
  (providerId ∉ activeProviders r) ->
  toggleProvider providerId r = (r, []).
Proof.
  intros Hinv Hinactive. unfold toggleProvider, isProviderActive.
  destruct (String.eqb providerId "default"); [reflexivity |].
  rewrite bool_decide_eq_false_2 by assumption.
  now rewrite (registry_inv_unregistered _ _ Hinv Hinactive).
Qed.

Lemma registry_inv_toggle (providerId : string) (r : Registry) :
  registry_inv r -> registry_inv (fst (toggleProvider providerId r)).
Proof.
  intros Hinv.
  destruct (decide (providerId ∈ activeProviders r)) as [Hactive | Hinactive];
    [| now rewrite toggleProvider_inactive].
  unfold toggleProvider, isProviderActive, unregisterAnnotationProvider.
  destruct (String.eqb_spec providerId "default") as [_ | Hne]; [exact Hinv |].
  rewrite bool_decide_eq_true_2 by assumption.
  assert (Hdel : registry_inv
                   {| annotationProviders := Map_delete providerId (annotationProviders r);
                      activeProviders := activeProviders r ∖ {[providerId]} |}).
  { apply registry_inv_delete; [assumption | assumption |].
    intros k Hk Hin. apply elem_of_difference. split; [assumption |].
    intros Hs. apply elem_of_singleton in Hs. contradiction. }
  now destruct (Map_has providerId (annotationProviders r)).
Qed.

Lemma cleanupProviders_map (r : Registry) :
  annotationProviders (cleanupProviders r)
  = List.filter (fun kv => String.eqb (fst kv) "default") (annotationProviders r).
Proof.
  unfold cleanupProviders. cbn [annotationProviders]. rewrite Map_delete_all.
  apply filter_ext_in. intros [k p] Hin. cbn [fst].
  destruct (String.eqb_spec k "default") as [-> | Hne].
  - destruct (existsb _ _) eqn:E; [| reflexivity].
    apply existsb_exists in E as (k' & Hk' & E).
    apply filter_In in Hk' as [_ Hk']. apply String.eqb_eq in E. subst k'.
    now rewrite String.eqb_refl in Hk'.
  - destruct (existsb _ _) eqn:E; [reflexivity |].
    assert (Hex : existsb (String.eqb k)
                    (List.filter (fun k0 => negb (String.eqb k0 "default"))
                       (Map_keys (annotationProviders r))) = true).
    { apply existsb_exists. exists k. split; [| apply String.eqb_refl].
      apply filter_In. split.
      - change (In (fst (k, p)) (map fst (annotationProviders r))). now apply in_map.
      - destruct (String.eqb_spec k "default"); [contradiction | reflexivity]. }
    congruence.
Qed.

Lemma filter_key_get {V : Type} (k : string) (m : JsMap V) :
  Map_get k (List.filter (fun kv => String.eqb (fst kv) k) m) = Map_get k m.
Proof.
  induction m as [| [k' v'] m IH]; cbn [List.filter fst Map_get]; [reflexivity |].
  destruct (String.eqb k' k) eqn:E; cbn [Map_get]; [now rewrite E | assumption].
Qed.

Lemma filter_key_keys {V : Type} (k : string) (m : JsMap V) :
  Map_keys (List.filter (fun kv => String.eqb (fst kv) k) m)
  = List.filter (fun k' => String.eqb k' k) (Map_keys m).
Proof.
  induction m as [| [k' v'] m IH]; cbn [List.filter fst Map_keys map]; [reflexivity |].
  destruct (String.eqb k' k); cbn [Map_keys map fst]; [f_equal |]; exact IH.
Qed.

Lemma registry_inv_cleanup (r : Registry) :
  registry_inv r -> registry_inv (cleanupProviders r).
Proof.
  intros (Hnd & Hid & Hact & Hdefault & Hdact).
  unfold registry_inv. rewrite cleanupProviders_map.
  cbn [activeProviders cleanupProviders].
  split.
  { rewrite filter_key_keys. apply NoDup_ListNoDup, List.NoDup_filter.
    now apply NoDup_ListNoDup. }
  split; [intros k p Hin; apply filter_In in Hin as [Hin _]; now apply Hid |].
  split.
  { intros k Hin. rewrite filter_key_keys in Hin. apply filter_In in Hin as [_ Hk].
    apply String.eqb_eq in Hk. now apply elem_of_singleton. }
  split; [unfold Map_has; now rewrite filter_key_get |].
  now apply elem_of_singleton.
Qed.

Lemma registry_inv_apply (r : Registry) (op : RegistryOp) :
  registry_inv r -> registry_inv (apply_op paintDefaultText r op).
Proof.
  intros Hinv. destruct op as [| options | id' | providerId |]; cbn [apply_op].
  - now rewrite registry_inv_instance.
  - now apply registry_inv_register.
  - now apply registry_inv_unregister.
  - now apply registry_inv_toggle.
  - now apply registry_inv_cleanup.
Qed.

Lemma registry_inv_run (ops : list RegistryOp) :
  registry_inv (run_ops paintDefaultText ops).
Proof.
  unfold run_ops. generalize registry_inv_start.
  generalize (usePdfAnnotations paintDefaultText globalRegistry).
  induction ops as [| op ops IH]; intros r Hinv; cbn [fold_left]; [exact Hinv |].
  apply IH. now apply registry_inv_apply.
Qed.

(** X6. From the first viewer instance on, whatever sequence of instance
    creations, registrations, unregistrations, toggles and cleanups follows:
    no id is registered twice and every provider is stored under its own id;
    ['default'] stays registered and active; and every registered id is
    active.  (Writes to the exposed [activeProviders] set that bypass these
    functions are not part of a history.) *)
Theorem registry_history_invariant (ops : list RegistryOp) :
  let r := run_ops paintDefaultText ops in
  NoDup (Map_keys (annotationProviders r))
  /\ (forall k p, Map_get k (annotationProviders r) = Some p -> id p = k)
  /\ Map_has "default" (annotationProviders r) = true
  /\ isProviderActive "default" r = true
  /\ (forall k, Map_has k (annotationProviders r) = true -> isProviderActive k r = true).
Proof.
  cbv zeta. destruct (registry_inv_run ops) as (Hnd & Hid & Hact & Hdefault & Hdact).
  split; [exact Hnd |].
  split; [intros k p Hget; apply Hid; now apply Map_get_In |].
  split; [exact Hdefault |].
  split; [now apply bool_decide_eq_true_2 |].
  intros k Hk. apply bool_decide_eq_true_2, Hact. now apply Map_has_keys.
Qed.

(** X7. Consequently, in such a history the activity check of resolution
    never rejects a provider, and toggling an inactive id never brings a
    provider back: resolution is the first registered provider other than
    ['default'] that accepts the annotation (ending with the exception of a
    [canHandle] that throws before that), and a toggle of an inactive id
    changes nothing. *)
Theorem registry_history_inactive_unregistered (ops : list RegistryOp) :
  let r := run_ops paintDefaultText ops in
  (forall annotation,
      findProviderForAnnotation paintDefaultText r annotation
      = match first_accepting (fun p => canHandle p annotation)
                (List.filter (fun p => negb (String.eqb (id p) "default"))
                   (getAllProviders r)) with
        | Ok (Some p) => Ok p
        | Ok None => Ok (defaultProvider paintDefaultText)
        | Thrown e => Thrown e
        end
      /\ ((forall p, In p (getAllProviders r) -> id p <> "default" ->
             exists b, canHandle p annotation = Ok b) ->
          findProviderForAnnotation paintDefaultText r annotation
          = Ok match List.find
                       (fun p => negb (String.eqb (id p) "default")
                                 && says_yes (fun p => canHandle p annotation) p)
                       (getAllProviders r) with
               | Some p => p
               | None => defaultProvider paintDefaultText
               end))
  /\ (forall providerId,
        isProviderActive providerId r = false ->
        getAnnotationProvider providerId r = None
        /\ toggleProvider providerId r = (r, [])).
Proof.
  cbv zeta. pose proof (registry_inv_run ops) as Hinv.
  set (r := run_ops paintDefaultText ops) in *. split.
  - intros annotation.
    destruct Hinv as (_ & Hid & Hact & _).
    assert (Hall : forall p, In p (getAllProviders r) ->
                     isProviderActive (id p) r = true).
    { intros p Hin. apply in_map_iff in Hin as ([k p'] & E & Hin). cbn in E. subst p'.
      apply bool_decide_eq_true_2, Hact. rewrite (Hid k p Hin).
      change (In (fst (k, p)) (map fst (annotationProviders r))). now apply in_map. }
    assert (Hfilter : List.filter (eligible r) (getAllProviders r)
                      = List.filter (fun p => negb (String.eqb (id p) "default"))
                          (getAllProviders r)).
    { apply List.filter_ext_in. intros p Hp. unfold eligible.
      rewrite (Hall p Hp). apply andb_true_r. }
    assert (Hfirst := findProvider_loop_first paintDefaultText r annotation
                        (getAllProviders r)).
    fold (findProviderForAnnotation paintDefaultText r annotation) in Hfirst.
    rewrite Hfilter in Hfirst. split; [exact Hfirst |].
    intros Hreturns. rewrite Hfirst, first_accepting_find.
    + rewrite find_filter. now destruct (List.find _ (getAllProviders r)).
    + intros p Hp. apply filter_In in Hp as [Hin Hne]. apply Hreturns; [assumption |].
      intros E. rewrite E in Hne. discriminate.
  - intros providerId Hinactive.
    assert (Hnot : providerId ∉ activeProviders r)
      by (intros Hin; unfold isProviderActive in Hinactive;
          rewrite bool_decide_eq_true_2 in Hinactive by assumption; discriminate).
    split; [now apply registry_inv_unregistered | now apply toggleProvider_inactive].
Qed.

End RegistryHistory.

Section RegistryRoundTrips.

Context {W : Type}.
Variable paintDefaultText : AnnotationRenderContext -> W -> Completion * W.

(** X8. Unregistering straight after registering removes the provider
    without a warning, together with whatever the id held before, and
    restores the registered providers exactly when the id was new; the id
    itself stays in the active set. *)
Theorem register_then_unregister (options : @AnnotationProviderOptions W)
    (r : @Registry W) :
  registered_id options <> "default" ->
  unregisterAnnotationProvider (registered_id options)
    (registerAnnotationProvider options r)
  = ({| annotationProviders :=
          Map_delete (registered_id options) (annotationProviders r);
        activeProviders := {[registered_id options]} ∪ activeProviders r |}, [])
  /\ (Map_has (registered_id options) (annotationProviders r) = false ->
      annotationProviders
        (fst (unregisterAnnotationProvider (registered_id options)
                (registerAnnotationProvider options r)))
      = annotationProviders r)
  /\ getAnnotationProvider (registered_id options)
       (fst (unregisterAnnotationProvider (registered_id options)
               (registerAnnotationProvider options r))) = None
  /\ isProviderActive (registered_id options)
       (fst (unregisterAnnotationProvider (registered_id options)
               (registerAnnotationProvider options r))) = true.
Proof.
  intros Hne.
  assert (Heq : unregisterAnnotationProvider (registered_id options)
                  (registerAnnotationProvider options r)
                = ({| annotationProviders :=
                        Map_delete (registered_id options) (annotationProviders r);
                      activeProviders := {[registered_id options]} ∪ activeProviders r |},
                   [])).
  { unfold unregisterAnnotationProvider, registerAnnotationProvider, registered_id in *.
    cbn [annotationProviders activeProviders id].
    destruct (String.eqb_spec
                (or_else (opt_id options)
                   (replace_non_alnum (toLowerCase (opt_name options)))) "default")
      as [E | _]; [contradiction |].
    unfold Map_has. now rewrite Map_get_set, Map_delete_set. }
  rewrite Heq. cbn [fst annotationProviders activeProviders].
  split; [reflexivity |].
  split; [apply Map_delete_absent |].
  split; [apply Map_get_delete |].
  unfold isProviderActive. cbn [activeProviders].
  apply bool_decide_eq_true_2. apply elem_of_union. left. now apply elem_of_singleton.
Qed.

Lemma filter_eqb_NoDup (k : string) (l : list string) :
  NoDup l -> In k l -> List.filter (fun k' => String.eqb k' k) l = [k].
Proof.
  induction l as [| k' l IH]; intros Hnd Hin; [destruct Hin |].
  apply NoDup_cons in Hnd as [Hk' Hnd]. cbn [List.filter].
  destruct (String.eqb_spec k' k) as [-> | Hne].
  - f_equal. clear IH Hin Hnd. induction l as [| k'' l IH]; [reflexivity |].
    cbn [List.filter].
    destruct (String.eqb_spec k'' k) as [-> | _].
    + exfalso. apply Hk'. now left.
    + apply IH. intros H. apply Hk'. now right.
  - destruct Hin as [E | Hin]; [contradiction |]. now apply IH.
Qed.

(** X9. A cleanup in any history leaves exactly one registered id,
    ['default'], holding what it held before, and ['default'] as the only
    active id; every annotation then resolves to the default provider, and a
    second cleanup changes nothing. *)
Theorem cleanupProviders_resets (ops : list RegistryOp) :
  let r := run_ops paintDefaultText ops in
  Map_keys (annotationProviders (cleanupProviders r)) = ["default"]
  /\ getAnnotationProvider "default" (cleanupProviders r)
     = getAnnotationProvider "default" r
  /\ activeProviders (cleanupProviders r) = {["default"]}
  /\ (forall annotation,
        findProviderForAnnotation paintDefaultText (cleanupProviders r) annotation
        = Ok (defaultProvider paintDefaultText))
  /\ cleanupProviders (cleanupProviders r) = cleanupProviders r.
Proof.
  cbv zeta. destruct (registry_inv_run paintDefaultText ops)
    as (Hnd & Hid & _ & Hdefault & _).
  set (r := run_ops paintDefaultText ops) in *.
  split.
  { rewrite cleanupProviders_map, filter_key_keys.
    apply filter_eqb_NoDup; [assumption | now apply Map_has_keys]. }
  split; [unfold getAnnotationProvider; rewrite cleanupProviders_map;
          apply filter_key_get |].
  split; [reflexivity |].
  split.
  { intros annotation. unfold findProviderForAnnotation, getAllProviders.
    rewrite cleanupProviders_map.
    clear Hnd Hdefault. revert Hid. generalize (annotationProviders r).
    intros m. induction m as [| [k p] m IH]; intros Hall; [reflexivity |].
    cbn [List.filter fst].
    destruct (String.eqb_spec k "default") as [-> | Hne].
    - cbn [Map_values map snd List.filter].
      rewrite (Hall "default" p (or_introl eq_refl)), String.eqb_refl. cbn [negb].
      apply IH. intros k' p' Hin. apply Hall. now right.
    - apply IH. intros k' p' Hin. apply Hall. now right. }
  assert (Hmap : annotationProviders (cleanupProviders (cleanupProviders r))
                 = annotationProviders (cleanupProviders r)).
  { rewrite (cleanupProviders_map (cleanupProviders r)), cleanupProviders_map.
    clear Hnd Hid Hdefault.
    induction (annotationProviders r) as [| [k p] m IH]; [reflexivity |].
    cbn [List.filter fst].
    destruct (String.eqb k "default") eqn:E; [| exact IH].
    cbn [List.filter fst]. rewrite E. now f_equal. }
  destruct (cleanupProviders (cleanupProviders r)) as [m2 a2] eqn:E2.
  destruct (cleanupProviders r) as [m1 a1] eqn:E1.
  cbn [annotationProviders] in Hmap. subst m2.
  unfold cleanupProviders in E2, E1. injection E2 as _ <-. injection E1 as _ <-.
  reflexivity.
Qed.

End RegistryRoundTrips.

Lemma register_then_unregister_witness :
  registered_id (accepting "Highlight" Normal) <> "default"
  /\ Map_keys (annotationProviders
                 (fst (unregisterAnnotationProvider "highlight" registry_highlight)))
     = ["default"]
  /\ isProviderActive "highlight"
       (fst (unregisterAnnotationProvider "highlight" registry_highlight)) = true.
Proof.
  assert (Hne : registered_id (accepting "Highlight" Normal) <> "default")
    by (vm_compute; discriminate).
  destruct (@register_then_unregister unit (accepting "Highlight" Normal) registry0 Hne)
    as (_ & Hmap & _ & Hactive).
  split; [exact Hne |].
  split; [| exact Hactive].
  exact (f_equal Map_keys (Hmap eq_refl)).
Defined.

(** ** HTML overlays *)

Section OverlayFacts.

Context {W : Type}.
Variable paintDefaultText : AnnotationRenderContext -> W -> Completion * W.
Variable measureHtml : string -> float -> float * float.
Variable isPointInPath : Path2D -> float -> float -> bool.

Abbreviation St := (@St W).

Lemma keeps_ret {A : Type} (a : A) : keeps_overlays (@ret W A a).
Proof. intros st res st' [= _ <-]. reflexivity. Qed.

Lemma keeps_emit (ev : Event) : keeps_overlays (@emit W ev).
Proof. intros st res st' [= _ <-]. reflexivity. Qed.

Lemma keeps_call_render (provider : @AnnotationProvider W)
    (context : AnnotationRenderContext) :
  keeps_overlays (call_render provider context).
Proof.
  intros st res st'. unfold call_render.
  destruct (render provider context (world st)) as [[| e] w]; intros [= _ <-];
    reflexivity.
Qed.

Lemma keeps_bind {A B : Type} (c : @M W A) (k : A -> @M W B) :
  keeps_overlays c -> (forall a, keeps_overlays (k a)) -> keeps_overlays (bind c k).
Proof.
  intros Hc Hk st res st'. unfold bind.
  destruct (c st) as [[a | e] st1] eqn:E.
  - intros Hrun. rewrite (Hk a _ _ _ Hrun). exact (Hc _ _ _ E).
  - intros [= _ <-]. exact (Hc _ _ _ E).
Qed.

Lemma keeps_try_catch {A : Type} (c : @M W A) (handler : string -> @M W A) :
  keeps_overlays c -> (forall e, keeps_overlays (handler e)) ->
  keeps_overlays (try_catch c handler).
Proof.
  intros Hc Hh st res st'. unfold try_catch.
  destruct (c st) as [[a | e] st1] eqn:E.
  - intros [= _ <-]. exact (Hc _ _ _ E).
  - intros Hrun. rewrite (Hh e _ _ _ Hrun). exact (Hc _ _ _ E).
Qed.

Lemma adds_keeps (annotationId : string) {A : Type} (c : @M W A) :
  keeps_overlays c -> adds_overlay annotationId c.
Proof. intros Hc st res st' Hrun. left. exact (Hc _ _ _ Hrun). Qed.

Lemma adds_then_keeps (annotationId : string) {A B : Type} (c : @M W A)
    (k : A -> @M W B) :
  adds_overlay annotationId c -> (forall a, keeps_overlays (k a)) ->
  adds_overlay annotationId (bind c k).
Proof.
  intros Hc Hk st res st'. unfold bind.
  destruct (c st) as [[a | e] st1] eqn:E.
  - intros Hrun. rewrite (Hk a _ _ _ Hrun). exact (Hc _ _ _ E).
  - intros [= _ <-]. exact (Hc _ _ _ E).
Qed.

Lemma simpleHtmlRender_run
    (query : string -> list OverlayElement -> result (option OverlayElement))
    (generate : AnnotationRenderContext -> OverlayAnnotation -> result string)
    (canvas : CanvasElement) (context : AnnotationRenderContext)
    (annotation : OverlayAnnotation) (st : St) :
  simpleHtmlRender measureHtml query generate canvas context annotation st
  = match query (attribute_selector (overlayId annotation)) (overlays st) with
    | Ok (Some _) => (Ok true, st)
    | Ok None =>
        match generate context annotation with
        | Ok htmlContent =>
            let scaledFontSize :=
              Math_max [8; Math_min [16; 12 * (bounds_width canvas / canvas_width canvas)]]%float in
            let size := measureHtml htmlContent scaledFontSize in
            let scaleX := (bounds_width canvas / canvas_width canvas)%float in
            let scaleY := (bounds_height canvas / canvas_height canvas)%float in
            let centerX :=
              (minX (ctx_rect context) * scaleX
               + width (ctx_rect context) * scaleX / 2)%float in
            let centerY :=
              (minY (ctx_rect context) * scaleY
               + height (ctx_rect context) * scaleY / 2)%float in
            (Ok true,
             {| world := world st;
                overlays :=
                  overlays st
                  ++ [{| data_annotation_id := overlayId annotation;
                         innerHTML := htmlContent;
                         style_left := (centerX - fst size / 2)%float;
                         style_top := (centerY - snd size / 2)%float;
                         style_width := fst size;
                         style_height := snd size;
                         style_fontSize := scaledFontSize |}];
                trace := trace st ++ [OverlayAppended (overlayId annotation)] |})
        | Thrown _ =>
            (Ok false,
             add_events st [ConsoleWarn "[Simple HTML Render] Error creating overlay:"])
        end
    | Thrown _ =>
        (Ok false,
         add_events st [ConsoleWarn "[Simple HTML Render] Error creating overlay:"])
    end.
Proof.
  unfold simpleHtmlRender, overlayId, try_catch.
  unfold bind at 1, get_overlays at 1.
  unfold bind at 1, of_result at 1.
  destruct (query _ (overlays st)) as [[o |] | e]; [reflexivity | | reflexivity].
  unfold bind at 1, of_result.
  destruct (generate context annotation) as [htmlContent | e]; [| reflexivity].
  cbn [ret]. unfold bind at 1.
  unfold convertPdfCoordsToOverlayCoords, convertCanvasToOverlayCoords, try_catch,
    bind at 1, ret.
  cbn [sc_x sc_y sc_width sc_height]. cbv zeta.
  destruct (measureHtml htmlContent _) as [naturalWidth naturalHeight].
  reflexivity.
Qed.

Lemma htmlAnnotationStage_adds (env : Env) (context : AnnotationRenderContext)
    (annotation : OverlayAnnotation) :
  adds_overlay (overlayId annotation)
    (htmlAnnotationStage (W:=W) measureHtml env context annotation).
Proof.
  unfold htmlAnnotationStage.
  destruct (htmlAnnotation env) as [generate |]; [| apply adds_keeps, keeps_ret].
  destruct (canvasRef env) as [canvas |]; [| apply adds_keeps, keeps_ret].
  destruct (htmlOverlayContainer env); [| apply adds_keeps, keeps_ret].
  intros st res st'. rewrite simpleHtmlRender_run.
  destruct (querySelector env _ _) as [[o |] | e];
    [intros [= _ <-]; now left | | intros [= _ <-]; now left].
  destruct (generate context annotation) as [htmlContent | e].
  - cbv zeta. intros [= _ <-]. right. cbn [overlays]. eauto.
  - intros [= _ <-]. now left.
Qed.

Lemma htmlAnnotationStage_no_container (env : Env) (context : AnnotationRenderContext)
    (annotation : OverlayAnnotation) :
  htmlOverlayContainer env = false ->
  htmlAnnotationStage (W:=W) measureHtml env context annotation = ret false.
Proof.
  intros H. unfold htmlAnnotationStage. rewrite H.
  destruct (htmlAnnotation env), (canvasRef env); reflexivity.
Qed.

Lemma provider_dispatch_keeps (r : @Registry W) (disabled : bool)
    (annotation : OverlayAnnotation) (context : AnnotationRenderContext) :
  keeps_overlays
    (bind (of_result (findProviderForAnnotation paintDefaultText r annotation))
       (fun provider =>
          try_catch (call_render provider context)
            (fun _ =>
               bind (emit (ConsoleWarn ("Error rendering annotation with provider "
                                        +:+ id provider +:+ ":")))
                 (fun _ =>
                    if negb (String.eqb (id provider) "default") && negb disabled
                    then
                      try_catch (call_render (defaultProvider paintDefaultText) context)
                        (fun _ => emit (ConsoleError "Default provider also failed:"))
                    else ret tt)))).
Proof.
  apply keeps_bind;
    [intros st res st'; destruct (findProviderForAnnotation _ _ _);
     intros [= _ <-]; reflexivity | intros provider].
  apply keeps_try_catch; [apply keeps_call_render | intros e].
  apply keeps_bind; [apply keeps_emit | intros _].
  destruct (_ && _); [| apply keeps_ret].
  apply keeps_try_catch; [apply keeps_call_render | intros e'; apply keeps_emit].
Qed.

Lemma drawAnnotationText_adds (env : Env) (r : @Registry W) (disabled : bool)
    (annotation : OverlayAnnotation) (effectiveDpi : float) (pageNumber : Z) :
  adds_overlay (overlayId annotation)
    (drawAnnotationText paintDefaultText measureHtml env r disabled annotation
       effectiveDpi pageNumber).
Proof.
  unfold drawAnnotationText.
  destruct (blank (content annotation)); [apply adds_keeps, keeps_ret |].
  destruct (_ <? 3)%nat; [apply adds_keeps, keeps_ret |].
  destruct (_ || _); [apply adds_keeps, keeps_ret |].
  apply adds_then_keeps; [apply htmlAnnotationStage_adds |].
  intros [|]; [apply keeps_ret |].
  apply (provider_dispatch_keeps r disabled annotation).
Qed.

Lemma drawAnnotationText_no_container (env : Env) (r : @Registry W) (disabled : bool)
    (annotation : OverlayAnnotation) (effectiveDpi : float) (pageNumber : Z) :
  htmlOverlayContainer env = false ->
  keeps_overlays
    (drawAnnotationText paintDefaultText measureHtml env r disabled annotation
       effectiveDpi pageNumber).
Proof.
  intros Hnone. unfold drawAnnotationText.
  destruct (blank (content annotation)); [apply keeps_ret |].
  destruct (_ <? 3)%nat; [apply keeps_ret |].
  destruct (_ || _); [apply keeps_ret |].
  rewrite htmlAnnotationStage_no_container by assumption.
  apply keeps_bind; [apply keeps_ret |].
  intros [|]; [apply keeps_ret |].
  apply (provider_dispatch_keeps r disabled annotation).
Qed.

(** X10. With an [htmlAnnotation] callback, a canvas and an overlay
    container, an annotation that passes the guards of the render entry
    point is handled by the callback first.  The container is asked for an
    overlay of the annotation with the attribute selector built from the
    annotation id.  If it finds one, nothing happens at all.  If it finds
    none and the callback returns HTML, one overlay with that HTML and the
    size the browser measures for it is appended and no provider is invoked.
    If the callback throws, or the selector is rejected (the id goes into it
    unescaped), a warning is logged and the annotation is rendered by its
    provider exactly as if there were no callback. *)
Theorem drawAnnotationText_html_first (env : Env) (r : @Registry W) (disabled : bool)
    (annotation : OverlayAnnotation) (effectiveDpi : float) (pageNumber : Z)
    (generate : AnnotationRenderContext -> OverlayAnnotation -> result string)
    (canvas : CanvasElement) (st : St) :
  let context := renderContext annotation effectiveDpi pageNumber in
  let drawText := drawAnnotationText paintDefaultText measureHtml in
  let existingOverlay :=
    querySelector env (attribute_selector (overlayId annotation)) (overlays st) in
  htmlAnnotation env = Some generate ->
  canvasRef env = Some canvas ->
  htmlOverlayContainer env = true ->
  blank (content annotation) = false ->
  (3 <= length (convertCoordinates (rect annotation) effectiveDpi))%nat ->
  (width (ctx_rect context) <=? 0)%float = false ->
  (height (ctx_rect context) <=? 0)%float = false ->
  (forall found,
      existingOverlay = Ok (Some found) ->
      drawText env r disabled annotation effectiveDpi pageNumber st = (Ok tt, st))
  /\ (forall htmlContent,
        existingOverlay = Ok None ->
        generate context annotation = Ok htmlContent ->
        exists o,
          drawText env r disabled annotation effectiveDpi pageNumber st
          = (Ok tt,
             {| world := world st;
                overlays := overlays st ++ [o];
                trace := trace st ++ [OverlayAppended (overlayId annotation)] |})
          /\ data_annotation_id o = overlayId annotation
          /\ innerHTML o = htmlContent
          /\ (style_width o, style_height o)
             = measureHtml htmlContent (style_fontSize o))
  /\ (forall e,
        existingOverlay = Thrown e
        \/ (existingOverlay = Ok None /\ generate context annotation = Thrown e) ->
        drawText env r disabled annotation effectiveDpi pageNumber st
        = drawText (without_htmlAnnotation env) r disabled annotation effectiveDpi
            pageNumber
            (add_events st [ConsoleWarn "[Simple HTML Render] Error creating overlay:"])).
Proof.
  intros context drawText existingOverlay
    Hcallback Hcanvas Hcontainer Hcontent Hpoints Hwidth Hheight.
  apply Nat.ltb_ge in Hpoints.
  assert (Hstage : htmlAnnotationStage (W:=W) measureHtml env context annotation
                   = simpleHtmlRender measureHtml (querySelector env) generate canvas
                       context annotation)
    by (unfold htmlAnnotationStage; now rewrite Hcallback, Hcanvas, Hcontainer).
  assert (Hdraw : forall st0,
             drawText env r disabled annotation effectiveDpi pageNumber st0
             = bind (simpleHtmlRender measureHtml (querySelector env) generate canvas
                       context annotation)
                 (fun handled =>
                    if handled then ret tt
                    else drawText (without_htmlAnnotation env) r disabled annotation
                           effectiveDpi pageNumber) st0).
  { intros st0. subst drawText. unfold drawAnnotationText.
    rewrite Hcontent, Hpoints. fold context. rewrite Hwidth, Hheight. cbn [orb].
    rewrite Hstage. unfold bind.
    destruct (simpleHtmlRender _ _ _ _ _ _ st0) as [[[|] | e] st1]; reflexivity. }
  subst existingOverlay. split; [| split].
  - intros found Hfound. rewrite Hdraw. unfold bind.
    rewrite simpleHtmlRender_run, Hfound. reflexivity.
  - intros htmlContent Hnone Hgen. rewrite Hdraw. unfold bind.
    rewrite simpleHtmlRender_run, Hnone, Hgen. cbv zeta.
    eexists. split; [reflexivity |]. cbn [data_annotation_id innerHTML style_width
      style_height style_fontSize].
    split; [reflexivity |]. split; [reflexivity |].
    now destruct (measureHtml htmlContent _).
  - intros e [Hthrown | [Hnone Hgen]]; rewrite Hdraw; unfold bind;
      rewrite simpleHtmlRender_run.
    + rewrite Hthrown. reflexivity.
    + rewrite Hnone, Hgen. reflexivity.
Qed.

Lemma keeps_then_adds (annotationId : string) {A B : Type} (c : @M W A)
    (k : A -> @M W B) :
  keeps_overlays c -> (forall a, adds_overlay annotationId (k a)) ->
  adds_overlay annotationId (bind c k).
Proof.
  intros Hc Hk st res st'. unfold bind.
  destruct (c st) as [[a | e] st1] eqn:E.
  - intros Hrun. rewrite <- (Hc _ _ _ E). exact (Hk a _ _ _ Hrun).
  - intros [= _ <-]. left. exact (Hc _ _ _ E).
Qed.

Lemma adds_try_catch (annotationId : string) {A : Type} (c : @M W A)
    (handler : string -> @M W A) :
  adds_overlay annotationId c -> (forall e, keeps_overlays (handler e)) ->
  adds_overlay annotationId (try_catch c handler).
Proof.
  intros Hc Hh st res st'. unfold try_catch.
  destruct (c st) as [[a | e] st1] eqn:E.
  - intros [= _ <-]. exact (Hc _ _ _ E).
  - intros Hrun. rewrite (Hh e _ _ _ Hrun). exact (Hc _ _ _ E).
Qed.

(** The hover effect adds at most one overlay, and none without a
    container. *)
Lemma drawHoverEffect_grows (env : Env) (r : @Registry W) (disabled : bool)
    (annotationPaths : JsMap HitTestEntry) (x y effectiveDpi : float)
    (st st' : St) (res : result unit) :
  drawHoverEffect paintDefaultText measureHtml isPointInPath env r disabled
    annotationPaths x y effectiveDpi st = (res, st') ->
  (length (overlays st') <= S (length (overlays st)))%nat
  /\ (htmlOverlayContainer env = false -> overlays st' = overlays st).
Proof.
  unfold drawHoverEffect.
  destruct (getAnnotationAtPoint _ _ _ _) as [a |];
    [| intros [= _ <-]; split; [lia | reflexivity]].
  destruct (Map_get _ _) as [entry |];
    [| intros [= _ <-]; split; [lia | reflexivity]].
  intros Hrun. split.
  - assert (Hadds : adds_overlay (overlayId a)
                      (bind (@emit W (CanvasFill (entry_path entry)))
                         (fun _ =>
                            bind (emit (CanvasStroke (entry_path entry)))
                              (fun _ =>
                                 try_catch
                                   (drawAnnotationText paintDefaultText measureHtml env r
                                      disabled a effectiveDpi 0)
                                   (fun _ => emit (ConsoleWarn "Error drawing annotation text:")))))).
    { apply keeps_then_adds; [apply keeps_emit | intros _].
      apply keeps_then_adds; [apply keeps_emit | intros _].
      apply adds_try_catch; [apply drawAnnotationText_adds | intros e; apply keeps_emit]. }
    destruct (Hadds _ _ _ Hrun) as [-> | (o & -> & _)]; [lia |].
    rewrite length_app. simpl. lia.
  - intros Hnone. revert Hrun.
    apply keeps_bind; [apply keeps_emit | intros _].
    apply keeps_bind; [apply keeps_emit | intros _].
    apply keeps_try_catch; [| intros e; apply keeps_emit].
    now apply drawAnnotationText_no_container.
Qed.

Lemma move_overlays (env : Env) (r : @Registry W) (disabled : bool)
    (annotationPaths : JsMap HitTestEntry) (hover : HoverState)
    (event : MouseEvent) (st st' : St) (res : result HoverState) :
  consistent hover ->
  handleCanvasMouseMove paintDefaultText measureHtml isPointInPath env r disabled
    annotationPaths hover event st = (res, st') ->
  overlays st' = overlays st \/ (length (overlays st') <= 1)%nat.
Proof.
  unfold consistent, handleCanvasMouseMove, handleAnnotationHover.
  destruct (canvasRef env) as [canvas |]; [| intros _ [= _ <-]; now left].
  destruct (overlayCanvasRef env) as [[|] |]; try (intros _ [= _ <-]; now left).
  cbv zeta. set (g := getAnnotationAtPoint _ _ _ _).
  intros Hcons.
  destruct g as [a |].
  - destruct (differs (previousHoveredAnnotation hover) (Some a)) eqn:Hchanged.
    + rewrite orb_true_r. cbn [negb].
      unfold bind at 1. rewrite bind_emit, bind_clearHtmlOverlays.
      unfold bind at 1.
      destruct (drawHoverEffect _ _ _ _ _ _ _ _ _ _ (teardown env st))
        as [[[] | e] st2] eqn:Hdraw.
      * cbn. intros [= _ <-]. cbn [overlays].
        apply drawHoverEffect_grows in Hdraw as [Hlen Hnone].
        unfold teardown in Hlen, Hnone. cbn [overlays] in Hlen, Hnone.
        destruct (htmlOverlayContainer env); [right; simpl in Hlen; lia |].
        left. now apply Hnone.
      * intros [= _ <-].
        apply drawHoverEffect_grows in Hdraw as [Hlen Hnone].
        unfold teardown in Hlen, Hnone. cbn [overlays] in Hlen, Hnone.
        destruct (htmlOverlayContainer env); [right; simpl in Hlen; lia |].
        left. now apply Hnone.
    + destruct (previousHoveredAnnotation hover) as [p |]; [| discriminate].
      cbn [is_hit] in Hcons. rewrite Hcons. cbn [Bool.eqb negb orb].
      intros [= _ <-]. now left.
  - cbn [negb].
    destruct (negb (Bool.eqb (previousHoverState hover) false)
              || differs (previousHoveredAnnotation hover) None) eqn:Hchanged.
    + unfold bind at 1. rewrite bind_emit, bind_clearHtmlOverlays.
      intros [= _ <-]. cbn [overlays teardown].
      destruct (htmlOverlayContainer env); [right; simpl; lia | now left].
    + intros [= _ <-]. now left.
Qed.

Lemma move_keeps_consistent (env : Env) (r : @Registry W) (disabled : bool)
    (annotationPaths : JsMap HitTestEntry) (hover hover' : HoverState)
    (event : MouseEvent) (st st' : St) :
  consistent hover ->
  handleCanvasMouseMove paintDefaultText measureHtml isPointInPath env r disabled
    annotationPaths hover event st = (Ok hover', st') ->
  consistent hover'.
Proof.
  intros Hcons Hrun. destruct (ready env) eqn:Hready.
  - apply (tracks_consistent _ (hit isPointInPath env annotationPaths event)).
    now apply (move_tracks paintDefaultText measureHtml isPointInPath env r disabled
                 annotationPaths hover hover' event st st').
  - pose proof (moves_not_ready paintDefaultText measureHtml isPointInPath env r
                  disabled annotationPaths hover st Hready [event]) as Hsame.
    cbn [handleMoves] in Hsame. unfold bind in Hsame. rewrite Hrun in Hsame.
    unfold ret in Hsame. now injection Hsame as -> _.
Qed.

(** X11. However the pointer moves, the overlay container never holds more
    than one HTML overlay: starting from a hover state whose flags agree and
    at most one overlay, every sequence of handled moves ends normally with
    at most one overlay in the container and with flags that agree. *)
Theorem pointer_moves_one_overlay (env : Env) (r : @Registry W) (disabled : bool)
    (annotationPaths : JsMap HitTestEntry) (events : list MouseEvent)
    (hover : HoverState) (st : St) :
  consistent hover ->
  (length (overlays st) <= 1)%nat ->
  exists hover' st',
    handleMoves paintDefaultText measureHtml isPointInPath env r disabled
      annotationPaths hover events st = (Ok hover', st')
    /\ consistent hover'
    /\ (length (overlays st') <= 1)%nat.
Proof.
  revert hover st. induction events as [| event events IH]; intros hover st Hcons Hlen.
  - exists hover, st. repeat split; assumption.
  - cbn [handleMoves]. unfold bind.
    destruct (move_returns paintDefaultText measureHtml isPointInPath env r disabled
                annotationPaths hover event st) as (hover1 & st1 & Hmove).
    rewrite Hmove. apply IH.
    + exact (move_keeps_consistent _ _ _ _ _ _ _ _ _ Hcons Hmove).
    + destruct (move_overlays _ _ _ _ _ _ _ _ _ Hcons Hmove) as [-> | H]; assumption.
Qed.


End OverlayFacts.

Lemma drawAnnotationText_html_first_witness :
  exists o,
    drawAnnotationText paint0 measure0 env_html registry0 false square_annotation 96 0 st0
    = (Ok tt, {| world := tt; overlays := [o]; trace := [OverlayAppended "1-7"] |})
    /\ innerHTML o = "<b>cell</b>".
Proof.
  destruct (drawAnnotationText_html_first paint0 measure0 env_html registry0 false
              square_annotation 96 0 bold_html canvas0 st0
              eq_refl eq_refl eq_refl eq_refl (le_S _ _ (le_n 3)) eq_refl eq_refl)
    as (_ & Hok & _).
  destruct (Hok "<b>cell</b>" eq_refl eq_refl) as (o & Hrun & _ & Hhtml & _).
  exists o. split; [exact Hrun | exact Hhtml].
Defined.

Lemma pointer_moves_one_overlay_witness :
  exists hover' st',
    handleMoves paint0 measure0 rayCast_isPointInPath env_html registry0 false
      square_index initialHoverState [inside; outside; inside] st0 = (Ok hover', st')
    /\ consistent hover'
    /\ (length (overlays st') <= 1)%nat.
Proof.
  exact (pointer_moves_one_overlay paint0 measure0 rayCast_isPointInPath env_html
           registry0 false square_index [inside; outside; inside]
           initialHoverState st0 eq_refl (le_S _ _ (le_n 0))).
Defined.


(** ** The order of binary64 values *)

Lemma lex_compare_refl (a : Z * Z * Z) : lex_compare a a = Eq.
Proof. unfold lex_compare. now rewrite !Z.compare_refl. Qed.

Lemma lex_compare_antisym (a b : Z * Z * Z) :
  lex_compare b a = CompOpp (lex_compare a b).
Proof.
  unfold lex_compare.
  rewrite (Z.compare_antisym (fst (fst a)) (fst (fst b))),
    (Z.compare_antisym (snd (fst a)) (snd (fst b))),
    (Z.compare_antisym (snd a) (snd b)).
  destruct (fst (fst a) ?= fst (fst b))%Z; cbn [CompOpp]; try reflexivity.
  destruct (snd (fst a) ?= snd (fst b))%Z; reflexivity.
Qed.

Lemma lex_compare_le_trans (a b c : Z * Z * Z) :
  lex_compare a b <> Gt -> lex_compare b c <> Gt -> lex_compare a c <> Gt.
Proof.
  destruct a as [[a1 a2] a3], b as [[b1 b2] b3], c as [[c1 c2] c3].
  unfold lex_compare. cbn [fst snd].
  destruct (Z.compare_spec a1 b1), (Z.compare_spec b1 c1), (Z.compare_spec a1 c1);
    try lia; try congruence;
    destruct (Z.compare_spec a2 b2), (Z.compare_spec b2 c2), (Z.compare_spec a2 c2);
    try lia; try congruence;
    destruct (Z.compare_spec a3 b3), (Z.compare_spec b3 c3), (Z.compare_spec a3 c3);
    try lia; congruence.
Qed.

Lemma SFcompare_rank (f g : spec_float) :
  f <> S754_nan -> g <> S754_nan ->
  SFcompare f g = Some (lex_compare (sf_rank f) (sf_rank g)).
Proof.
  intros Hf Hg.
  destruct f as [sf | sf | | sf mf ef], g as [sg | sg | | sg mg eg];
    try contradiction; try (destruct sf); try (destruct sg); try reflexivity.
  cbn [SFcompare sf_rank]. unfold lex_compare. cbn [fst snd].
  rewrite Z.compare_opp, (Z.compare_antisym ef eg).
  change (-1 ?= -1)%Z with Eq. cbv iota.
  destruct (ef ?= eg)%Z; reflexivity.
Qed.

Lemma is_nan_Prim2SF (x : float) :
  is_nan x = false <-> Prim2SF x <> S754_nan.
Proof.
  unfold is_nan. rewrite FloatAxioms.eqb_spec. unfold SFeqb. split.
  - intros H E. rewrite E in H. discriminate.
  - intros H. rewrite SFcompare_rank by assumption.
    now rewrite lex_compare_refl.
Qed.

Lemma is_nan_true_Prim2SF (x : float) :
  is_nan x = true <-> Prim2SF x = S754_nan.
Proof.
  split.
  - intros H. destruct (Prim2SF x) eqn:E; try reflexivity;
      assert (Hn : is_nan x = false) by (apply is_nan_Prim2SF; rewrite E; discriminate);
      congruence.
  - intros E. destruct (is_nan x) eqn:Hn; [reflexivity |].
    apply is_nan_Prim2SF in Hn. contradiction.
Qed.

(** Comparisons with [NaN] are false. *)
Lemma nan_compares_false (x y : float) :
  is_nan x = true ->
  (x <? y)%float = false /\ (y <? x)%float = false
  /\ (x <=? y)%float = false /\ (y <=? x)%float = false.
Proof.
  intros Hx. apply is_nan_true_Prim2SF in Hx.
  rewrite !FloatAxioms.ltb_spec, !FloatAxioms.leb_spec. unfold SFltb, SFleb. rewrite Hx.
  cbn [SFcompare]. repeat split; try reflexivity; now destruct (Prim2SF y).
Qed.

Lemma float_compare (x y : float) :
  is_nan x = false -> is_nan y = false ->
  exists c,
    SFcompare (Prim2SF x) (Prim2SF y) = Some c
    /\ SFcompare (Prim2SF y) (Prim2SF x) = Some (CompOpp c).
Proof.
  intros Hx Hy. apply is_nan_Prim2SF in Hx, Hy.
  exists (lex_compare (sf_rank (Prim2SF x)) (sf_rank (Prim2SF y))).
  rewrite !SFcompare_rank by assumption. split; [reflexivity |].
  now rewrite lex_compare_antisym.
Qed.

Lemma ltb_false_leb (x y : float) :
  is_nan x = false -> is_nan y = false ->
  (x <? y)%float = false -> (y <=? x)%float = true.
Proof.
  intros Hx Hy. rewrite FloatAxioms.ltb_spec, FloatAxioms.leb_spec. unfold SFltb, SFleb.
  destruct (float_compare x y Hx Hy) as (c & -> & ->). now destruct c.
Qed.

Lemma leb_false_ltb (x y : float) :
  is_nan x = false -> is_nan y = false ->
  (x <=? y)%float = false -> (y <? x)%float = true.
Proof.
  intros Hx Hy. rewrite FloatAxioms.ltb_spec, FloatAxioms.leb_spec. unfold SFltb, SFleb.
  destruct (float_compare x y Hx Hy) as (c & -> & ->). now destruct c.
Qed.

Lemma leb_true_ltb_false (x y : float) :
  (x <=? y)%float = true -> (y <? x)%float = false.
Proof.
  intros H. destruct (is_nan x) eqn:Hx;
    [now destruct (nan_compares_false x y Hx) as (_ & ? & _) |].
  destruct (is_nan y) eqn:Hy;
    [now destruct (nan_compares_false y x Hy) as (? & _) |].
  revert H. rewrite FloatAxioms.ltb_spec, FloatAxioms.leb_spec. unfold SFltb, SFleb.
  destruct (float_compare x y Hx Hy) as (c & -> & ->). now destruct c.
Qed.

Lemma ltb_true_leb_false (x y : float) :
  (x <? y)%float = true -> (y <=? x)%float = false.
Proof.
  intros H. destruct (is_nan x) eqn:Hx;
    [now destruct (nan_compares_false x y Hx) as (_ & _ & _ & ?) |].
  destruct (is_nan y) eqn:Hy;
    [now destruct (nan_compares_false y x Hy) as (_ & _ & ? & _) |].
  revert H. rewrite FloatAxioms.ltb_spec, FloatAxioms.leb_spec. unfold SFltb, SFleb.
  destruct (float_compare x y Hx Hy) as (c & -> & ->). now destruct c.
Qed.

Lemma ltb_leb (x y : float) : (x <? y)%float = true -> (x <=? y)%float = true.
Proof.
  rewrite FloatAxioms.ltb_spec, FloatAxioms.leb_spec. unfold SFltb, SFleb.
  now destruct (SFcompare (Prim2SF x) (Prim2SF y)) as [[| |] |].
Qed.

Lemma leb_not_nan (x y : float) :
  (x <=? y)%float = true -> is_nan x = false /\ is_nan y = false.
Proof.
  intros H. split.
  - destruct (is_nan x) eqn:Hx; [| reflexivity].
    destruct (nan_compares_false x y Hx) as (_ & _ & ? & _). congruence.
  - destruct (is_nan y) eqn:Hy; [| reflexivity].
    destruct (nan_compares_false y x Hy) as (_ & _ & _ & ?). congruence.
Qed.

Lemma leb_refl (x : float) : is_nan x = false -> (x <=? x)%float = true.
Proof.
  intros Hx. rewrite FloatAxioms.leb_spec. unfold SFleb. apply is_nan_Prim2SF in Hx.
  now rewrite SFcompare_rank, lex_compare_refl.
Qed.

Lemma leb_trans (x y z : float) :
  (x <=? y)%float = true -> (y <=? z)%float = true -> (x <=? z)%float = true.
Proof.
  intros Hxy Hyz.
  destruct (leb_not_nan _ _ Hxy) as [Hx Hy], (leb_not_nan _ _ Hyz) as [_ Hz].
  apply is_nan_Prim2SF in Hx, Hy, Hz.
  revert Hxy Hyz. rewrite !FloatAxioms.leb_spec. unfold SFleb.
  rewrite !SFcompare_rank by assumption.
  pose proof (lex_compare_le_trans (sf_rank (Prim2SF x)) (sf_rank (Prim2SF y))
                (sf_rank (Prim2SF z))) as Htrans.
  destruct (lex_compare (sf_rank (Prim2SF x)) (sf_rank (Prim2SF y)));
    destruct (lex_compare (sf_rank (Prim2SF y)) (sf_rank (Prim2SF z)));
    destruct (lex_compare (sf_rank (Prim2SF x)) (sf_rank (Prim2SF z)));
    intros; try reflexivity; try discriminate;
    exfalso; apply Htrans; congruence.
Qed.

Lemma Math_min2_nan (a b : float) :
  is_nan (Math_min2 a b) = is_nan a || is_nan b.
Proof.
  unfold Math_min2.
  destruct (is_nan a) eqn:Ha; [reflexivity |].
  destruct (is_nan b) eqn:Hb; [reflexivity |]. cbn [orb].
  destruct (a <? b)%float; [assumption |].
  destruct (b <? a)%float; [assumption |].
  now destruct (get_sign a).
Qed.

Lemma Math_max2_nan (a b : float) :
  is_nan (Math_max2 a b) = is_nan a || is_nan b.
Proof.
  unfold Math_max2.
  destruct (is_nan a) eqn:Ha; [reflexivity |].
  destruct (is_nan b) eqn:Hb; [reflexivity |]. cbn [orb].
  destruct (a <? b)%float; [assumption |].
  destruct (b <? a)%float; [assumption |].
  now destruct (get_sign a).
Qed.

Lemma Math_min2_le (a b : float) :
  is_nan a = false -> is_nan b = false ->
  (Math_min2 a b <=? a)%float = true /\ (Math_min2 a b <=? b)%float = true
  /\ (Math_min2 a b = a \/ Math_min2 a b = b).
Proof.
  intros Ha Hb. unfold Math_min2. rewrite Ha, Hb. cbn [orb].
  destruct (a <? b)%float eqn:Hab.
  - repeat split; [now apply leb_refl | now apply ltb_leb | now left].
  - destruct (b <? a)%float eqn:Hba.
    + repeat split; [now apply ltb_leb | now apply leb_refl | now right].
    + destruct (get_sign a).
      * repeat split; [now apply leb_refl | now apply ltb_false_leb | now left].
      * repeat split; [now apply ltb_false_leb | now apply leb_refl | now right].
Qed.

Lemma Math_max2_ge (a b : float) :
  is_nan a = false -> is_nan b = false ->
  (a <=? Math_max2 a b)%float = true /\ (b <=? Math_max2 a b)%float = true
  /\ (Math_max2 a b = a \/ Math_max2 a b = b).
Proof.
  intros Ha Hb. unfold Math_max2. rewrite Ha, Hb. cbn [orb].
  destruct (a <? b)%float eqn:Hab.
  - repeat split; [now apply ltb_leb | now apply leb_refl | now right].
  - destruct (b <? a)%float eqn:Hba.
    + repeat split; [now apply leb_refl | now apply ltb_leb | now left].
    + destruct (get_sign a).
      * repeat split; [now apply ltb_false_leb | now apply leb_refl | now right].
      * repeat split; [now apply leb_refl | now apply ltb_false_leb | now left].
Qed.

(** ** Zoom and page navigation *)

(** X13. Zooming in never leaves the zoom above 3 and zooming out never
    leaves it below 0.3, whatever it was before; it comes out [NaN] only
    when the scaled value already is.  Neither changes the page, and each
    redraws the current page exactly when a document is loaded. *)
Theorem zoom_bounds (s : PdfState) :
  is_nan (zoom (fst (zoomIn s))) = is_nan (zoom s * one_point_two)%float
  /\ (is_nan (zoom (fst (zoomIn s))) = false ->
      (zoom (fst (zoomIn s)) <=? 3)%float = true)
  /\ is_nan (zoom (fst (zoomOut s))) = is_nan (zoom s / one_point_two)%float
  /\ (is_nan (zoom (fst (zoomOut s))) = false ->
      (zero_point_three <=? zoom (fst (zoomOut s)))%float = true)
  /\ currentPage (fst (zoomIn s)) = currentPage s
  /\ currentPage (fst (zoomOut s)) = currentPage s
  /\ snd (zoomIn s) = (if pdfDocument s then [currentPage s] else [])
  /\ snd (zoomOut s) = (if pdfDocument s then [currentPage s] else []).
Proof.
  unfold zoomIn, zoomOut. cbn [fst snd zoom currentPage pdfDocument].
  rewrite Math_min2_nan, Math_max2_nan.
  change (is_nan 3) with false. change (is_nan zero_point_three) with false.
  rewrite !orb_false_r.
  split; [reflexivity |].
  split; [intros Hn; now apply Math_min2_le |].
  split; [reflexivity |].
  split; [intros Hn; now apply Math_max2_ge |].
  repeat split; reflexivity.
Qed.

Lemma goToPage_accepts (s : PdfState) (page' : float) :
  pdfDocument s = true ->
  (page' <? 0)%float = false ->
  (totalPages s <=? page')%float = false ->
  goToPage page' s = (with_page s page', [page']).
Proof.
  intros Hdoc Hlow Hhigh. unfold goToPage, with_page.
  rewrite Hdoc. cbn [negb]. rewrite Hlow, Hhigh. reflexivity.
Qed.

Lemma goToPage_effect (s : PdfState) (page' : float) :
  is_nan (totalPages s) = false ->
  goToPage page' s = (s, [])
  \/ (pdfDocument s = true
      /\ goToPage page' s = (with_page s page', [page'])
      /\ (is_nan page' = true \/ page_in_range s page' = true)).
Proof.
  intros Htotal. unfold page_in_range.
  destruct (pdfDocument s) eqn:Hdoc;
    [| left; unfold goToPage; now rewrite Hdoc].
  destruct (page' <? 0)%float eqn:Hlow;
    [left; unfold goToPage; now rewrite Hdoc, Hlow |].
  destruct (totalPages s <=? page')%float eqn:Hhigh;
    [left; unfold goToPage; rewrite Hdoc, Hlow, Hhigh; reflexivity |].
  right. split; [reflexivity |]. split; [now apply goToPage_accepts |].
  destruct (is_nan page') eqn:Hn; [now left | right].
  rewrite (ltb_false_leb page' 0 Hn eq_refl Hlow).
  now rewrite (leb_false_ltb (totalPages s) page' Htotal Hn Hhigh).
Qed.

(** X14. Page navigation with a document of a known page count: going to a
    page changes the current page exactly when a document is loaded and the
    requested page is neither below 0 nor at or above the page count; the
    page is then recorded and displayed once.  A number passes this check
    exactly when it lies in the range from 0 up to, but not including, the
    page count; [NaN] passes it too.  [nextPage] and [prevPage] are the same
    check on the current page plus or minus one; in every other case
    nothing is changed or displayed. *)
Theorem goToPage_range (s : PdfState) (page' : float) :
  is_nan (totalPages s) = false ->
  (pdfDocument s = false -> goToPage page' s = (s, []))
  /\ (pdfDocument s = true -> is_nan page' = false ->
      goToPage page' s
      = if page_in_range s page' then (with_page s page', [page']) else (s, []))
  /\ (pdfDocument s = true -> is_nan page' = true ->
      goToPage page' s = (with_page s page', [page']))
  /\ (nextPage s = (s, [])
      \/ nextPage s = (with_page s (currentPage s + 1), [(currentPage s + 1)%float])
         /\ (is_nan (currentPage s + 1) = true
             \/ page_in_range s (currentPage s + 1) = true))
  /\ (prevPage s = (s, [])
      \/ prevPage s = (with_page s (currentPage s - 1), [(currentPage s - 1)%float])
         /\ (is_nan (currentPage s - 1) = true
             \/ page_in_range s (currentPage s - 1) = true)).
Proof.
  intros Htotal. split; [| split; [| split; [| split]]].
  - intros Hdoc. unfold goToPage. now rewrite Hdoc.
  - intros Hdoc Hn. unfold page_in_range.
    destruct (0 <=? page')%float eqn:Hlow; cbn [andb].
    + destruct (page' <? totalPages s)%float eqn:Hhigh.
      * apply goToPage_accepts; [assumption | |].
        -- now apply leb_true_ltb_false.
        -- now apply ltb_true_leb_false.
      * unfold goToPage. rewrite Hdoc. cbn [negb].
        rewrite (ltb_false_leb page' (totalPages s) Hn Htotal Hhigh).
        now rewrite orb_true_r.
    + unfold goToPage. rewrite Hdoc. cbn [negb].
      now rewrite (leb_false_ltb 0 page' eq_refl Hn Hlow).
  - intros Hdoc Hn. destruct (nan_compares_false page' 0 Hn) as (Hlow & _).
    destruct (nan_compares_false page' (totalPages s) Hn) as (_ & _ & _ & Hhigh).
    now apply goToPage_accepts.
  - unfold nextPage.
    destruct (goToPage_effect s (currentPage s + 1) Htotal) as [H | (_ & H & Hr)];
      [now left | right; now split].
  - unfold prevPage.
    destruct (goToPage_effect s (currentPage s - 1) Htotal) as [H | (_ & H & Hr)];
      [now left | right; now split].
Qed.

Lemma goToPage_range_witness :
  goToPage 2 viewer3 = (with_page viewer3 2, [2%float])
  /\ goToPage 3 viewer3 = (viewer3, [])
  /\ goToPage nan viewer3 = (with_page viewer3 nan, [nan]).
Proof.
  destruct (goToPage_range viewer3 2 eq_refl) as (_ & H2 & _).
  destruct (goToPage_range viewer3 3 eq_refl) as (_ & H3 & _).
  destruct (goToPage_range viewer3 nan eq_refl) as (_ & _ & Hn & _).
  exact (conj (H2 eq_refl eq_refl) (conj (H3 eq_refl eq_refl) (Hn eq_refl eq_refl))).
Defined.

(** ** The bounding box *)

Lemma infinity_not_below (x : float) : (infinity <? x)%float = false.
Proof.
  rewrite FloatAxioms.ltb_spec. unfold SFltb.
  change (Prim2SF infinity) with (S754_infinity false).
  now destruct (Prim2SF x) as [[|] | [|] | | [|] m e].
Qed.

Lemma neg_infinity_not_above (x : float) : (x <? neg_infinity)%float = false.
Proof.
  rewrite FloatAxioms.ltb_spec. unfold SFltb.
  change (Prim2SF neg_infinity) with (S754_infinity true).
  now destruct (Prim2SF x) as [[|] | [|] | | [|] m e].
Qed.

Lemma Math_min_fold (xs : list float) :
  forall acc,
    is_nan acc = false ->
    Forall (fun x => is_nan x = false) xs ->
    is_nan (fold_left Math_min2 xs acc) = false
    /\ (fold_left Math_min2 xs acc <=? acc)%float = true
    /\ (forall x, In x xs -> (fold_left Math_min2 xs acc <=? x)%float = true)
    /\ (fold_left Math_min2 xs acc = acc \/ In (fold_left Math_min2 xs acc) xs).
Proof.
  induction xs as [| x xs IH]; intros acc Hacc Hxs; cbn [fold_left].
  - repeat split; [assumption | now apply leb_refl | intros x [] | now left].
  - apply List.Forall_cons_iff in Hxs as [Hx Hxs].
    destruct (Math_min2_le acc x Hacc Hx) as (Hle_acc & Hle_x & Hsel).
    assert (Hm : is_nan (Math_min2 acc x) = false)
      by (rewrite Math_min2_nan, Hacc, Hx; reflexivity).
    destruct (IH (Math_min2 acc x) Hm Hxs) as (Hn & Hle & Hall & Hin).
    split; [assumption |].
    split; [now apply (leb_trans _ (Math_min2 acc x)) |].
    split.
    + intros y [<- | Hy]; [now apply (leb_trans _ (Math_min2 acc x)) | now apply Hall].
    + destruct Hin as [-> | Hin]; [| right; now right].
      destruct Hsel as [-> | ->]; [now left | right; now left].
Qed.

Lemma Math_max_fold (xs : list float) :
  forall acc,
    is_nan acc = false ->
    Forall (fun x => is_nan x = false) xs ->
    is_nan (fold_left Math_max2 xs acc) = false
    /\ (acc <=? fold_left Math_max2 xs acc)%float = true
    /\ (forall x, In x xs -> (x <=? fold_left Math_max2 xs acc)%float = true)
    /\ (fold_left Math_max2 xs acc = acc \/ In (fold_left Math_max2 xs acc) xs).
Proof.
  induction xs as [| x xs IH]; intros acc Hacc Hxs; cbn [fold_left].
  - repeat split; [assumption | now apply leb_refl | intros x [] | now left].
  - apply List.Forall_cons_iff in Hxs as [Hx Hxs].
    destruct (Math_max2_ge acc x Hacc Hx) as (Hle_acc & Hle_x & Hsel).
    assert (Hm : is_nan (Math_max2 acc x) = false)
      by (rewrite Math_max2_nan, Hacc, Hx; reflexivity).
    destruct (IH (Math_max2 acc x) Hm Hxs) as (Hn & Hle & Hall & Hin).
    split; [assumption |].
    split; [now apply (leb_trans _ (Math_max2 acc x)) |].
    split.
    + intros y [<- | Hy]; [now apply (leb_trans _ (Math_max2 acc x)) | now apply Hall].
    + destruct Hin as [-> | Hin]; [| right; now right].
      destruct Hsel as [-> | ->]; [now left | right; now left].
Qed.

Lemma Math_min_bounds (xs : list float) :
  Forall (fun x => is_nan x = false) xs ->
  (forall x, In x xs -> (Math_min xs <=? x)%float = true)
  /\ (xs <> [] -> In (Math_min xs) xs).
Proof.
  intros Hxs. unfold Math_min.
  destruct (Math_min_fold xs infinity eq_refl Hxs) as (_ & _ & Hall & _).
  split; [exact Hall |].
  destruct xs as [| x xs]; [congruence | intros _].
  apply List.Forall_cons_iff in Hxs as [Hx Hxs]. cbn [fold_left].
  assert (Hfirst : Math_min2 infinity x = x).
  { unfold Math_min2. rewrite Hx. cbn [is_nan orb].
    change (is_nan infinity) with false. cbn [orb].
    rewrite infinity_not_below.
    destruct (x <? infinity)%float; reflexivity. }
  rewrite Hfirst.
  destruct (Math_min_fold xs x Hx Hxs) as (_ & _ & _ & [-> | Hin]);
    [now left | now right].
Qed.

Lemma Math_max_bounds (xs : list float) :
  Forall (fun x => is_nan x = false) xs ->
  (forall x, In x xs -> (x <=? Math_max xs)%float = true)
  /\ (xs <> [] -> In (Math_max xs) xs).
Proof.
  intros Hxs. unfold Math_max.
  destruct (Math_max_fold xs neg_infinity eq_refl Hxs) as (_ & _ & Hall & _).
  split; [exact Hall |].
  destruct xs as [| x xs]; [congruence | intros _].
  apply List.Forall_cons_iff in Hxs as [Hx Hxs]. cbn [fold_left].
  assert (Hfirst : Math_max2 neg_infinity x = x).
  { unfold Math_max2. rewrite Hx.
    change (is_nan neg_infinity) with false. cbn [orb].
    rewrite neg_infinity_not_above.
    destruct (neg_infinity <? x)%float; reflexivity. }
  rewrite Hfirst.
  destruct (Math_max_fold xs x Hx Hxs) as (_ & _ & _ & [-> | Hin]);
    [now left | now right].
Qed.

(** X15. The bounding box of points without [NaN] coordinates contains
    every point, and each of its four bounds is a coordinate of one of the
    points. *)
Theorem boundingBox_contains (points : list Point) :
  Forall (fun p => is_nan (fst p) = false /\ is_nan (snd p) = false) points ->
  (forall p, In p points ->
     (minX (boundingBox points) <=? fst p)%float = true
     /\ (fst p <=? maxX (boundingBox points))%float = true
     /\ (minY (boundingBox points) <=? snd p)%float = true
     /\ (snd p <=? maxY (boundingBox points))%float = true)
  /\ (points <> [] ->
      In (minX (boundingBox points)) (map fst points)
      /\ In (maxX (boundingBox points)) (map fst points)
      /\ In (minY (boundingBox points)) (map snd points)
      /\ In (maxY (boundingBox points)) (map snd points)).
Proof.
  intros Hpoints. cbn [boundingBox minX maxX minY maxY].
  assert (Hxs : Forall (fun x => is_nan x = false) (map fst points)).
  { apply List.Forall_forall. intros x Hx. apply in_map_iff in Hx as (p & <- & Hp).
    apply (proj1 (List.Forall_forall _ _) Hpoints p Hp). }
  assert (Hys : Forall (fun y => is_nan y = false) (map snd points)).
  { apply List.Forall_forall. intros y Hy. apply in_map_iff in Hy as (p & <- & Hp).
    apply (proj1 (List.Forall_forall _ _) Hpoints p Hp). }
  destruct (Math_min_bounds _ Hxs) as [Hminx Hminx_in].
  destruct (Math_max_bounds _ Hxs) as [Hmaxx Hmaxx_in].
  destruct (Math_min_bounds _ Hys) as [Hminy Hminy_in].
  destruct (Math_max_bounds _ Hys) as [Hmaxy Hmaxy_in].
  split.
  - intros p Hp. repeat split.
    + apply Hminx. now apply in_map.
    + apply Hmaxx. now apply in_map.
    + apply Hminy. now apply in_map.
    + apply Hmaxy. now apply in_map.
  - intros Hne.
    assert (Hx : map fst points <> []) by (destruct points; [congruence | discriminate]).
    assert (Hy : map snd points <> []) by (destruct points; [congruence | discriminate]).
    repeat split; auto.
Qed.

Lemma boundingBox_contains_witness :
  (minX (boundingBox (convertCoordinates unit_square 96)) <=? 96)%float = true
  /\ (96 <=? maxX (boundingBox (convertCoordinates unit_square 96)))%float = true.
Proof.
  assert (Hpoints : Forall (fun p => is_nan (fst p) = false /\ is_nan (snd p) = false)
                      (convertCoordinates unit_square 96)).
  { repeat constructor. }
  destruct (boundingBox_contains _ Hpoints) as [Hall _].
  destruct (Hall (96, 0)%float (or_intror (or_introl eq_refl))) as (Hmin & Hmax & _).
  exact (conj Hmin Hmax).
Defined.

Lemma Math_min_nan (xs : list float) :
  forall acc,
    is_nan acc = true \/ Exists (fun x => is_nan x = true) xs ->
    is_nan (fold_left Math_min2 xs acc) = true.
Proof.
  induction xs as [| x xs IH]; intros acc H; cbn [fold_left].
  - destruct H as [H | H]; [assumption | inversion H].
  - apply IH. rewrite Math_min2_nan.
    destruct H as [-> | H]; [now left |].
    apply List.Exists_cons in H as [-> | H]; [left; apply orb_true_r | now right].
Qed.

Lemma Math_max_nan (xs : list float) :
  forall acc,
    is_nan acc = true \/ Exists (fun x => is_nan x = true) xs ->
    is_nan (fold_left Math_max2 xs acc) = true.
Proof.
  induction xs as [| x xs IH]; intros acc H; cbn [fold_left].
  - destruct H as [H | H]; [assumption | inversion H].
  - apply IH. rewrite Math_max2_nan.
    destruct H as [-> | H]; [now left |].
    apply List.Exists_cons in H as [-> | H]; [left; apply orb_true_r | now right].
Qed.

Lemma sub_nan (x y : float) : is_nan x = true -> is_nan (x - y) = true.
Proof.
  intros Hx. apply is_nan_true_Prim2SF in Hx. apply is_nan_true_Prim2SF.
  rewrite sub_spec, Hx. reflexivity.
Qed.

Lemma js_index_past_end (l : list float) (i : nat) :
  (length l <= i)%nat -> js_index l (Z.of_nat i) = nan.
Proof. intros H. apply js_index_None. now apply lookup_ge_None. Qed.

Lemma mul_nan (x y : float) : is_nan x = true -> is_nan (x * y) = true.
Proof.
  intros Hx. apply is_nan_true_Prim2SF in Hx. apply is_nan_true_Prim2SF.
  rewrite mul_spec, Hx. reflexivity.
Qed.

Section TruncatedRect.

Context {W : Type}.
Variable paintDefaultText : AnnotationRenderContext -> W -> Completion * W.
Variable measureHtml : string -> float -> float * float.

Lemma odd_rect_last_y (rect : list float) (effectiveDpi : float) :
  Nat.odd (length rect) = true ->
  Exists (fun y => is_nan y = true) (map snd (convertCoordinates rect effectiveDpi)).
Proof.
  intros Hodd. apply Nat.odd_spec in Hodd as [n Hn].
  assert (Hlast : convertCoordinates rect effectiveDpi !! n
                  = Some ((js_index rect (Z.of_nat (2 * n)) * effectiveDpi)%float,
                          (js_index rect (Z.of_nat (2 * n) + 1) * effectiveDpi)%float))
    by (apply convertCoordinates_lookup; lia).
  apply List.Exists_exists.
  exists (js_index rect (Z.of_nat (2 * n) + 1) * effectiveDpi)%float. split.
  - apply in_map_iff. eexists. split; [| apply list_elem_of_In, list_elem_of_lookup_2 with n; exact Hlast].
    reflexivity.
  - apply mul_nan.
    replace (Z.of_nat (2 * n) + 1)%Z with (Z.of_nat (2 * n + 1)) by lia.
    rewrite js_index_past_end by lia. reflexivity.
Qed.

(** X16. A [rect] with an odd number of entries, five or more, is not
    treated as degenerate: its last point has no y, the height of the
    bounding box is [NaN], and [NaN <= 0] is false.  Unless the content is
    blank or the width is zero or negative, the annotation goes on to
    resolution and to its provider, which is handed the box of [NaN]
    height. *)
Theorem odd_rect_not_skipped (env : Env) (r : @Registry W) (disabled : bool)
    (annotation : OverlayAnnotation) (effectiveDpi : float) (pageNumber : Z)
    (st : @St W) :
  let context := renderContext annotation effectiveDpi pageNumber in
  Nat.odd (length (rect annotation)) = true ->
  (5 <= length (rect annotation))%nat ->
  blank (content annotation) = false ->
  (width (ctx_rect context) <=? 0)%float = false ->
  htmlAnnotation env = None ->
  is_nan (height (ctx_rect context)) = true
  /\ (forall provider,
        findProviderForAnnotation paintDefaultText r annotation = Ok provider ->
        (exists st' evs,
            drawAnnotationText paintDefaultText measureHtml env r disabled annotation
              effectiveDpi pageNumber st = (Ok tt, st')
            /\ trace st' = trace st ++ RenderCall (id provider) :: evs)
        /\ (fst (render provider context (world st)) = Normal ->
            drawAnnotationText paintDefaultText measureHtml env r disabled annotation
              effectiveDpi pageNumber st
            = (Ok tt, {| world := snd (render provider context (world st));
                         overlays := overlays st;
                         trace := trace st ++ [RenderCall (id provider)] |})))
  /\ (forall e,
        findProviderForAnnotation paintDefaultText r annotation = Thrown e ->
        drawAnnotationText paintDefaultText measureHtml env r disabled annotation
          effectiveDpi pageNumber st = (Thrown e, st)).
Proof.
  intros context Hodd Hlen Hcontent Hwidth Hnone.
  assert (Hheight : is_nan (height (ctx_rect context)) = true).
  { subst context. cbn [renderContext ctx_rect boundingBox height].
    apply sub_nan. apply Math_max_nan. right. now apply odd_rect_last_y. }
  assert (Hpoints : (3 <= length (convertCoordinates (rect annotation) effectiveDpi))%nat).
  { rewrite convertCoordinates_length.
    apply Nat.odd_spec in Hodd as [n Hn]. rewrite Hn.
    replace (S (2 * n + 1)) with (2 * S n)%nat by lia.
    rewrite Nat.div2_double. lia. }
  assert (Hpositive : (height (ctx_rect context) <=? 0)%float = false)
    by (now destruct (nan_compares_false (height (ctx_rect context)) 0 Hheight)
          as (_ & _ & -> & _)).
  pose proof (drawAnnotationText_provider paintDefaultText measureHtml env r disabled
                annotation effectiveDpi pageNumber st
                Hnone Hcontent Hpoints Hwidth Hpositive) as Hdraw.
  fold context in Hdraw.
  split; [exact Hheight |]. split.
  - intros provider Hresolved. rewrite Hresolved in Hdraw. rewrite Hdraw.
    unfold render_outcome.
    destruct (render provider context (world st)) as [[| e] w]; cbn [fst snd].
    + split; [| reflexivity]. eexists _, []. split; reflexivity.
    + split; [| discriminate].
      destruct (negb (String.eqb (id provider) "default") && negb disabled).
      * destruct (render (defaultProvider paintDefaultText) context w) as [[| e2] w2];
          eexists _, _; (split; [reflexivity |]); cbn [trace snd app]; reflexivity.
      * eexists _, _. split; [reflexivity |]. cbn [trace snd app]. reflexivity.
  - intros e Hthrown. now rewrite Hthrown in Hdraw.
Qed.

End TruncatedRect.

Lemma odd_rect_not_skipped_witness :
  is_nan (height (ctx_rect (renderContext truncated_annotation 96 0))) = true
  /\ drawAnnotationText paint0 measure0 env0 registry0 false truncated_annotation 96 0 st0
     = (Ok tt, {| world := tt; overlays := []; trace := [RenderCall "default"] |}).
Proof.
  destruct (odd_rect_not_skipped paint0 measure0 env0 registry0 false
              truncated_annotation 96 0 st0 eq_refl
              (le_S _ _ (le_S _ _ (le_n 5))) eq_refl eq_refl eq_refl)
    as (Hnan & Hrun & _).
  exact (conj Hnan (proj2 (Hrun _ eq_refl) eq_refl)).
Defined.

(** ** Ray casting *)

Lemma isPointInPolygon_loop_nan (px py : float) (polygon : list float) :
  is_nan px = true \/ is_nan py = true ->
  forall fuel i j inside,
    isPointInPolygon_loop fuel px py polygon i j inside = inside.
Proof.
  intros Hnan. induction fuel as [| fuel IH]; intros i j inside;
    cbn [isPointInPolygon_loop]; [reflexivity |].
  destruct (i <? Z.of_nat (length polygon))%Z; [| reflexivity].
  rewrite IH. destruct Hnan as [Hx | Hy].
  - destruct (nan_compares_false px
                ((js_index polygon j - js_index polygon i)
                 * (py - js_index polygon (i + 1))
                 / (js_index polygon (j + 1) - js_index polygon (i + 1))
                 + js_index polygon i)%float Hx) as (-> & _).
    now rewrite andb_false_r.
  - destruct (nan_compares_false py (js_index polygon (i + 1)) Hy) as (-> & _).
    destruct (nan_compares_false py (js_index polygon (j + 1)) Hy) as (-> & _).
    reflexivity.
Qed.

Lemma isPointInPolygon_loop_flat (px py : float) (polygon : list float) (y0 : float) :
  Nat.even (length polygon) = true ->
  (forall k y, polygon !! (2 * k + 1)%nat = Some y -> y = y0) ->
  forall fuel (a b : nat) inside,
    (2 * a < length polygon -> 2 * b < length polygon)%nat ->
    isPointInPolygon_loop fuel px py polygon (Z.of_nat (2 * a)) (Z.of_nat (2 * b)) inside
    = inside.
Proof.
  intros Heven Hflat. apply Nat.even_spec in Heven as [n Hn].
  assert (Hy : forall k, (2 * k < length polygon)%nat ->
                 js_index polygon (Z.of_nat (2 * k) + 1) = y0).
  { intros k Hk.
    replace (Z.of_nat (2 * k) + 1)%Z with (Z.of_nat (2 * k + 1)) by lia.
    destruct (polygon !! (2 * k + 1)%nat) as [y |] eqn:E.
    - rewrite (js_index_Some _ _ _ E). now apply (Hflat k).
    - apply lookup_ge_None in E. lia. }
  induction fuel as [| fuel IH]; intros a b inside Hb;
    cbn [isPointInPolygon_loop]; [reflexivity |].
  destruct (Z.ltb_spec (Z.of_nat (2 * a)) (Z.of_nat (length polygon))) as [Ha | _];
    [| reflexivity].
  rewrite (Hy a) by lia. rewrite (Hy b) by (apply Hb; lia).
  rewrite Bool.eqb_reflx. cbn [negb andb].
  replace (Z.of_nat (2 * a) + 2)%Z with (Z.of_nat (2 * S a)) by lia.
  apply IH. lia.
Qed.

(** X17. Ray casting never reports a point with a [NaN] coordinate inside
    a polygon, and never reports any point inside a polygon of x-y pairs
    whose vertices all have the same y (a polygon of zero height, a single
    vertex or the empty polygon included). *)
Theorem isPointInPolygon_degenerate :
  (forall px py polygon,
      is_nan px = true \/ is_nan py = true ->
      isPointInPolygon px py polygon = false)
  /\ (forall px py polygon y0,
        Nat.even (length polygon) = true ->
        (forall k y, polygon !! (2 * k + 1)%nat = Some y -> y = y0) ->
        isPointInPolygon px py polygon = false).
Proof.
  split.
  - intros px py polygon Hnan. unfold isPointInPolygon.
    now apply isPointInPolygon_loop_nan.
  - intros px py polygon y0 Heven Hflat. unfold isPointInPolygon.
    destruct polygon as [| x0 polygon']; [reflexivity |].
    set (polygon := x0 :: polygon') in *.
    assert (Hlen : exists n, length polygon = (2 * S n)%nat).
    { apply Nat.even_spec in Heven as [n Hn]. destruct n as [| n];
        [discriminate | now exists n]. }
    destruct Hlen as [n Hn].
    replace (Z.of_nat (length polygon) - 2)%Z with (Z.of_nat (2 * n)) by lia.
    apply (isPointInPolygon_loop_flat px py polygon y0 Heven Hflat
             (length polygon) 0 n false).
    lia.
Qed.

Example isPointInPolygon_flat_segment :
  isPointInPolygon 48 0 [0; 0; 96; 0]%float = false
  /\ isPointInPolygon nan 48 [0; 0; 96; 0; 96; 96; 0; 96]%float = false
  /\ isPointInPolygon 48 48 [0; 0; 96; 0; 96; 96; 0; 96]%float = true.
Proof. repeat split; vm_compute; reflexivity. Qed.

(** ** Text wrapping *)

Lemma split_spaces_cons (s : string) : exists w ws, split_spaces s = w :: ws.
Proof.
  induction s as [| c s IH]; cbn [split_spaces]; [eauto |].
  destruct (Ascii.eqb c " "); [eauto |].
  destruct IH as (w & ws & ->). eauto.
Qed.

Lemma split_spaces_word (w : string) :
  has_space w = false -> split_spaces w = [w].
Proof.
  induction w as [| c w IH]; cbn [split_spaces has_space]; [reflexivity |].
  destruct (Ascii.eqb c " "); [discriminate |]. cbn [orb].
  intros H. now rewrite IH.
Qed.

Lemma split_spaces_no_space (s : string) :
  Forall (fun w => has_space w = false) (split_spaces s).
Proof.
  induction s as [| c s IH]; cbn [split_spaces]; [now repeat constructor |].
  destruct (Ascii.eqb c " ") eqn:E; [now constructor |].
  destruct (split_spaces s) as [| w ws]; [repeat constructor; cbn; now rewrite E |].
  apply List.Forall_cons_iff in IH as [Hw Hws].
  constructor; [cbn [has_space]; now rewrite E, Hw | assumption].
Qed.

Lemma split_spaces_app (a b : string) :
  split_spaces (a +:+ " " +:+ b) = split_spaces a ++ split_spaces b.
Proof.
  induction a as [| c a IH]; [reflexivity |].
  change (String c a +:+ " " +:+ b) with (String c (a +:+ " " +:+ b)).
  cbn [split_spaces]. rewrite IH.
  destruct (Ascii.eqb c " "); [reflexivity |].
  destruct (split_spaces_cons a) as (w & ws & ->). reflexivity.
Qed.

Lemma nonempty_app (a b : string) : nonempty a = true -> nonempty (a +:+ b) = true.
Proof. destruct a; [discriminate | reflexivity]. Qed.

Section WrapTextFacts.

Variable measureText : string -> float.

Abbreviation wrapped_line := (wrapped_line measureText).

Lemma wrapText_loop_lines (text : string) (maxWidth : float) :
  forall words lines currentLine,
    (forall w, In w words -> In w (split_spaces text)) ->
    Forall (wrapped_line text maxWidth) lines ->
    (currentLine = EmptyString \/ wrapped_line text maxWidth currentLine) ->
    let '(lines', currentLine') :=
      wrapText_loop measureText words maxWidth lines currentLine in
    Forall (wrapped_line text maxWidth) lines'
    /\ (currentLine' = EmptyString \/ wrapped_line text maxWidth currentLine').
Proof.
  induction words as [| word words IH]; intros lines currentLine Hwords Hlines Hcur;
    cbn [wrapText_loop]; [now split |].
  assert (Hword : word = EmptyString \/ wrapped_line text maxWidth word).
  { destruct word as [| c word]; [now left | right].
    split; [reflexivity | right; apply Hwords; now left]. }
  assert (Hrest : forall w, In w words -> In w (split_spaces text))
    by (intros w Hw; apply Hwords; now right).
  destruct (nonempty currentLine) eqn:Hne.
  - destruct Hcur as [-> | Hcur]; [discriminate |].
    destruct (maxWidth <? measureText (currentLine +:+ " " +:+ word))%float eqn:Hfit;
      cbn [andb].
    + apply IH; [assumption | | assumption].
      apply Forall_app. split; [assumption |]. constructor; [assumption | constructor].
    + apply IH; [assumption | assumption | right].
      split; [now apply nonempty_app | now left].
  - rewrite andb_false_r. now apply IH.
Qed.

Lemma wrapText_loop_words (maxWidth : float) :
  forall words lines currentLine,
    Forall (fun w => has_space w = false) words ->
    let '(lines', currentLine') :=
      wrapText_loop measureText words maxWidth lines currentLine in
    List.filter nonempty (flat_map split_spaces lines' ++ split_spaces currentLine')
    = List.filter nonempty (flat_map split_spaces lines ++ split_spaces currentLine ++ words).
Proof.
  induction words as [| word words IH]; intros lines currentLine Hwords;
    cbn [wrapText_loop]; [now rewrite app_nil_r |].
  apply List.Forall_cons_iff in Hwords as [Hword Hwords].
  destruct (nonempty currentLine) eqn:Hne.
  - destruct (maxWidth <? measureText (currentLine +:+ " " +:+ word))%float;
      cbn [andb].
    + specialize (IH (lines ++ [currentLine]) word Hwords).
      destruct (wrapText_loop _ _ _ _ _) as [lines' currentLine'].
      rewrite IH, flat_map_app. cbn [flat_map].
      rewrite app_nil_r, (split_spaces_word word Hword), <- !app_assoc. reflexivity.
    + specialize (IH lines (currentLine +:+ " " +:+ word) Hwords).
      destruct (wrapText_loop _ _ _ _ _) as [lines' currentLine'].
      rewrite IH, split_spaces_app, (split_spaces_word word Hword), <- !app_assoc.
      reflexivity.
  - rewrite andb_false_r.
    specialize (IH lines word Hwords).
    destruct (wrapText_loop _ _ _ _ _) as [lines' currentLine'].
    rewrite IH, (split_spaces_word word Hword).
    destruct currentLine; [| discriminate].
    rewrite !List.filter_app. cbn [split_spaces List.filter nonempty app].
    destruct (nonempty word); reflexivity.
Qed.

(** X18. Wrapping a text yields lines that are not empty, each of which
    either measures no more than the maximal width or is a single word of
    the text (a word too long to fit stands alone); and the lines hold the
    words of the text, all of them, in order. *)
Theorem wrapText_lines (text : string) (maxWidth : float) :
  Forall (wrapped_line text maxWidth) (wrapText measureText text maxWidth)
  /\ flat_map words_of (wrapText measureText text maxWidth) = words_of text.
Proof.
  unfold wrapText. split.
  - pose proof (wrapText_loop_lines text maxWidth (split_spaces text) [] EmptyString
                  (fun w H => H) (List.Forall_nil _) (or_introl eq_refl)) as H.
    destruct (wrapText_loop _ _ _ _ _) as [lines currentLine].
    destruct H as [Hlines Hcur].
    destruct (nonempty currentLine) eqn:Hne; [| assumption].
    destruct Hcur as [-> | Hcur]; [discriminate |].
    apply Forall_app. split; [assumption |]. constructor; [assumption | constructor].
  - pose proof (wrapText_loop_words maxWidth (split_spaces text) [] EmptyString
                  (split_spaces_no_space text)) as H.
    destruct (wrapText_loop _ _ _ _ _) as [lines currentLine].
    cbn [flat_map app split_spaces List.filter nonempty] in H.
    assert (Hflat : forall ls, flat_map words_of ls
                               = List.filter nonempty (flat_map split_spaces ls)).
    { induction ls as [| l ls IHls]; [reflexivity |].
      cbn [flat_map]. now rewrite List.filter_app, IHls. }
    unfold words_of at 2. rewrite <- H, List.filter_app.
    destruct (nonempty currentLine) eqn:Hne.
    + rewrite Hflat, flat_map_app, List.filter_app. cbn [flat_map].
      now rewrite app_nil_r.
    + destruct currentLine; [| discriminate].
      cbn [split_spaces List.filter nonempty]. now rewrite app_nil_r, Hflat.
Qed.

End WrapTextFacts.

Example wrapText_by_length :
  wrapText (fun s => PrimFloat.of_uint63 (Uint63.of_Z (Z.of_nat (String.length s))))
    "the quick  brown fox" 9
  = ["the quick"; "brown fox"].
Proof. vm_compute. reflexivity. Qed.

(** ** Render dispatch of the earlier revision *)

Section LegacyDispatchFacts.

Context {W : Type}.
Variable paintDefaultText : AnnotationRenderContext -> W -> Completion * W.

(** X19. The render entry point of the earlier revision ends normally
    whatever a [render] does, and it ends normally whenever resolution
    returns a provider; it ends with an exception only when a [canHandle]
    throws during resolution, which happens outside its [try], and then
    with that exception and nothing drawn or logged.  When the provider it
    resolves is not ['default'] and its [render] throws, a warning is logged
    and the default provider renders the annotation once, always (this
    revision has no switch to disable the fallback); a second failure is
    logged as an error. *)
Theorem legacy_drawAnnotationText_falls_back
    (annotationProviders : JsMap (@Legacy.AnnotationProvider W))
    (annotation : OverlayAnnotation) (effectiveDpi : float) (pageNumber : Z)
    (st : @St W) :
  let context := renderContext annotation effectiveDpi pageNumber in
  let resolved :=
    Legacy.findProviderForAnnotation paintDefaultText annotationProviders annotation in
  let drawn :=
    LegacyDispatch.drawAnnotationText paintDefaultText annotationProviders annotation
      effectiveDpi pageNumber st in
  ((exists st', drawn = (Ok tt, st'))
   \/ (exists e, resolved = Thrown e /\ drawn = (Thrown e, st)))
  /\ (forall provider, resolved = Ok provider -> exists st', drawn = (Ok tt, st'))
  /\ (forall provider e w1,
        blank (content annotation) = false ->
        (3 <= length (convertCoordinates (rect annotation) effectiveDpi))%nat ->
        (width (ctx_rect context) <=? 0)%float = false ->
        (height (ctx_rect context) <=? 0)%float = false ->
        resolved = Ok provider ->
        Legacy.render provider context (world st) = (Throws e, w1) ->
        Legacy.id provider <> "default" ->
        drawn
        = (Ok tt,
           {| world :=
                snd (Legacy.render (Legacy.defaultProvider paintDefaultText) context w1);
              overlays := overlays st;
              trace :=
                trace st
                ++ [RenderCall (Legacy.id provider);
                    ConsoleWarn ("Error rendering annotation with provider "
                                 +:+ Legacy.id provider +:+ ":");
                    RenderCall "default"]
                ++ match fst (Legacy.render (Legacy.defaultProvider paintDefaultText)
                                context w1) with
                   | Normal => []
                   | Throws _ => [ConsoleError "Default provider also failed:"]
                   end |}))
  /\ (forall e,
        blank (content annotation) = false ->
        (3 <= length (convertCoordinates (rect annotation) effectiveDpi))%nat ->
        (width (ctx_rect context) <=? 0)%float = false ->
        (height (ctx_rect context) <=? 0)%float = false ->
        resolved = Thrown e ->
        drawn = (Thrown e, st)).
Proof.
  intros context resolved drawn.
  assert (Hdispatch :
            forall provider st0, exists st',
              try_catch (LegacyDispatch.call_render provider context)
                (fun _ =>
                   bind (emit (ConsoleWarn ("Error rendering annotation with provider "
                                            +:+ Legacy.id provider +:+ ":")))
                     (fun _ =>
                        if negb (String.eqb (Legacy.id provider) "default") then
                          try_catch
                            (LegacyDispatch.call_render
                               (Legacy.defaultProvider paintDefaultText) context)
                            (fun _ => emit (ConsoleError "Default provider also failed:"))
                        else ret tt)) st0
              = (Ok tt, st')).
  { intros provider st0. unfold try_catch at 1, LegacyDispatch.call_render at 1.
    destruct (Legacy.render provider context (world st0)) as [[| e] w];
      [eexists; reflexivity |].
    unfold bind, emit. cbn [world overlays trace].
    destruct (negb _); [| eexists; reflexivity].
    unfold try_catch, LegacyDispatch.call_render. cbn [world overlays trace].
    destruct (Legacy.render (Legacy.defaultProvider paintDefaultText) context w)
      as [[| e2] w2]; eexists; reflexivity. }
  assert (Houtcome : (exists st', drawn = (Ok tt, st'))
                     \/ (exists e, resolved = Thrown e /\ drawn = (Thrown e, st))).
  { subst drawn. unfold LegacyDispatch.drawAnnotationText.
    destruct (blank (content annotation)); [left; eexists; reflexivity |].
    destruct (_ <? 3)%nat; [left; eexists; reflexivity |].
    fold context. destruct (_ || _); [left; eexists; reflexivity |].
    fold resolved. unfold bind at 1.
    destruct resolved as [provider | e]; cbn [of_result ret throw].
    - left. apply Hdispatch.
    - right. now exists e. }
  split; [exact Houtcome |]. split; [| split].
  - intros provider Hresolved.
    destruct Houtcome as [H | (e & He & _)]; [exact H | congruence].
  - intros provider e w1 Hcontent Hpoints Hwidth Hheight Hresolved Hthrows Hid.
    subst drawn. unfold LegacyDispatch.drawAnnotationText. rewrite Hcontent.
    apply Nat.ltb_ge in Hpoints. rewrite Hpoints.
    fold context. rewrite Hwidth, Hheight. cbn [orb].
    fold resolved. rewrite Hresolved. unfold bind at 1. cbn [of_result ret].
    unfold try_catch at 1, LegacyDispatch.call_render at 1.
    rewrite Hthrows. unfold bind, emit. cbn [world overlays trace].
    apply String.eqb_neq in Hid. rewrite Hid. cbn [negb].
    unfold try_catch, LegacyDispatch.call_render. cbn [world overlays trace].
    destruct (Legacy.render (Legacy.defaultProvider paintDefaultText) context w1)
      as [[| e2] w2]; cbn [fst snd Legacy.id Legacy.defaultProvider].
    + now rewrite app_nil_r, <- !app_assoc.
    + unfold emit. cbn [world overlays trace]. now rewrite <- !app_assoc.
  - intros e Hcontent Hpoints Hwidth Hheight Hresolved.
    subst drawn. unfold LegacyDispatch.drawAnnotationText. rewrite Hcontent.
    apply Nat.ltb_ge in Hpoints. rewrite Hpoints.
    fold context. rewrite Hwidth, Hheight. cbn [orb].
    fold resolved. rewrite Hresolved. reflexivity.
Qed.

End LegacyDispatchFacts.

(** ** Redraw and hover together *)

Section RedrawHoverFacts.

Context {W : Type}.
Variable paintDefaultText : AnnotationRenderContext -> W -> Completion * W.
Variable measureHtml : string -> float -> float * float.
Variable isPointInPath : Path2D -> float -> float -> bool.

(** X20. On the index that a redraw of a page has built, a pointer move
    onto an annotation other than the one hovered before finds an annotation
    of that page, clears the overlay canvas and the HTML overlays, fills and
    strokes that annotation's own polygon as the redraw computed it, runs
    the render entry point for the annotation once, and sets the pointer
    cursor; nothing else is drawn.  In a viewer without an [htmlAnnotation]
    callback, for an annotation that passes the guards of the entry point
    and resolves to a provider, the run of the entry point is one call of
    the provider's [render] (and what follows it when it throws). *)
Theorem hover_highlights_own_polygon (env : Env) (r : @Registry W) (disabled : bool)
    (pageAnnotations : list OverlayAnnotation) (pageNumber : Z) (effectiveDpi : float)
    (hover : HoverState) (event : MouseEvent) (a : OverlayAnnotation) (st : @St W) :
  let annotationPaths := fst (drawAnnotations pageAnnotations pageNumber effectiveDpi) in
  let polygon := createAnnotationPath (rect a) effectiveDpi in
  let moved :=
    handleCanvasMouseMove paintDefaultText measureHtml isPointInPath env r disabled
      annotationPaths hover event st in
  ready env = true ->
  consistent hover ->
  hit isPointInPath env annotationPaths event = Some a ->
  differs (previousHoveredAnnotation hover) (Some a) = true ->
  In a pageAnnotations
  /\ page a = pretty (pageNumber + 1)%Z
  /\ (exists st2,
         hover_render paintDefaultText measureHtml env r disabled a
           (add_events (teardown env st) [CanvasFill polygon; CanvasStroke polygon])
         = (Ok tt, st2)
         /\ moved
            = (Ok {| previousHoverState := true; previousHoveredAnnotation := Some a |},
               add_events st2 [CursorSet true]))
  /\ (forall provider,
         htmlAnnotation env = None ->
         renderable a (hoverDpi env) = true ->
         findProviderForAnnotation paintDefaultText r a = Ok provider ->
         let outcome :=
           render_outcome paintDefaultText disabled provider
             (renderContext a (hoverDpi env) 0) (world st) in
         moved
         = (Ok {| previousHoverState := true; previousHoveredAnnotation := Some a |},
            {| world := fst outcome;
               overlays := overlays (teardown env st);
               trace := trace (teardown env st)
                        ++ [CanvasFill polygon; CanvasStroke polygon]
                        ++ snd outcome ++ [CursorSet true] |})).
Proof.
  intros annotationPaths polygon moved Hready Hcons Hhit Hchanged.
  assert (Hwf : index_wf annotationPaths) by apply drawAnnotations_wf.
  pose proof (move_changed paintDefaultText measureHtml isPointInPath env r disabled
                annotationPaths hover event st Hready Hwf Hcons) as Hmove.
  rewrite Hhit in Hmove.
  destruct (Hmove Hchanged)
    as (entry & st2 & evs & Hin & Ha & Hrender & _ & _ & Hrun).
  apply (index_wf_get _ _ Hwf) in Hin.
  apply drawAnnotations_get_inv in Hin as (a' & Hin' & Hpage & _ & Hentry).
  assert (Ha' : a' = a) by (rewrite Hentry in Ha; exact Ha). subst a'.
  assert (Hpath : entry_path entry = polygon) by (rewrite Hentry; reflexivity).
  rewrite Hpath in Hrender.
  split; [assumption |]. split; [assumption |]. split.
  - exists st2. split; [exact Hrender | exact Hrun].
  - intros provider Hnone Hrenderable Hresolved outcome.
    subst moved. rewrite Hrun. f_equal.
    rewrite (hover_render_renderable paintDefaultText measureHtml env r disabled a
               provider _ Hnone Hrenderable Hresolved) in Hrender.
    injection Hrender as <-. unfold add_events, teardown. cbn [world overlays trace].
    subst outcome. now rewrite <- !app_assoc.
Qed.

End RedrawHoverFacts.

Lemma hover_highlights_own_polygon_witness :
  handleCanvasMouseMove paint0 measure0 rayCast_isPointInPath env0 registry0 false
    square_index initialHoverState inside st0
  = (Ok hover_on_square,
     {| world := tt; overlays := [];
        trace := [CanvasClearRect; OverlaysCleared 0;
                  CanvasFill (createAnnotationPath unit_square 96);
                  CanvasStroke (createAnnotationPath unit_square 96);
                  RenderCall "default";
                  CursorSet true] |}).
Proof.
  destruct (hover_highlights_own_polygon paint0 measure0 rayCast_isPointInPath env0
              registry0 false [square_annotation] 0 96 initialHoverState inside
              square_annotation st0 eq_refl eq_refl eq_refl eq_refl)
    as (_ & _ & _ & Hrun).
  exact (Hrun (defaultProvider paint0) eq_refl eq_refl eq_refl).
Defined.
